(** * TANI image studio: the masked-edit pipeline, embedded and verified

    The development follows the three source files that carry logic:

    - [server.js]: the Express backend (routes [/api/generate] and
      [/api/edit], and [handleApiErrorResponse]);
    - [services/geminiService.ts]: the browser-side transport
      ([fetchApi], [generateImage], [editImage]);
    - the [App] component: UI state, the mask canvas engine
      ([getCanvasCoords], [draw], [clearMask], [getMaskAsBase64]) and the
      handlers ([handleGenerate], [handleEdit], [handleReEdit], ...).

    Conventions of the embedding.

    - A JavaScript string is a [string]: a sequence of code units below 256.
    - A value that may be [undefined] (a missing JSON field, an optional
      argument, a React ref that is [null]) is an [option].
    - A JSON object whose fields are strings is a [gmap string string];
      [JSON.stringify] drops the fields that are [undefined], so a missing
      field is simply not a key of the map.
    - An exception is a value of [thrown]; code that may throw returns an
      [outcome].
    - The external collaborators (the Gemini SDK, the network, the canvas
      rasteriser, the PNG encoder) are parameters of the functions that call
      them.
    - Canvas pixels are RGBA with 8-bit channels, as [getImageData] exposes
      them.
    - A finite number is the rational it denotes ([Q]).  The arithmetic of
      [getCanvasCoords] is that of IEEE 754 binary64: every operation
      rounds to nearest, ties to even ([binary64]).  The slider of the
      comparator, whose result is clamped, is computed without rounding. *)

From Stdlib Require Import ZArith NArith QArith Qfield Lia Lqa Qabs Qpower
  Qround.
From Stdlib Require Import Strings.String Strings.Ascii.
From Stdlib Require Floats.
From stdpp Require Import base option list strings gmap pretty.

Local Open Scope string_scope.
#[local] Arguments String.append !_ _ / : simpl nomatch.

(** ** JavaScript primitives used by the sources *)

Module JS.

(** What a [throw] carries: an [Error] with its [message], or any other
    value (for which [error instanceof Error] is false). *)
Inductive thrown : Type :=
| Error (message : string)
| NotAnError.

Inductive outcome (A : Type) : Type :=
| Returned (a : A)
| Threw (e : thrown).
Arguments Returned {A} a.
Arguments Threw {A} e.

(** The double quote, U+0022. *)
Definition dquote : string := String (ascii_of_nat 34) EmptyString.

(** [!!s] for a string. *)
Definition truthy_string (s : string) : bool :=
  negb (String.eqb s EmptyString).

(** [!!v] for a string that may be [undefined]. *)
Definition truthy (v : option string) : bool :=
  match v with
  | Some s => truthy_string s
  | None => false
  end.

(** [a || b] on strings. *)
Definition or_else (a : option string) (b : string) : string :=
  match a with
  | Some s => if truthy_string s then s else b
  | None => b
  end.

(** [s.startsWith(p)]. *)
Definition startsWith (s p : string) : bool := String.prefix p s.

(** [s.includes(needle)]. *)
Fixpoint includes (s needle : string) : bool :=
  String.prefix needle s ||
  match s with
  | EmptyString => false
  | String _ s' => includes s' needle
  end.

(** WhiteSpace and LineTerminator code units below 256:
    TAB, LF, VT, FF, CR, SP and NBSP. *)
Definition isWhiteSpace (c : ascii) : bool :=
  let n := N_of_ascii c in
  ((9 <=? n) && (n <=? 13) || (n =? 32) || (n =? 160))%N.

Fixpoint trimStart (s : string) : string :=
  match s with
  | EmptyString => EmptyString
  | String c s' => if isWhiteSpace c then trimStart s' else s
  end.

Fixpoint trimEnd (s : string) : string :=
  match s with
  | EmptyString => EmptyString
  | String c s' =>
      match trimEnd s' with
      | EmptyString =>
          if isWhiteSpace c then EmptyString else String c EmptyString
      | t => String c t
      end
  end.

(** [s.trim()]. *)
Definition trim (s : string) : string := trimEnd (trimStart s).

(** [s.split(sep)] for a one-character separator: the pieces between the
    occurrences of [sep], always at least one piece. *)
Fixpoint split (sep : ascii) (s : string) : list string :=
  match s with
  | EmptyString => [EmptyString]
  | String c s' =>
      if Ascii.eqb c sep then EmptyString :: split sep s'
      else match split sep s' with
           | piece :: rest => String c piece :: rest
           | [] => [String c EmptyString]
           end
  end.

(** [\w] of a regular expression: [A-Za-z0-9_]. *)
Definition isWordChar (c : ascii) : bool :=
  let n := N_of_ascii c in
  ((48 <=? n) && (n <=? 57) || (65 <=? n) && (n <=? 90)
   || (97 <=? n) && (n <=? 122) || (n =? 95))%N.

(** The longest run of [\w] at the head of [s], and what follows it. *)
Fixpoint spanWord (s : string) : string * string :=
  match s with
  | EmptyString => (EmptyString, EmptyString)
  | String c s' =>
      if isWordChar c
      then let '(w, rest) := spanWord s' in (String c w, rest)
      else (EmptyString, s)
  end.

(** [s.slice(n)] on strings: [s] without its first [n] code units. *)
Fixpoint drop_string (n : nat) (s : string) : string :=
  match n, s with
  | O, _ => s
  | S n', String _ s' => drop_string n' s'
  | S _, EmptyString => EmptyString
  end.

(** The characters of base64 text: [A-Za-z0-9+/=]. *)
Definition isBase64Char (c : ascii) : bool :=
  let n := N_of_ascii c in
  ((48 <=? n) && (n <=? 57) || (65 <=? n) && (n <=? 90)
   || (97 <=? n) && (n <=? 122) || (n =? 43) || (n =? 47) || (n =? 61))%N.

Fixpoint isBase64 (s : string) : bool :=
  match s with
  | EmptyString => true
  | String c s' => isBase64Char c && isBase64 s'
  end.

Fixpoint allWhiteSpace (s : string) : bool :=
  match s with
  | EmptyString => true
  | String c s' => isWhiteSpace c && allWhiteSpace s'
  end.

(** [s.slice(0, n)]: the first [n] code units of [s]. *)
Fixpoint take_string (n : nat) (s : string) : string :=
  match n, s with
  | S n', String c s' => String c (take_string n' s')
  | _, _ => EmptyString
  end.

Fixpoint map_string (f : ascii -> ascii) (s : string) : string :=
  match s with
  | EmptyString => EmptyString
  | String c s' => String (f c) (map_string f s')
  end.

(** What the class [[a-z0-9]] matches under the flag [i]: the ASCII
    letters of both cases and the digits (without the flag [u], a code
    unit from 128 on is never made equal to an ASCII one). *)
Definition isAlphaNumeric (c : ascii) : bool :=
  let n := N_of_ascii c in
  ((48 <=? n) && (n <=? 57) || (65 <=? n) && (n <=? 90)
   || (97 <=? n) && (n <=? 122))%N.

(** [s.replace(/[^a-z0-9]/gi, '_')]. *)
Definition replaceNonAlphaNumeric (s : string) : string :=
  map_string (fun c => if isAlphaNumeric c then c else "_"%char) s.

(** The lower case of a code unit below 256: [A-Z] and the capital
    letters of Latin-1 (U+00C0 to U+00DE without the sign U+00D7) move up
    by 32. *)
Definition toLowerCase_char (c : ascii) : ascii :=
  let n := N_of_ascii c in
  if ((65 <=? n) && (n <=? 90)
      || (192 <=? n) && (n <=? 222) && negb (n =? 215))%N
  then ascii_of_N (n + 32)
  else c.

(** [s.toLowerCase()]. *)
Definition toLowerCase (s : string) : string :=
  map_string toLowerCase_char s.

(** The characters [a-z], [0-9] and [_]. *)
Definition isFileNameChar (c : ascii) : bool :=
  let n := N_of_ascii c in
  ((48 <=? n) && (n <=? 57) || (97 <=? n) && (n <=? 122) || (n =? 95))%N.

Fixpoint allFileNameChars (s : string) : bool :=
  match s with
  | EmptyString => true
  | String c s' => isFileNameChar c && allFileNameChars s'
  end.

Fixpoint allWordChars (s : string) : bool :=
  match s with
  | EmptyString => true
  | String c s' => isWordChar c && allWordChars s'
  end.

(** *** Numbers

    A number as the sources compute it: a finite binary64 value, given by
    the rational it denotes, or a value that is not finite ([Infinity],
    [-Infinity], [NaN]).  Nothing in the sources tells the three apart or
    looks at the sign of a zero: a coordinate that is not finite only ever
    reaches the canvas, which ignores a path command with such an
    argument. *)
Inductive number : Type :=
| Finite (q : Q)
| NotFinite.

Definition pow2 (e : Z) : Q := (2 ^ e)%Q.

(** The exponent of a positive rational: the [e] with
    [2^e <= q < 2^(e+1)]. *)
Definition exponent (q : Q) : Z :=
  let k := (Z.log2 (Qnum q) - Z.log2 (Zpos (Qden q)))%Z in
  if Qle_bool (pow2 k) q then k else (k - 1)%Z.

(** The nearest integer, the even one of two that are equally near. *)
Definition round_half_even (q : Q) : Z :=
  let n := Qnum q in
  let d := Zpos (Qden q) in
  let f := (n / d)%Z in
  let r := (n mod d)%Z in
  match (2 * r ?= d)%Z with
  | Lt => f
  | Gt => (f + 1)%Z
  | Eq => if Z.even f then f else (f + 1)%Z
  end.

(** Rounding to binary64, to nearest, ties to even: 53 significant bits,
    exponents from -1022 (below, the spacing stays that of the smallest
    normal numbers) to 1023 (a result of 2^1024 or more is an
    infinity). *)
Definition binary64 (q : Q) : number :=
  if Qeq_bool q 0 then Finite 0
  else
    let a := Qabs q in
    let e := Z.max (exponent a) (-1022) in
    let ulp := pow2 (e - 52) in
    let m := round_half_even (a / ulp) in
    let v := (inject_Z m * ulp)%Q in
    if Qle_bool (pow2 1024) v then NotFinite
    else Finite (Qred (if Qle_bool 0 q then v else - v)).

(** [a - b] and [a / b] on finite numbers ([a / 0] is an infinity or
    [NaN]), and [a * b], where a factor that is not finite gives a product
    that is not finite. *)
Definition number_sub (a b : Q) : number := binary64 (a - b).

Definition number_div (a b : Q) : number :=
  if Qeq_bool b 0 then NotFinite else binary64 (a / b).

Definition number_mul (a b : number) : number :=
  match a, b with
  | Finite p, Finite q => binary64 (p * q)
  | _, _ => NotFinite
  end.

(** The binary64 numbers of the kernel, whose operations are those of the
    hardware, read as a [number]: [binary64] is compared with them on
    examples. *)
Definition of_float (f : PrimFloat.float) : number :=
  match FloatOps.Prim2SF f with
  | SpecFloat.S754_zero _ => Finite 0
  | SpecFloat.S754_finite s m e =>
      Finite (Qred ((if s then -1 else 1) * inject_Z (Zpos m) * pow2 e))
  | _ => NotFinite
  end.

(** The integer [z] (below 2^63) and the power [2^e] as kernel numbers. *)
Definition float_of_Z (z : Z) : PrimFloat.float :=
  PrimFloat.of_uint63 (Uint63.of_Z z).

Definition float_pow2 (e : Z) : PrimFloat.float :=
  FloatOps.Z.ldexp (float_of_Z 1) e.

End JS.

Export JS.

(** ** The shapes of [@google/genai] that [server.js] touches

    The SDK is an external collaborator: its two entry points are the fields
    of [client], and [response_text] is the SDK's [text] accessor of a
    response, taken as the SDK returns it. *)

Module Gemini.

Record Blob : Type := { data : option string; mimeType : option string }.

Record Part : Type := { inlineData : option Blob; text : option string }.

Record Content : Type := { parts : option (list Part) }.

Record Candidate : Type := { content : option Content }.

Record GenerateContentResponse : Type :=
  { candidates : option (list Candidate);
    response_text : option string }.

Inductive Modality : Type := IMAGE | TEXT.

Record GenerateContentParameters : Type :=
  { model : string;
    contents : list Part;
    systemInstruction : string;
    responseModalities : list Modality }.

Record Image : Type := { imageBytes : option string }.

Record GeneratedImage : Type := { image : option Image }.

Record GenerateImagesResponse : Type :=
  { generatedImages : option (list GeneratedImage) }.

Record GenerateImagesParameters : Type :=
  { images_model : string;
    prompt : string;
    numberOfImages : N;
    outputMimeType : string;
    aspectRatio : string }.

Record client : Type :=
  { generateContent :
      GenerateContentParameters -> outcome GenerateContentResponse;
    generateImages :
      GenerateImagesParameters -> outcome GenerateImagesResponse }.

End Gemini.

(** ** HTTP messages between the browser and the backend *)

Module Http.

Record request : Type :=
  { endpoint : string; body : gmap string string }.

(** What the backend writes with [res.status(..).json(..)]. *)
Record response : Type :=
  { status : N; json : gmap string string }.

(** One property of an object literal as [JSON.stringify] writes it:
    a property whose value is [undefined] is left out. *)
Definition property (key : string) (value : option string)
  : gmap string string :=
  match value with
  | Some v => {[ key := v ]}
  | None => ∅
  end.

(** The bytes that one code unit takes in a string literal of
    [JSON.stringify], sent as UTF-8: two for a quotation mark, a reverse
    solidus and the five control characters with a short escape, six for
    any other control character ([\u00XX]), one for the rest of ASCII and
    two from U+0080 on. *)
Definition escaped_size (c : ascii) : N :=
  let n := N_of_ascii c in
  if ((n =? 34) || (n =? 92) || (n =? 8) || (n =? 9) || (n =? 10)
      || (n =? 12) || (n =? 13))%N then 2%N
  else if (n <? 32)%N then 6%N
  else if (n <? 128)%N then 1%N
  else 2%N.

(** A string literal: its two quotation marks and its characters. *)
Fixpoint literal_size (s : string) : N :=
  match s with
  | EmptyString => 2%N
  | String c s' => (escaped_size c + literal_size s')%N
  end.

(** The [Content-Length] of a request whose body is
    [JSON.stringify(body)]: the braces, a comma between two properties,
    and for each property its key, a colon and its value. *)
Definition content_length (body : gmap string string) : N :=
  (2 + (N.of_nat (size body) - 1)
   + map_fold
       (fun key value total =>
          total + literal_size key + 1 + literal_size value)
       0 body)%N.

End Http.

(** ** [server.js] *)

Module Server.
Import Gemini.

(** [`${v}`] for a string that may be [undefined]. *)
Definition toString (v : option string) : string :=
  match v with
  | Some s => s
  | None => "undefined"
  end.

(** [res.status(code).json({ error: message })]. *)
Definition error_response (code : N) (message : string) : Http.response :=
  {| Http.status := code; Http.json := {[ "error" := message ]} |}.

(** [res.json({ imageBase64: bytes })]: status 200. *)
Definition image_response (bytes : option string) : Http.response :=
  {| Http.status := 200; Http.json := Http.property "imageBase64" bytes |}.

Definition handleApiErrorResponse (error : thrown) : Http.response :=
  let statusCode := 500%N in
  let message := "Failed to process request due to an API error." in
  match error with
  | Error error_message =>
      if includes error_message "API key not valid" then
        error_response 401 "The provided API key is not valid."
      else if includes error_message "429" then
        error_response 429 "API rate limit exceeded. Please try again later."
      else if startsWith error_message "Image generation failed:" then
        error_response 400 error_message
      else error_response statusCode message
  | NotAnError => error_response statusCode message
  end.

(** What a route did: the calls it made to the external model, in order,
    and the HTTP response it wrote. *)
Record handled (call : Type) : Type :=
  { calls : list call; reply : Http.response }.
Arguments calls {call} h.
Arguments reply {call} h.

(** [app.post('/api/generate', ...)]. *)
Definition generate (ai : client) (body : gmap string string)
  : handled GenerateImagesParameters :=
  let prompt := body !! "prompt" in
  let aspectRatio := body !! "aspectRatio" in
  if negb (truthy prompt) || negb (truthy aspectRatio) then
    {| calls := [];
       reply := error_response 400 "Prompt and aspect ratio are required." |}
  else
    let params :=
      {| images_model := "imagen-4.0-generate-001";
         prompt := toString prompt;
         numberOfImages := 1;
         outputMimeType := "image/jpeg";
         aspectRatio := toString aspectRatio |} in
    {| calls := [params];
       reply :=
         match generateImages ai params with
         | Threw error => handleApiErrorResponse error
         | Returned response =>
             let image : option GeneratedImage :=
               generatedImages response ≫= head in
             let bytes : option string :=
               (image ≫= Gemini.image) ≫= imageBytes in
             if truthy bytes then image_response bytes
             else handleApiErrorResponse
                    (Error "No image data received from the API.")
         end |}.

(** The instruction synthesised when a mask comes with the request. *)
Definition mask_instruction (prompt : option string) : string :=
  "Using the provided black and white mask image, apply the following edit only to the BLACK areas of the original image, leaving the white areas unchanged: "
  ++ dquote ++ toString prompt ++ dquote.

Definition edit_systemInstruction : string :=
  "You are an expert AI image editor. Your task is to take the user's image and their text prompt as a direct instruction to modify the image. If a black and white mask image is also provided, you MUST only apply the edits described in the prompt to the BLACK areas of the original image. The white areas of the mask indicate parts of the image that should remain unchanged. You must only return the edited image. Do not engage in conversation, ask for clarification, or respond with text. Apply the edit and output the resulting image.".

(** The [parts] array of the edit route, after the pushes. *)
Definition edit_parts
    (prompt imageBase64Data mimeType maskBase64Data : option string)
  : list Part :=
  let parts :=
    [ {| inlineData :=
           Some {| data := imageBase64Data; Gemini.mimeType := mimeType |};
         text := None |} ] in
  if truthy maskBase64Data then
    parts
    ++ [ {| inlineData :=
              Some {| data := maskBase64Data;
                      Gemini.mimeType := Some "image/png" |};
            text := None |} ]
    ++ [ {| inlineData := None; text := Some (mask_instruction prompt) |} ]
  else
    parts ++ [ {| inlineData := None; text := prompt |} ].

(** [part.inlineData?.data], as a condition. *)
Definition has_inline_data (part : Part) : bool :=
  truthy (inlineData part ≫= data).

(** [response.candidates?.[0]?.content?.parts?.find(part =>
    part.inlineData?.data)]. *)
Definition find_imagePart (response : GenerateContentResponse)
  : option Part :=
  let first : option Candidate := candidates response ≫= head in
  let parts : option (list Part) := (first ≫= content) ≫= Gemini.parts in
  parts ≫= List.find has_inline_data.

(** The part of the edit route after the model has answered. *)
Definition edit_interpret (response : GenerateContentResponse)
  : outcome Http.response :=
  let imagePart := find_imagePart response in
  let found : option string := (imagePart ≫= inlineData) ≫= data in
  if truthy found then Returned (image_response found)
  else
    let textResponse := response_text response in
    if truthy textResponse then
      Threw (Error ("Image generation failed: " ++ toString textResponse))
    else Threw (Error "No image data was received from the API.").

(** [app.post('/api/edit', ...)]. *)
Definition edit (ai : client) (body : gmap string string)
  : handled GenerateContentParameters :=
  let prompt := body !! "prompt" in
  let imageBase64Data := body !! "imageBase64Data" in
  let mimeType := body !! "mimeType" in
  let maskBase64Data := body !! "maskBase64Data" in
  if negb (truthy prompt) || negb (truthy imageBase64Data)
     || negb (truthy mimeType) then
    {| calls := [];
       reply :=
         error_response 400 "Prompt, image data, and mimeType are required." |}
  else
    let params :=
      {| model := "gemini-2.5-flash-image";
         contents :=
           edit_parts prompt imageBase64Data mimeType maskBase64Data;
         systemInstruction := edit_systemInstruction;
         responseModalities := [IMAGE; TEXT] |} in
    {| calls := [params];
       reply :=
         match generateContent ai params with
         | Threw error => handleApiErrorResponse error
         | Returned response =>
             match edit_interpret response with
             | Returned r => r
             | Threw error => handleApiErrorResponse error
             end
         end |}.

(** The two shapes of an answer of the API: the image with status 200, or
    an error message with one of four statuses. *)
Definition answers_image (r : Http.response) : Prop :=
  Http.status r = 200%N
  /\ exists bytes,
       bytes <> EmptyString /\ Http.json r = {[ "imageBase64" := bytes ]}.

Definition answers_error (r : Http.response) : Prop :=
  In (Http.status r) [400; 401; 429; 500]%N
  /\ exists message,
       message <> EmptyString /\ Http.json r = {[ "error" := message ]}.

(** The two POST routes of the backend, by path (the static files and the
    fallback to [index.html] answer GET requests only). *)
Definition route (ai : client) (req : Http.request) : option Http.response :=
  if String.eqb (Http.endpoint req) "/api/generate" then
    Some (reply (generate ai (Http.body req)))
  else if String.eqb (Http.endpoint req) "/api/edit" then
    Some (reply (edit ai (Http.body req)))
  else None.

(** The limit of [app.use(express.json({ limit: '20mb' }))], in bytes. *)
Definition json_limit : N := 20 * 1024 * 1024.

(** What the application sends back: the JSON answer of a route, or a
    page of Express itself, which is HTML. *)
Inductive served : Type :=
| Answer (response : Http.response)
| Page (status : N).

(** The application on a POST request.  The body parser comes before the
    routes: a body of more than [json_limit] bytes is refused with the
    page of status 413 and reaches no route; a path without a route gets
    the page of status 404. *)
Definition app (ai : client) (req : Http.request) : served :=
  if (json_limit <? Http.content_length (Http.body req))%N then Page 413
  else
    match route ai req with
    | Some response => Answer response
    | None => Page 404
    end.

End Server.

(** ** [services/geminiService.ts] *)

Module GeminiService.

(** What [fetch] resolves to: the status line and the body, which
    [response.json()] either parses or rejects with a [SyntaxError]
    (an [Error]; its message is the platform's). *)
Inductive payload : Type :=
| NotJson (syntax_error : string)
| Json (object : gmap string string).

Record fetched : Type := { status : N; content : payload }.

(** [response.ok]: the status is in the range 200-299. *)
Definition ok (response : fetched) : bool :=
  ((200 <=? status response) && (status response <=? 299))%N.

(** The network: what [fetch] does with a request (it may reject). *)
Definition network : Type := Http.request -> outcome fetched.

(** A computation that talks to the network: it extends the log of the
    requests issued so far and returns or throws. *)
Definition Net (A : Type) : Type :=
  list Http.request -> outcome A * list Http.request.

Definition ret {A} (a : A) : Net A := fun log => (Returned a, log).

Definition throw {A} (e : thrown) : Net A := fun log => (Threw e, log).

Definition bind {A B} (m : Net A) (k : A -> Net B) : Net B :=
  fun log =>
    match m log with
    | (Returned a, log') => k a log'
    | (Threw e, log') => (Threw e, log')
    end.

(** [try { m } catch (err) { handler(err) }]. *)
Definition try_catch {A} (m : Net A) (handler : thrown -> Net A) : Net A :=
  fun log =>
    match m log with
    | (Returned a, log') => (Returned a, log')
    | (Threw e, log') => handler e log'
    end.

(** [await fetch(endpoint, { method: 'POST', ..., body })]. *)
Definition fetch (net : network) (endpoint : string)
    (body : gmap string string) : Net fetched :=
  fun log =>
    let request := {| Http.endpoint := endpoint; Http.body := body |} in
    (net request, (log ++ [request])%list).

Notation "'let*' x := m 'in' k" := (bind m (fun x => k))
  (at level 10, x name, m at level 100, k at level 200).

Definition fetchApi (net : network) (endpoint : string)
    (body : gmap string string) : Net (gmap string string) :=
  let* response := fetch net endpoint body in
  if negb (ok response) then
    let errorData :=
      match content response with
      | Json object => object
      | NotJson _ => {[ "error" := "An unknown error occurred." ]}
      end in
    throw (Error (or_else (errorData !! "error")
                    ("Request failed with status "
                     ++ pretty (status response))))
  else
    match content response with
    | Json object => ret object
    | NotJson syntax_error => throw (Error syntax_error)
    end.

(** The object [{ prompt, aspectRatio }] that [generateImage] posts. *)
Definition generateImage_body (prompt aspectRatio : string)
  : gmap string string :=
  Http.property "prompt" (Some prompt)
  ∪ Http.property "aspectRatio" (Some aspectRatio).

Definition generateImage (net : network) (prompt aspectRatio : string)
  : Net string :=
  let* data := fetchApi net "/api/generate"
                 (Http.property "prompt" (Some prompt)
                  ∪ Http.property "aspectRatio" (Some aspectRatio)) in
  match data !! "imageBase64" with
  | Some imageBase64 =>
      if truthy_string imageBase64 then ret imageBase64
      else throw (Error "Invalid response from server: missing imageBase64 data.")
  | None =>
      throw (Error "Invalid response from server: missing imageBase64 data.")
  end.

(** The object [body] of [editImage], as [JSON.stringify] sends it.
    [imageBase64Data] is declared a [string]; [handleEdit] passes what
    [split] found after the first comma of the data URL, which is
    [undefined] when there is no comma: the parameter is an [option]. *)
Definition editImage_body (prompt : string)
    (imageBase64Data : option string) (mimeType : string)
    (maskBase64Data : option string) : gmap string string :=
  Http.property "prompt" (Some prompt)
  ∪ Http.property "imageBase64Data" imageBase64Data
  ∪ Http.property "mimeType" (Some mimeType)
  ∪ Http.property "maskBase64Data" maskBase64Data.

Definition editImage (net : network) (prompt : string)
    (imageBase64Data : option string) (mimeType : string)
    (maskBase64Data : option string) : Net string :=
  let body :=
    editImage_body prompt imageBase64Data mimeType maskBase64Data in
  let* data := fetchApi net "/api/edit" body in
  match data !! "imageBase64" with
  | Some imageBase64 =>
      if truthy_string imageBase64 then ret imageBase64
      else throw (Error "Invalid response from server: missing imageBase64 data.")
  | None =>
      throw (Error "Invalid response from server: missing imageBase64 data.")
  end.

(** The backend of this repository standing behind [fetch]: the request
    reaches [Server.app]; the answer of a route comes back as JSON, and a
    page of Express (a body over the limit, a path without a route) does
    not parse as JSON. *)
Definition backend (ai : Gemini.client) : network :=
  fun request =>
    match Server.app ai request with
    | Server.Answer response =>
        Returned {| status := Http.status response;
                    content := Json (Http.json response) |}
    | Server.Page code =>
        Returned {| status := code;
                    content := NotJson "Unexpected token '<'" |}
    end.

End GeminiService.

(** ** The 2D canvas of the browser

    A canvas is its backing dimensions and its bitmap, row by row.  The
    operations below are those the sources call, with the arguments the
    sources give them; compositing is the default [source-over] operator
    on 8-bit channels, rounded to nearest.  How much of a pixel a stroked
    line or a filled disc covers (anti-aliasing included) is the
    rasteriser's business, and so is the PNG encoder: both are fields of
    [platform]. *)

Module Canvas2D.

Record rgba : Type := { red : N; green : N; blue : N; alpha : N }.

Definition transparent : rgba :=
  {| red := 0; green := 0; blue := 0; alpha := 0 |}.

(** ['white']. *)
Definition white : rgba :=
  {| red := 255; green := 255; blue := 255; alpha := 255 |}.

(** ['rgba(0, 0, 0, 1)']. *)
Definition black : rgba :=
  {| red := 0; green := 0; blue := 0; alpha := 255 |}.

Record canvas : Type := { width : N; height : N; bitmap : list rgba }.

Record point : Type := { x : number; y : number }.

Record platform : Type :=
  { (** coverage (0..255) of pixel [i] of a [w] x [h] bitmap by the
        round-capped segment of the given width between two points *)
    line_coverage : N -> N -> Q -> point -> point -> nat -> N;
    (** coverage of pixel [i] by the disc of the given centre and radius *)
    disc_coverage : N -> N -> point -> Q -> nat -> N;
    (** base64 of the PNG encoding of a bitmap: characters of the base64
        alphabet only *)
    png_base64 : canvas -> string }.

(** A new or resized canvas: transparent black everywhere. *)
Definition blank (w h : N) : canvas :=
  {| width := w; height := h;
     bitmap := replicate (N.to_nat (w * h)) transparent |}.

(** Division rounded to nearest. *)
Definition div_round (n d : N) : N := ((2 * n + d) / (2 * d))%N.

(** Porter-Duff [source-over] of [src] on [dst]:
    alpha = as + ad (1 - as); colour = (cs as + cd ad (1 - as)) / alpha. *)
Definition source_over (src dst : rgba) : rgba :=
  let sa := alpha src in
  let da := alpha dst in
  let out := (255 * sa + da * (255 - sa))%N in
  if (out =? 0)%N then transparent
  else
    let channel (cs cd : N) : N :=
      div_round (255 * cs * sa + cd * da * (255 - sa)) out in
    {| red := channel (red src) (red dst);
       green := channel (green src) (green dst);
       blue := channel (blue src) (blue dst);
       alpha := div_round out 255 |}.

(** [ctx.clearRect(0, 0, canvas.width, canvas.height)]. *)
Definition clearRect (c : canvas) : canvas := blank (width c) (height c).

(** [ctx.fillStyle = colour; ctx.fillRect(0, 0, canvas.width,
    canvas.height)]. *)
Definition fillRect (colour : rgba) (c : canvas) : canvas :=
  {| width := width c; height := height c;
     bitmap := source_over colour <$> bitmap c |}.

(** [ctx.drawImage(src, 0, 0)] on [dst]: the pixel of [dst] at column
    [col] and row [row] receives the pixel of [src] at the same place,
    where [src] has one. *)
Definition drawImage (src dst : canvas) : canvas :=
  {| width := width dst; height := height dst;
     bitmap :=
       imap (fun i p =>
               let col := (N.of_nat i mod width dst)%N in
               let row := (N.of_nat i / width dst)%N in
               if ((col <? width src) && (row <? height src))%N then
                 match bitmap src !! N.to_nat (row * width src + col) with
                 | Some s => source_over s p
                 | None => p
                 end
               else p)
            (bitmap dst) |}.

(** The source colour thinned by the coverage of the pixel. *)
Definition covered (colour : rgba) (coverage : N) : rgba :=
  {| red := red colour; green := green colour; blue := blue colour;
     alpha := div_round (alpha colour * N.min coverage 255) 255 |}.

(** Painting a shape: each pixel receives the colour, as much as the
    shape covers it. *)
Definition paint (colour : rgba) (coverage : nat -> N) (c : canvas)
  : canvas :=
  {| width := width c; height := height c;
     bitmap :=
       imap (fun i p => source_over (covered colour (coverage i)) p)
            (bitmap c) |}.

(** [ctx.beginPath(); ctx.moveTo(from); ctx.lineTo(to); ctx.stroke()]
    with round caps and joins. *)
Definition stroke_line (plat : platform) (strokeStyle : rgba)
    (lineWidth : Q) (from to : point) (c : canvas) : canvas :=
  paint strokeStyle
    (line_coverage plat (width c) (height c) lineWidth from to) c.

(** [ctx.beginPath(); ctx.arc(centre.x, centre.y, radius, 0, 2 * Math.PI);
    ctx.fill()]. *)
Definition fill_arc (plat : platform) (fillStyle : rgba)
    (centre : point) (radius : Q) (c : canvas) : canvas :=
  paint fillStyle
    (disc_coverage plat (width c) (height c) centre radius) c.

(** [ctx.getImageData(0, 0, canvas.width, canvas.height).data]: the
    bytes R, G, B, A of every pixel; an empty rectangle is an
    [IndexSizeError]. *)
Definition getImageData (c : canvas) : outcome (list N) :=
  if ((width c =? 0) || (height c =? 0))%N then
    Threw (Error "IndexSizeError")
  else
    Returned
      (p ← bitmap c; [red p; green p; blue p; alpha p]).

(** [new Uint32Array(buffer)]: the bytes read four by four, least
    significant first. *)
Fixpoint Uint32Array (bytes : list N) : list N :=
  match bytes with
  | b0 :: b1 :: b2 :: b3 :: rest =>
      N.lor b0 (N.lor (N.shiftl b1 8)
                  (N.lor (N.shiftl b2 16) (N.shiftl b3 24)))
      :: Uint32Array rest
  | _ => []
  end.

(** [array.some(pred)]. *)
Definition some {A} (pred : A -> bool) (array : list A) : bool :=
  existsb pred array.

(** [canvas.toDataURL('image/png')]; a canvas without pixels gives
    ["data:,"]. *)
Definition toDataURL (plat : platform) (c : canvas) : string :=
  if ((width c =? 0) || (height c =? 0))%N then "data:,"
  else "data:image/png;base64," ++ png_base64 plat c.

(** A rasteriser to run the engine on examples: whatever the shape, it
    covers pixel 0 fully and half of pixel 1, as where the edge of a
    stroke runs through a pixel, and nothing else; its encoder writes
    the same base64 text for every bitmap. *)
Definition edge_platform : platform :=
  {| line_coverage := fun _ _ _ _ _ i =>
       match i with O => 255%N | S O => 128%N | _ => 0%N end;
     disc_coverage := fun _ _ _ _ i =>
       match i with O => 255%N | S O => 128%N | _ => 0%N end;
     png_base64 := fun _ => "iVBORw0KGgo=" |}.

(** A rasteriser without anti-aliasing covers a pixel fully or not at
    all. *)
Definition hard_edged (plat : platform) : Prop :=
  forall w h lineWidth from to centre radius i,
    (line_coverage plat w h lineWidth from to i = 0%N
     \/ (255 <= line_coverage plat w h lineWidth from to i)%N)
    /\ (disc_coverage plat w h centre radius i = 0%N
        \/ (255 <= disc_coverage plat w h centre radius i)%N).

(** A pixel that is fully transparent or fully opaque. *)
Definition solid (p : rgba) : Prop := alpha p = 0%N \/ alpha p = 255%N.

(** A rasteriser without anti-aliasing, for examples: pixel 0 is inside
    every shape and no other pixel is. *)
Definition dot_platform : platform :=
  {| line_coverage := fun _ _ _ _ _ i =>
       match i with O => 255%N | _ => 0%N end;
     disc_coverage := fun _ _ _ _ i =>
       match i with O => 255%N | _ => 0%N end;
     png_base64 := fun _ => "iVBORw0KGgo=" |}.

(** A rasteriser with anti-aliasing, for examples: it samples every pixel
    at 4 x 4 points and covers it by the share of the points that lie in
    the shape (within the radius of the centre of the disc, within half
    the line width of the segment, so that the caps are round).  A shape
    with a coordinate that is not finite covers nothing.  The encoder
    writes the same base64 text for every bitmap. *)
Definition sample_points (w : N) (i : nat) : list (Q * Q) :=
  let col := inject_Z (Z.of_N (N.of_nat i mod w)) in
  let row := inject_Z (Z.of_N (N.of_nat i / w)) in
  k ← seq 0 16;
  [ ((col + inject_Z (Z.of_nat (2 * (k mod 4) + 1)) / 8)%Q,
     (row + inject_Z (Z.of_nat (2 * (k / 4) + 1)) / 8)%Q) ].

Definition in_disc (cx cy radius : Q) (p : Q * Q) : bool :=
  let dx := (fst p - cx)%Q in
  let dy := (snd p - cy)%Q in
  Qle_bool (dx * dx + dy * dy) (radius * radius).

(** The point of the segment from [a] to [b] that is nearest to [p] lies
    the fraction [t] of the way, [t] being cut to the interval from 0 to
    1. *)
Definition in_segment (ax ay bx by' half : Q) (p : Q * Q) : bool :=
  let ux := (bx - ax)%Q in
  let uy := (by' - ay)%Q in
  let len2 := (ux * ux + uy * uy)%Q in
  let t :=
    if Qeq_bool len2 0 then 0%Q
    else
      let t := (((fst p - ax) * ux + (snd p - ay) * uy) / len2)%Q in
      if Qle_bool t 0 then 0%Q else if Qle_bool 1 t then 1%Q else t in
  in_disc (ax + t * ux)%Q (ay + t * uy)%Q half p.

Definition sampled_coverage (inside : Q * Q -> bool) (w : N) (i : nat) : N :=
  div_round
    (255 * N.of_nat (length (filter (fun p => inside p = true)
                               (sample_points w i))))
    16.

Definition supersampling : platform :=
  {| line_coverage := fun w _ lineWidth from to i =>
       match x from, y from, x to, y to with
       | Finite ax, Finite ay, Finite bx, Finite by' =>
           sampled_coverage (in_segment ax ay bx by' (lineWidth / 2)%Q) w i
       | _, _, _, _ => 0%N
       end;
     disc_coverage := fun w _ centre radius i =>
       match x centre, y centre with
       | Finite cx, Finite cy => sampled_coverage (in_disc cx cy radius) w i
       | _, _ => 0%N
       end;
     png_base64 := fun _ => "iVBORw0KGgo=" |}.

End Canvas2D.

(** ** The [App] component: state *)

Module App.
Import Canvas2D.

Inductive EditMode : Type := generate | edit.

Record UploadedImage : Type := { dataUrl : string; mimeType : string }.

(** The [useState] cells of the component. *)
Record state : Type :=
  { mode : EditMode;
    prompt : string;
    uploadedImage : option UploadedImage;
    aspectRatio : string;
    generatedImage : option string;
    comparisonImage : option string;
    history : list string;
    isLoading : bool;
    error : option string;
    isDragging : bool;
    brushSize : N }.

(** The component as mounted. *)
Definition initial : state :=
  {| mode := generate; prompt := EmptyString; uploadedImage := None;
     aspectRatio := "1:1"; generatedImage := None;
     comparisonImage := None; history := []; isLoading := false;
     error := None; isDragging := false; brushSize := 20 |}.

Definition setMode (v : EditMode) (st : state) : state :=
  {| mode := v; prompt := prompt st; uploadedImage := uploadedImage st;
     aspectRatio := aspectRatio st; generatedImage := generatedImage st;
     comparisonImage := comparisonImage st; history := history st;
     isLoading := isLoading st; error := error st;
     isDragging := isDragging st; brushSize := brushSize st |}.

Definition setPrompt (v : string) (st : state) : state :=
  {| mode := mode st; prompt := v; uploadedImage := uploadedImage st;
     aspectRatio := aspectRatio st; generatedImage := generatedImage st;
     comparisonImage := comparisonImage st; history := history st;
     isLoading := isLoading st; error := error st;
     isDragging := isDragging st; brushSize := brushSize st |}.

Definition setUploadedImage (v : option UploadedImage) (st : state)
  : state :=
  {| mode := mode st; prompt := prompt st; uploadedImage := v;
     aspectRatio := aspectRatio st; generatedImage := generatedImage st;
     comparisonImage := comparisonImage st; history := history st;
     isLoading := isLoading st; error := error st;
     isDragging := isDragging st; brushSize := brushSize st |}.

Definition setAspectRatio (v : string) (st : state) : state :=
  {| mode := mode st; prompt := prompt st;
     uploadedImage := uploadedImage st;
     aspectRatio := v; generatedImage := generatedImage st;
     comparisonImage := comparisonImage st; history := history st;
     isLoading := isLoading st; error := error st;
     isDragging := isDragging st; brushSize := brushSize st |}.

Definition setGeneratedImage (v : option string) (st : state) : state :=
  {| mode := mode st; prompt := prompt st;
     uploadedImage := uploadedImage st;
     aspectRatio := aspectRatio st; generatedImage := v;
     comparisonImage := comparisonImage st; history := history st;
     isLoading := isLoading st; error := error st;
     isDragging := isDragging st; brushSize := brushSize st |}.

Definition setComparisonImage (v : option string) (st : state) : state :=
  {| mode := mode st; prompt := prompt st;
     uploadedImage := uploadedImage st;
     aspectRatio := aspectRatio st; generatedImage := generatedImage st;
     comparisonImage := v; history := history st;
     isLoading := isLoading st; error := error st;
     isDragging := isDragging st; brushSize := brushSize st |}.

(** [setHistory(update)] with an updater function of the previous value. *)
Definition setHistory (update : list string -> list string) (st : state)
  : state :=
  {| mode := mode st; prompt := prompt st;
     uploadedImage := uploadedImage st;
     aspectRatio := aspectRatio st; generatedImage := generatedImage st;
     comparisonImage := comparisonImage st; history := update (history st);
     isLoading := isLoading st; error := error st;
     isDragging := isDragging st; brushSize := brushSize st |}.

Definition setIsLoading (v : bool) (st : state) : state :=
  {| mode := mode st; prompt := prompt st;
     uploadedImage := uploadedImage st;
     aspectRatio := aspectRatio st; generatedImage := generatedImage st;
     comparisonImage := comparisonImage st; history := history st;
     isLoading := v; error := error st;
     isDragging := isDragging st; brushSize := brushSize st |}.

Definition setError (v : option string) (st : state) : state :=
  {| mode := mode st; prompt := prompt st;
     uploadedImage := uploadedImage st;
     aspectRatio := aspectRatio st; generatedImage := generatedImage st;
     comparisonImage := comparisonImage st; history := history st;
     isLoading := isLoading st; error := v;
     isDragging := isDragging st; brushSize := brushSize st |}.

Definition setIsDragging (v : bool) (st : state) : state :=
  {| mode := mode st; prompt := prompt st;
     uploadedImage := uploadedImage st;
     aspectRatio := aspectRatio st; generatedImage := generatedImage st;
     comparisonImage := comparisonImage st; history := history st;
     isLoading := isLoading st; error := error st;
     isDragging := v; brushSize := brushSize st |}.

Definition setBrushSize (v : N) (st : state) : state :=
  {| mode := mode st; prompt := prompt st;
     uploadedImage := uploadedImage st;
     aspectRatio := aspectRatio st; generatedImage := generatedImage st;
     comparisonImage := comparisonImage st; history := history st;
     isLoading := isLoading st; error := error st;
     isDragging := isDragging st; brushSize := v |}.

(** The [useRef] cells: the two canvases (absent while no image is
    shown), and the stroke in progress. *)
Record refs : Type :=
  { imageCanvas : option canvas;
    drawingCanvas : option canvas;
    isDrawing : bool;
    lastPos : option point }.

(** A decoded image: PNG, JPEG and WebP images have at least one pixel
    in each direction. *)
Record HTMLImageElement : Type :=
  { naturalWidth : positive;
    naturalHeight : positive;
    pixels : list rgba }.

(** [canvas.getBoundingClientRect()]: where the layout shows the canvas. *)
Record DOMRect : Type :=
  { left : Q; top : Q; rect_width : Q; rect_height : Q }.

Record Touch : Type := { touch_clientX : Q; touch_clientY : Q }.

(** A [React.MouseEvent] or a [React.TouchEvent] (which has a first
    touch), with the rectangle of the canvas at that moment. *)
Inductive pointer : Type :=
| MouseEvent (clientX clientY : Q)
| TouchEvent (first : Touch) (others : list Touch).

Record event : Type := { rect : DOMRect; source : pointer }.

(** A [File] of the file input, and what [FileReader.readAsDataURL]
    makes of it ([None]: the reader fails). *)
Record File : Type :=
  { type : string; size : N; readAsDataURL : option string }.

(** *** The mask canvas engine *)

(** The image as a drawing source. *)
Definition image_source (img : HTMLImageElement) : canvas :=
  {| width := Npos (naturalWidth img);
     height := Npos (naturalHeight img);
     bitmap := pixels img |}.

(** [img.onload] of the effect that runs when an image is uploaded: both
    canvases take the natural size of the image and are cleared, and the
    image is drawn on the bottom one.  ([getContext('2d')] gives a
    context on every canvas that is only ever used in 2D.) *)
Definition onload (img : HTMLImageElement) (r : refs) : refs :=
  match imageCanvas r, drawingCanvas r with
  | Some _, Some _ =>
      let w := Npos (naturalWidth img) in
      let h := Npos (naturalHeight img) in
      {| imageCanvas :=
           Some (drawImage (image_source img) (clearRect (blank w h)));
         drawingCanvas := Some (clearRect (blank w h));
         isDrawing := isDrawing r;
         lastPos := lastPos r |}
  | _, _ => r
  end.

(** The two canvases are rendered only while the mode is [edit] and an
    image is uploaded.  When they leave the page the refs become [null];
    when they come back the refs hold new elements, 300 by 150 and
    transparent as every new canvas is.  The effect that sizes them and
    draws the image depends on [uploadedImage] alone: it does not run
    when the canvases come back for the same image.  The stroke state
    lives in refs of its own and stays. *)
Definition initial_refs : refs :=
  {| imageCanvas := None; drawingCanvas := None;
     isDrawing := false; lastPos := None |}.

Definition unmount (r : refs) : refs :=
  {| imageCanvas := None; drawingCanvas := None;
     isDrawing := isDrawing r; lastPos := lastPos r |}.

Definition mount (r : refs) : refs :=
  {| imageCanvas := Some (blank 300 150);
     drawingCanvas := Some (blank 300 150);
     isDrawing := isDrawing r; lastPos := lastPos r |}.

Definition clientX_of (e : pointer) : Q :=
  match e with
  | TouchEvent first _ => touch_clientX first
  | MouseEvent clientX _ => clientX
  end.

Definition clientY_of (e : pointer) : Q :=
  match e with
  | TouchEvent first _ => touch_clientY first
  | MouseEvent _ clientY => clientY
  end.

Definition getCanvasCoords (r : refs) (e : event) : option point :=
  match drawingCanvas r with
  | None => None
  | Some canvas =>
      let rect := rect e in
      let clientX := clientX_of (source e) in
      let clientY := clientY_of (source e) in
      let scaleX :=
        number_div (inject_Z (Z.of_N (width canvas))) (rect_width rect) in
      let scaleY :=
        number_div (inject_Z (Z.of_N (height canvas))) (rect_height rect) in
      Some {| x := number_mul (number_sub clientX (left rect)) scaleX;
              y := number_mul (number_sub clientY (top rect)) scaleY |}
  end.

Definition startDrawing (e : event) (r : refs) : refs :=
  match getCanvasCoords r e with
  | None => r
  | Some coords =>
      {| imageCanvas := imageCanvas r; drawingCanvas := drawingCanvas r;
         isDrawing := true; lastPos := Some coords |}
  end.

Definition draw (plat : platform) (brushSize : N) (e : event) (r : refs)
  : refs :=
  if negb (isDrawing r) then r
  else
    match getCanvasCoords r e, drawingCanvas r, lastPos r with
    | Some coords, Some canvas, Some last =>
        let strokeStyle := black in
        let fillStyle := black in
        let lineWidth := inject_Z (Z.of_N (brushSize * 2)) in
        let canvas := stroke_line plat strokeStyle lineWidth last coords
                        canvas in
        let canvas := fill_arc plat fillStyle coords
                        (inject_Z (Z.of_N brushSize)) canvas in
        {| imageCanvas := imageCanvas r; drawingCanvas := Some canvas;
           isDrawing := isDrawing r; lastPos := Some coords |}
    | _, _, _ => r
    end.

Definition stopDrawing (r : refs) : refs :=
  {| imageCanvas := imageCanvas r; drawingCanvas := drawingCanvas r;
     isDrawing := false; lastPos := None |}.

Definition clearMask (r : refs) : refs :=
  match drawingCanvas r with
  | Some canvas =>
      {| imageCanvas := imageCanvas r;
         drawingCanvas := Some (clearRect canvas);
         isDrawing := isDrawing r; lastPos := lastPos r |}
  | None => r
  end.

(** The temporary canvas of [getMaskAsBase64] once both drawing calls
    are done: white, with the drawing canvas on top. *)
Definition composite (canvas : Canvas2D.canvas) : Canvas2D.canvas :=
  let tempCanvas := blank (width canvas) (height canvas) in
  let tempCanvas := fillRect white tempCanvas in
  drawImage canvas tempCanvas.

(** The result is [null] ([None]) or the second piece of the data URL. *)
Definition getMaskAsBase64 (plat : platform) (r : refs)
  : outcome (option string) :=
  match drawingCanvas r with
  | None => Returned None
  | Some canvas =>
      match getImageData canvas with
      | Threw e => Threw e
      | Returned bytes =>
          let pixelBuffer := Uint32Array bytes in
          let isCanvasEmpty :=
            negb (some (fun color => negb (color =? 0)%N) pixelBuffer) in
          if isCanvasEmpty then Returned None
          else
            let tempCanvas := composite canvas in
            Returned (split "," (toDataURL plat tempCanvas) !! 1%nat)
      end
  end.

(** *** The handlers *)

Import GeminiService.

Definition clearState (st : state) : state :=
  setComparisonImage None (setGeneratedImage None (setError None st)).

(** [handleApiResponse] reads [mode] and [uploadedImage] from the render
    in which the calling handler was created: they are arguments. *)
Definition handleApiResponse (mode : EditMode)
    (uploadedImage : option UploadedImage) (imageBase64 : string)
    (st : state) : state :=
  let imageUrl := "data:image/jpeg;base64," ++ imageBase64 in
  let st := setGeneratedImage (Some imageUrl) st in
  let st :=
    match mode, uploadedImage with
    | edit, Some uploaded => setComparisonImage (Some (dataUrl uploaded)) st
    | _, _ => st
    end in
  setHistory (fun prev => take 6 (imageUrl :: prev)) st.

Definition handleApiError (err : thrown) (st : state) : state :=
  let errorMessage :=
    match err with
    | Error message => message
    | NotAnError => "An unknown error occurred."
    end in
  setError (Some ("Failed to generate image: " ++ errorMessage)) st.

(** A handler that awaits the network returns the state it leaves the
    component in. *)
Definition handleGenerate (net : network) (seen_mode : EditMode)
    (seen_upload : option UploadedImage) (st : state) : Net state :=
  if negb (truthy_string (trim (prompt st))) then
    ret (setError (Some "Please enter a prompt.") st)
  else
    let st := clearState (setIsLoading true st) in
    let* st :=
      try_catch
        (let* imageBase64 :=
           generateImage net (prompt st) (aspectRatio st) in
         ret (handleApiResponse seen_mode seen_upload imageBase64 st))
        (fun err => ret (handleApiError err st)) in
    ret (setIsLoading false st).

(** A step that may throw without touching the network. *)
Definition lift {A} (o : outcome A) : Net A := fun log => (o, log).

Definition handleEdit (net : network) (plat : platform)
    (seen_mode : EditMode) (r : refs) (st : state) : Net state :=
  if negb (truthy_string (trim (prompt st))) then
    ret (setError (Some "Please enter an edit instruction.") st)
  else
    match uploadedImage st with
    | None => ret (setError (Some "Please upload an image to edit.") st)
    | Some uploaded =>
        let st := clearState (setIsLoading true st) in
        let* st :=
          try_catch
            (let base64Data := split "," (dataUrl uploaded) !! 1%nat in
             let* maskBase64Data := lift (getMaskAsBase64 plat r) in
             let* imageBase64 :=
               editImage net (prompt st) base64Data
                 (mimeType uploaded) maskBase64Data in
             ret (handleApiResponse seen_mode (Some uploaded)
                    imageBase64 st))
            (fun err => ret (handleApiError err st)) in
        ret (setIsLoading false st)
    end.

Definition allowedTypes : list string :=
  ["image/png"; "image/jpeg"; "image/webp"].

Definition maxSizeInBytes : N := 8 * 1024 * 1024.

(** [processFile]; the reader's [onload] and [onerror] are folded in. *)
Definition processFile (file : File) (st : state) : state :=
  if negb (existsb (String.eqb (type file)) allowedTypes) then
    setError
      (Some "Invalid file type. Please upload a PNG, JPG, or WEBP image.")
      st
  else if (maxSizeInBytes <? size file)%N then
    setError (Some "File is too large. Maximum size is 8MB.") st
  else
    let st := setError None st in
    match readAsDataURL file with
    | Some dataUrl =>
        setUploadedImage
          (Some {| dataUrl := dataUrl; mimeType := type file |}) st
    | None => setError (Some "Failed to read the file.") st
    end.

(** The [Remove] button. *)
Definition removeImage (st : state) : state := setUploadedImage None st.

(** A click on an entry of the history. *)
Definition selectHistory (imgSrc : string) (st : state) : state :=
  setComparisonImage None (setGeneratedImage (Some imgSrc) st).

(** The pattern [data:(image\/\w+);base64,] tried at the head of [s];
    the result is the group.  The run of [\w] is taken greedily, and a
    shorter run cannot succeed where the longest fails, its next
    character being a word character and not [;]. *)
Definition match_at_head (s : string) : option string :=
  if String.prefix "data:image/" s then
    let '(word, rest) := spanWord (drop_string 11 s) in
    if truthy_string word && String.prefix ";base64," rest
    then Some ("image/" ++ word)
    else None
  else None.

(** [s.match(/data:(image\/\w+);base64,/)]: the group of the leftmost
    match. *)
Fixpoint match_mimeType (s : string) : option string :=
  match match_at_head s with
  | Some group => Some group
  | None =>
      match s with
      | EmptyString => None
      | String _ s' => match_mimeType s'
      end
  end.

Definition handleReEdit (st : state) : state :=
  if negb (truthy (generatedImage st)) then st
  else
    match generatedImage st with
    | None => st
    | Some generatedImage =>
        let mimeTypeMatch := match_mimeType generatedImage in
        let mimeType :=
          match mimeTypeMatch with
          | Some group => group
          | None => "image/jpeg"
          end in
        setError None
          (setComparisonImage None
             (setGeneratedImage None
                (setPrompt EmptyString
                   (setUploadedImage
                      (Some {| dataUrl := generatedImage;
                               mimeType := mimeType |})
                      (setMode edit st)))))
    end.

(** *** What the component can reach *)

(** The states of the component: the initial one and whatever an event
    handler makes of a state already reached. *)
Inductive reachable (net : network) (plat : platform) : state -> Prop :=
| reach_initial : reachable net plat initial
| reach_setMode v st :
    reachable net plat st -> reachable net plat (setMode v st)
| reach_setPrompt v st :
    reachable net plat st -> reachable net plat (setPrompt v st)
| reach_setAspectRatio v st :
    reachable net plat st -> reachable net plat (setAspectRatio v st)
| reach_setBrushSize v st :
    reachable net plat st -> reachable net plat (setBrushSize v st)
| reach_setIsDragging v st :
    reachable net plat st -> reachable net plat (setIsDragging v st)
| reach_processFile file st :
    reachable net plat st -> reachable net plat (processFile file st)
| reach_removeImage st :
    reachable net plat st -> reachable net plat (removeImage st)
| reach_selectHistory imgSrc st :
    reachable net plat st -> imgSrc ∈ history st ->
    reachable net plat (selectHistory imgSrc st)
| reach_handleReEdit st :
    reachable net plat st -> reachable net plat (handleReEdit st)
| reach_handleGenerate seen_mode seen_upload st log st' log' :
    reachable net plat st ->
    handleGenerate net seen_mode seen_upload st log = (Returned st', log') ->
    reachable net plat st'
| reach_handleEdit seen_mode r st log st' log' :
    reachable net plat st ->
    handleEdit net plat seen_mode r st log = (Returned st', log') ->
    reachable net plat st'.

(** The mask layers of an image: what the refs hold before there are
    canvases, the canvases once [img] has loaded on them, and whatever
    strokes, clears and changes of mode (which take the canvases off the
    page and bring new ones back) make of them. *)
Inductive mask_layer (plat : platform) (img : HTMLImageElement)
  : refs -> Prop :=
| layer_initial : mask_layer plat img initial_refs
| layer_onload r below above :
    imageCanvas r = Some below -> drawingCanvas r = Some above ->
    mask_layer plat img (onload img r)
| layer_startDrawing e r :
    mask_layer plat img r -> mask_layer plat img (startDrawing e r)
| layer_draw brushSize e r :
    mask_layer plat img r -> mask_layer plat img (draw plat brushSize e r)
| layer_stopDrawing r :
    mask_layer plat img r -> mask_layer plat img (stopDrawing r)
| layer_clearMask r :
    mask_layer plat img r -> mask_layer plat img (clearMask r)
| layer_unmount r :
    mask_layer plat img r -> mask_layer plat img (unmount r)
| layer_mount r :
    mask_layer plat img r -> drawingCanvas r = None ->
    mask_layer plat img (mount r).

(** The mask layers on which [img] has loaded and which have stayed on
    the page since. *)
Inductive loaded_layer (plat : platform) (img : HTMLImageElement)
  : refs -> Prop :=
| loaded_onload r below above :
    imageCanvas r = Some below -> drawingCanvas r = Some above ->
    loaded_layer plat img (onload img r)
| loaded_startDrawing e r :
    loaded_layer plat img r -> loaded_layer plat img (startDrawing e r)
| loaded_draw brushSize e r :
    loaded_layer plat img r -> loaded_layer plat img (draw plat brushSize e r)
| loaded_stopDrawing r :
    loaded_layer plat img r -> loaded_layer plat img (stopDrawing r)
| loaded_clearMask r :
    loaded_layer plat img r -> loaded_layer plat img (clearMask r).

(** The words that [getMaskAsBase64] inspects, one per pixel. *)
Definition pixel_words (c : canvas) : list N :=
  Uint32Array (p ← bitmap c; [red p; green p; blue p; alpha p]).

(** The place of a pointer on the displayed canvas: its offsets from the
    left and the top edge, and these as fractions of the displayed width
    and height, all in exact arithmetic. *)
Definition offset_x (e : event) : Q :=
  (clientX_of (source e) - left (rect e))%Q.

Definition offset_y (e : event) : Q :=
  (clientY_of (source e) - top (rect e))%Q.

Definition fraction_x (e : event) : Q :=
  (offset_x e / rect_width (rect e))%Q.

Definition fraction_y (e : event) : Q :=
  (offset_y e / rect_height (rect e))%Q.

(** A magnitude far from the limits of binary64: zero, or between 2^-64
    and 2^64. *)
Definition moderate (q : Q) : Prop :=
  (q == 0 \/ pow2 (-64) <= Qabs q <= pow2 64)%Q.

(** A pointer event over a displayed canvas of positive size, all of
    moderate magnitude. *)
Definition ordinary (e : event) : Prop :=
  (pow2 (-64) <= rect_width (rect e) <= pow2 64)%Q
  /\ (pow2 (-64) <= rect_height (rect e) <= pow2 64)%Q
  /\ moderate (offset_x e)
  /\ moderate (offset_y e).

(** [a] is [t] up to the rounding of three operations: within the
    relative error 2^-51. *)
Definition near (a t : Q) : Prop :=
  (Qabs (a - t) <= pow2 (-51) * Qabs t)%Q.

(** A pixel that only ever received the stroke colour, black: no colour,
    and whatever opacity the strokes left on it. *)
Definition ink (p : rgba) : Prop :=
  red p = 0%N /\ green p = 0%N /\ blue p = 0%N /\ (alpha p <= 255)%N.

(** A drawing canvas: not empty, with one pixel per place and nothing
    but ink on it. *)
Definition raster (c : canvas) : Prop :=
  width c <> 0%N
  /\ height c <> 0%N
  /\ length (bitmap c) = N.to_nat (width c * height c)
  /\ Forall ink (bitmap c).

(** The drawing canvas of an image: of its natural size, with one pixel
    per place and nothing but ink on it. *)
Definition layer_of (img : HTMLImageElement) (c : canvas) : Prop :=
  width c = Npos (naturalWidth img)
  /\ height c = Npos (naturalHeight img)
  /\ length (bitmap c) = N.to_nat (width c * height c)
  /\ Forall ink (bitmap c).

(** The opaque grey between white (no opacity) and black (full opacity). *)
Definition shade (opacity : N) : rgba :=
  {| red := 255 - opacity; green := 255 - opacity; blue := 255 - opacity;
     alpha := 255 |}.

(** A data URL that announces a JPEG. *)
Definition jpeg_data_url (s : string) : Prop :=
  String.prefix "data:image/jpeg;base64," s = true.

(** What the component shows or keeps as results announces a JPEG. *)
Definition results_are_jpeg (st : state) : Prop :=
  (forall g, generatedImage st = Some g -> jpeg_data_url g)
  /\ Forall jpeg_data_url (history st).

(** The state after a run of answers of the backend, the earliest first;
    each comes with the [mode] and [uploadedImage] its handler had seen. *)
Definition after_answers
    (answers : list (EditMode * option UploadedImage * string))
    (st : state) : state :=
  foldl (fun st '(seen_mode, seen_upload, imageBase64) =>
           handleApiResponse seen_mode seen_upload imageBase64 st)
        st answers.

(** *** The rest of the component *)

(** [!uploadedImage]. *)
Definition no_upload (st : state) : bool :=
  match uploadedImage st with
  | Some _ => false
  | None => true
  end.

Definition isGenerateDisabled (st : state) : bool :=
  isLoading st || negb (truthy_string (trim (prompt st))).

Definition isEditDisabled (st : state) : bool :=
  isLoading st || negb (truthy_string (trim (prompt st))) || no_upload st.

(** A click on the submit button: a disabled button does not react, an
    enabled one runs the handler of the current mode. *)
Definition clickSubmit (net : network) (plat : platform)
    (seen_mode : EditMode) (seen_upload : option UploadedImage)
    (r : refs) (st : state) : Net state :=
  match mode st with
  | generate =>
      if isGenerateDisabled st then ret st
      else handleGenerate net seen_mode seen_upload st
  | edit =>
      if isEditDisabled st then ret st
      else handleEdit net plat seen_mode r st
  end.

(** [handleFileChange]: [files] is [e.target.files]. *)
Definition handleFileChange (files : option (list File)) (st : state)
  : state :=
  match files ≫= head with
  | Some file => processFile file st
  | None => st
  end.

(** [handleDrop]: [files] is [e.dataTransfer.files]. *)
Definition handleDrop (files : option (list File)) (st : state) : state :=
  let st := setIsDragging false st in
  match files ≫= head with
  | Some file => processFile file st
  | None => st
  end.

Definition handleDragEvents (isEntering : bool) (st : state) : state :=
  setIsDragging isEntering st.

(** The link that [handleDownload] makes and clicks. *)
Record anchor : Type := { href : string; download : string }.

Definition handleDownload (st : state) : option anchor :=
  if negb (truthy (generatedImage st)) then None
  else
    match generatedImage st with
    | None => None
    | Some generatedImage =>
        let sanitizedPrompt :=
          toLowerCase (replaceNonAlphaNumeric (take_string 30 (prompt st))) in
        Some {| href := generatedImage;
                download :=
                  "ai-image-"
                  ++ or_else (Some sanitizedPrompt) "edited" ++ ".jpg" |}
    end.

(** An image without transparency (every JPEG is one), with one pixel per
    place. *)
Definition opaque_image (img : HTMLImageElement) : Prop :=
  length (pixels img)
  = N.to_nat (Npos (naturalWidth img) * Npos (naturalHeight img))
  /\ Forall (fun p => alpha p = 255%N) (pixels img).

(** A run of pointer moves over the drawing canvas, each with the brush
    size of its render. *)
Definition moves (plat : platform) (events : list (N * event)) (r : refs)
  : refs :=
  foldl (fun r '(brushSize, e) => draw plat brushSize e r) r events.

(** What the pointer does over the drawing canvas: [onMouseDown] and
    [onTouchStart], [onMouseMove] and [onTouchMove] (with the brush size
    of the render), [onMouseUp], [onMouseLeave] and [onTouchEnd]. *)
Inductive gesture : Type :=
| PointerDown (e : event)
| PointerMove (brushSize : N) (e : event)
| PointerUp.

Definition gesture_step (plat : platform) (r : refs) (g : gesture) : refs :=
  match g with
  | PointerDown e => startDrawing e r
  | PointerMove brushSize e => draw plat brushSize e r
  | PointerUp => stopDrawing r
  end.

Definition gestures (plat : platform) (gs : list gesture) (r : refs)
  : refs :=
  foldl (gesture_step plat) r gs.

(** The opacity of the pixel [i] of the drawing canvas, if there is such
    a pixel. *)
Definition opacity_at (r : refs) (i : nat) : option N :=
  c ← drawingCanvas r; alpha <$> bitmap c !! i.

End App.

(** ** The [ImageComparator] component *)

Module ImageComparator.
Import App.

(** [a < b] on numbers. *)
Definition Qlt_bool (a b : Q) : bool := negb (Qle_bool b a).

(** [handleMove]: the new slider position, in percent; [container] is the
    rectangle of [containerRef.current], if the reference is set. *)
Definition handleMove (container : option DOMRect) (clientX : Q)
    (sliderPosition : Q) : Q :=
  match container with
  | None => sliderPosition
  | Some rect =>
      let x := (clientX - left rect)%Q in
      let percentage := ((x / rect_width rect) * 100)%Q in
      let percentage :=
        if Qlt_bool percentage 0 then 0%Q else percentage in
      let percentage :=
        if Qlt_bool 100 percentage then 100%Q else percentage in
      percentage
  end.

(** [handleMouseMove] and [handleTouchMove]. *)
Definition handlePointerMove (container : option DOMRect) (e : pointer)
    (sliderPosition : Q) : Q :=
  handleMove container (clientX_of e) sliderPosition.


End ImageComparator.

(** * Properties *)

(** ** Strings *)

Section StringFacts.

Lemma truthy_string_iff (s : string) :
  truthy_string s = true <-> s <> EmptyString.
Proof.
  unfold truthy_string. rewrite negb_true_iff.
  split.
  - intros H ->. discriminate H.
  - intros H. apply String.eqb_neq. exact H.
Qed.

Lemma truthy_Some (v : option string) :
  truthy v = true -> exists s, v = Some s /\ s <> EmptyString.
Proof.
  destruct v as [s|]; simpl; [|discriminate].
  intros H. exists s. split; [reflexivity|].
  apply truthy_string_iff, H.
Qed.

Lemma truthy_Some_intro (s : string) :
  s <> EmptyString -> truthy (Some s) = true.
Proof. intros H. apply truthy_string_iff, H. Qed.

Lemma prefix_nil (s : string) : String.prefix EmptyString s = true.
Proof. destruct s; reflexivity. Qed.

Lemma prefix_refl_app (p s : string) : String.prefix p (p ++ s) = true.
Proof.
  induction p as [|c p IH]; simpl; [apply prefix_nil|].
  destruct (ascii_dec c c) as [_|ne]; [exact IH | now destruct ne].
Qed.

Lemma prefix_self (p : string) : String.prefix p p = true.
Proof.
  induction p as [|c p IH]; simpl; [reflexivity|].
  destruct (ascii_dec c c) as [_|ne]; [exact IH | now destruct ne].
Qed.

Lemma includes_here (needle s : string) :
  includes (needle ++ s) needle = true.
Proof.
  destruct needle as [|c needle]; simpl.
  - destruct s; reflexivity.
  - destruct (ascii_dec c c) as [_|ne]; [|now destruct ne].
    rewrite prefix_refl_app. reflexivity.
Qed.

Lemma includes_self (s : string) : includes s s = true.
Proof.
  destruct s as [|c s]; [reflexivity|].
  unfold includes; fold includes. rewrite prefix_self. reflexivity.
Qed.

(** A string includes each of the pieces it was put together from. *)
Lemma includes_middle (before needle after : string) :
  includes (before ++ needle ++ after) needle = true.
Proof.
  induction before as [|c before IH].
  - simpl. apply includes_here.
  - simpl. rewrite IH. apply orb_true_r.
Qed.

Lemma split_no_separator (sep : ascii) (s : string) :
  (forall c, In c (list_ascii_of_string s) -> c <> sep) ->
  split sep s = [s].
Proof.
  induction s as [|c s IH]; intros H; simpl; [reflexivity|].
  destruct (Ascii.eqb_spec c sep) as [->|_].
  - exfalso. apply (H sep); [left; reflexivity | reflexivity].
  - rewrite IH; [reflexivity|].
    intros c' Hc'. apply H. right. exact Hc'.
Qed.

Lemma isBase64_no_comma (s : string) :
  isBase64 s = true ->
  forall c, In c (list_ascii_of_string s) -> c <> ","%char.
Proof.
  induction s as [|a s IH]; simpl; intros H c Hc; [contradiction|].
  apply andb_true_iff in H as [Ha Hs].
  destruct Hc as [<-|Hc]; [|exact (IH Hs c Hc)].
  intros ->. discriminate Ha.
Qed.

(** The second piece of a data URL is what follows the first comma, up
    to the next one. *)
Lemma split_after_comma (before after : string) :
  (forall c, In c (list_ascii_of_string before) -> c <> ","%char) ->
  split "," (before ++ String ","%char after) !! 1%nat
  = head (split "," after).
Proof.
  induction before as [|c before IH]; intros H; simpl.
  - symmetry. apply head_lookup.
  - destruct (Ascii.eqb_spec c ","%char) as [->|_].
    + exfalso. apply (H ","%char); [left; reflexivity | reflexivity].
    + specialize (IH (fun c' Hc' => H c' (or_intror Hc'))).
      destruct (split "," (before ++ String ","%char after))
        as [|piece rest]; exact IH.
Qed.

Lemma trimStart_allWhiteSpace (s : string) :
  allWhiteSpace s = true -> trimStart s = EmptyString.
Proof.
  induction s as [|c s IH]; simpl; [reflexivity|].
  intros H. apply andb_true_iff in H as [Hc Hs].
  rewrite Hc. exact (IH Hs).
Qed.

Lemma trimEnd_empty (s : string) :
  trimEnd s = EmptyString -> allWhiteSpace s = true.
Proof.
  induction s as [|c s IH]; simpl; [reflexivity|].
  destruct (trimEnd s) eqn:E; [|discriminate].
  destruct (isWhiteSpace c); [|discriminate].
  intros _. simpl. apply IH. reflexivity.
Qed.

Lemma trimStart_head (s : string) :
  match trimStart s with
  | EmptyString => allWhiteSpace s = true
  | String c _ => isWhiteSpace c = false
  end.
Proof.
  induction s as [|c s IH]; simpl; [reflexivity|].
  destruct (isWhiteSpace c) eqn:E; simpl; [|exact E].
  destruct (trimStart s); [exact IH | exact IH].
Qed.

(** [trim] leaves nothing exactly of the strings made of white space. *)
Lemma trim_empty_iff (s : string) :
  trim s = EmptyString <-> allWhiteSpace s = true.
Proof.
  unfold trim. split.
  - intros H. apply trimEnd_empty in H.
    pose proof (trimStart_head s) as Hs.
    destruct (trimStart s) as [|c t]; [exact Hs|].
    simpl in H. rewrite Hs in H. discriminate H.
  - intros H. rewrite (trimStart_allWhiteSpace s H). reflexivity.
Qed.

(** A prompt is blank, in the eyes of the handlers, when it is white
    space only. *)
Lemma not_blank_truthy (s : string) :
  allWhiteSpace s = false -> truthy_string (trim s) = true.
Proof.
  intros H. apply truthy_string_iff. intros Hempty.
  apply trim_empty_iff in Hempty. congruence.
Qed.

Lemma blank_not_truthy (s : string) :
  allWhiteSpace s = true -> truthy_string (trim s) = false.
Proof. intros H. apply trim_empty_iff in H. rewrite H. reflexivity. Qed.

End StringFacts.

(** ** The backend: building the payload of an edit *)

Section EditPayload.
Import Gemini.

Lemma includes_skip (before s needle : string) :
  includes s needle = true -> includes (before ++ s) needle = true.
Proof.
  intros H. induction before as [|c before IH]; simpl; [exact H|].
  rewrite IH. apply orb_true_r.
Qed.

(** The synthesised instruction quotes the prompt as it came. *)
Lemma mask_instruction_includes_prompt (prompt : string) :
  includes (Server.mask_instruction (Some prompt)) prompt = true.
Proof.
  unfold Server.mask_instruction. simpl Server.toString.
  apply includes_skip, includes_skip, includes_here.
Qed.

(** A request that passes the validation of the edit route reaches the
    model once, with the parts [Server.edit_parts] builds. *)
Lemma edit_calls (ai : client) (body : gmap string string) :
  Server.calls (Server.edit ai body)
  = if truthy (body !! "prompt") && truthy (body !! "imageBase64Data")
       && truthy (body !! "mimeType")
    then [ {| model := "gemini-2.5-flash-image";
              contents :=
                Server.edit_parts (body !! "prompt")
                  (body !! "imageBase64Data") (body !! "mimeType")
                  (body !! "maskBase64Data");
              systemInstruction := Server.edit_systemInstruction;
              responseModalities := [IMAGE; TEXT] |} ]
    else [].
Proof.
  unfold Server.edit.
  destruct (truthy (body !! "prompt")),
           (truthy (body !! "imageBase64Data")),
           (truthy (body !! "mimeType")); reflexivity.
Qed.

End EditPayload.

(** C1.  An edit request whose body carries a non-empty [maskBase64Data]
    reaches the external model only with exactly three parts, in this
    order: the image with the MIME type of the request, the mask tagged
    ['image/png'] whatever that MIME type is, and one instruction that
    quotes the prompt verbatim and confines the edit to the BLACK areas,
    the white areas staying unchanged.  A request with the three required
    fields does reach the model, once. *)
Theorem edit_with_mask_sends_three_parts
    (ai : Gemini.client) (body : gmap string string) (mask : string) :
  body !! "maskBase64Data" = Some mask ->
  mask <> EmptyString ->
  (forall params, params ∈ Server.calls (Server.edit ai body) ->
     exists prompt image mime instruction,
       body !! "prompt" = Some prompt
       /\ body !! "imageBase64Data" = Some image
       /\ body !! "mimeType" = Some mime
       /\ Gemini.contents params
          = [ {| Gemini.inlineData :=
                   Some {| Gemini.data := Some image;
                           Gemini.mimeType := Some mime |};
                 Gemini.text := None |};
              {| Gemini.inlineData :=
                   Some {| Gemini.data := Some mask;
                           Gemini.mimeType := Some "image/png" |};
                 Gemini.text := None |};
              {| Gemini.inlineData := None;
                 Gemini.text := Some instruction |} ]
       /\ instruction
          = "Using the provided black and white mask image, apply the following edit only to the BLACK areas of the original image, leaving the white areas unchanged: "
            ++ dquote ++ prompt ++ dquote
       /\ includes instruction prompt = true)
  /\ (truthy (body !! "prompt") = true ->
      truthy (body !! "imageBase64Data") = true ->
      truthy (body !! "mimeType") = true ->
      exists params, Server.calls (Server.edit ai body) = [params]).
Proof.
  intros Hmask Hne. rewrite edit_calls. split.
  - intros params Hin.
    destruct (truthy (body !! "prompt")) eqn:Hp; simpl in Hin;
      [|now apply elem_of_nil in Hin].
    destruct (truthy (body !! "imageBase64Data")) eqn:Hi; simpl in Hin;
      [|now apply elem_of_nil in Hin].
    destruct (truthy (body !! "mimeType")) eqn:Hm; simpl in Hin;
      [|now apply elem_of_nil in Hin].
    apply list_elem_of_singleton in Hin. subst params.
    apply truthy_Some in Hp as (prompt & Hp & _).
    apply truthy_Some in Hi as (image & Hi & _).
    apply truthy_Some in Hm as (mime & Hm & _).
    exists prompt, image, mime, (Server.mask_instruction (Some prompt)).
    rewrite Hp, Hi, Hm, Hmask. repeat split.
    + unfold Server.edit_parts.
      rewrite (truthy_Some_intro mask Hne). reflexivity.
    + apply mask_instruction_includes_prompt.
  - intros -> -> ->. simpl. eexists. reflexivity.
Qed.

Lemma edit_with_mask_sends_three_parts_witness :
  let body : gmap string string :=
    {[ "prompt" := "make the sky red"; "imageBase64Data" := "AAAA";
       "mimeType" := "image/webp"; "maskBase64Data" := "BBBB" ]} in
  let ai : Gemini.client :=
    {| Gemini.generateContent := fun _ => Threw NotAnError;
       Gemini.generateImages := fun _ => Threw NotAnError |} in
  exists params,
    Server.calls (Server.edit ai body) = [params]
    /\ length (Gemini.contents params) = 3%nat.
Proof.
  intros body ai.
  destruct (edit_with_mask_sends_three_parts ai body "BBBB")
    as [Hparts [params Hcalls]];
    [reflexivity | discriminate | reflexivity | reflexivity | reflexivity |].
  exists params. split; [exact Hcalls|].
  destruct (Hparts params) as (p & i & m & t & _ & _ & _ & -> & _).
  - rewrite Hcalls. apply list_elem_of_singleton. reflexivity.
  - reflexivity.
Defined.

(** ** The backend: reading the answer of the model *)

Section EditAnswer.
Import Gemini.

(** The words that [handleApiErrorResponse] looks for do not occur in
    the prefix that the edit route puts before the reply of the model,
    nor across its end. *)
Lemma failed_prefix_includes_key (t : string) :
  includes ("Image generation failed: " ++ t) "API key not valid"
  = includes t "API key not valid".
Proof. simpl. reflexivity. Qed.

Lemma failed_prefix_includes_429 (t : string) :
  includes ("Image generation failed: " ++ t) "429" = includes t "429".
Proof. simpl. reflexivity. Qed.

Lemma failed_prefix_startsWith (t : string) :
  startsWith ("Image generation failed: " ++ t) "Image generation failed:"
  = true.
Proof. unfold startsWith. simpl. reflexivity. Qed.

(** How the error handler classifies the refusal of the model. *)
Lemma handleApiErrorResponse_failed (t : string) :
  includes t "API key not valid" = false ->
  includes t "429" = false ->
  Server.handleApiErrorResponse (Error ("Image generation failed: " ++ t))
  = Server.error_response 400 ("Image generation failed: " ++ t).
Proof.
  intros Hkey H429. unfold Server.handleApiErrorResponse.
  rewrite failed_prefix_includes_key, Hkey.
  rewrite failed_prefix_includes_429, H429.
  rewrite failed_prefix_startsWith. reflexivity.
Qed.

(** When [find] gives a part, that part has inline data. *)
Lemma find_imagePart_Some (response : GenerateContentResponse)
    (part : Part) :
  Server.find_imagePart response = Some part ->
  truthy (inlineData part ≫= data) = true.
Proof.
  unfold Server.find_imagePart.
  destruct (candidates response) as [cs|]; simpl; [|discriminate].
  destruct (head cs) as [first|]; simpl; [|discriminate].
  destruct (content first) as [c|]; simpl; [|discriminate].
  destruct (parts c) as [ps|]; simpl; [|discriminate].
  intros H. apply List.find_some in H as [_ H]. exact H.
Qed.

Lemma edit_interpret_no_image (response : GenerateContentResponse) :
  Server.find_imagePart response = None ->
  Server.edit_interpret response
  = if truthy (response_text response)
    then Threw (Error ("Image generation failed: "
                       ++ Server.toString (response_text response)))
    else Threw (Error "No image data was received from the API.").
Proof. intros H. unfold Server.edit_interpret. rewrite H. reflexivity. Qed.

(** The reply of the edit route once the model has answered. *)
Lemma edit_reply (ai : client) (body : gmap string string)
    (params : GenerateContentParameters)
    (response : GenerateContentResponse) :
  Server.calls (Server.edit ai body) = [params] ->
  generateContent ai params = Returned response ->
  Server.reply (Server.edit ai body)
  = match Server.edit_interpret response with
    | Returned r => r
    | Threw error => Server.handleApiErrorResponse error
    end.
Proof.
  unfold Server.edit.
  destruct (negb (truthy (body !! "prompt"))
            || negb (truthy (body !! "imageBase64Data"))
            || negb (truthy (body !! "mimeType"))); simpl.
  - discriminate.
  - intros [= <-] ->. reflexivity.
Qed.

End EditAnswer.

(** C2, amended.  When the model answers an edit with no inline image
    data but with a textual reply (one that the error handler does not
    take for an API-key or a rate-limit error: it contains neither
    ["API key not valid"] nor ["429"]), the backend responds with status
    400 and the message ["Image generation failed: "] followed by that
    reply.  When the answer has neither image nor text, the backend
    responds with status 500 and the generic message of the error handler;
    the words about missing image data stay in the error that was thrown
    and do not reach the response. *)
Theorem edit_reply_without_image
    (ai : Gemini.client) (body : gmap string string)
    (params : Gemini.GenerateContentParameters)
    (response : Gemini.GenerateContentResponse) :
  Server.calls (Server.edit ai body) = [params] ->
  Gemini.generateContent ai params = Returned response ->
  Server.find_imagePart response = None ->
  (forall reply_text,
      Gemini.response_text response = Some reply_text ->
      reply_text <> EmptyString ->
      includes reply_text "API key not valid" = false ->
      includes reply_text "429" = false ->
      Server.reply (Server.edit ai body)
      = {| Http.status := 400;
           Http.json :=
             {[ "error" := "Image generation failed: " ++ reply_text ]} |}
      /\ includes ("Image generation failed: " ++ reply_text) reply_text
         = true)
  /\ (truthy (Gemini.response_text response) = false ->
      Server.reply (Server.edit ai body)
      = {| Http.status := 500;
           Http.json :=
             {[ "error" :=
                  "Failed to process request due to an API error." ]} |}).
Proof.
  intros Hcalls Hanswer Hnone.
  rewrite (edit_reply ai body params response Hcalls Hanswer).
  rewrite (edit_interpret_no_image response Hnone).
  split.
  - intros reply_text Htext Hne Hkey H429.
    rewrite Htext. rewrite (truthy_Some_intro reply_text Hne).
    simpl Server.toString.
    rewrite (handleApiErrorResponse_failed reply_text Hkey H429).
    split; [reflexivity|].
    apply includes_skip, includes_self.
  - intros ->. reflexivity.
Qed.

Lemma edit_reply_without_image_witness :
  let body : gmap string string :=
    {[ "prompt" := "remove the car"; "imageBase64Data" := "AAAA";
       "mimeType" := "image/png" ]} in
  let refusal : Gemini.GenerateContentResponse :=
    {| Gemini.candidates := None;
       Gemini.response_text := Some "I cannot edit this image." |} in
  let ai : Gemini.client :=
    {| Gemini.generateContent := fun _ => Returned refusal;
       Gemini.generateImages := fun _ => Threw NotAnError |} in
  Http.status (Server.reply (Server.edit ai body)) = 400%N.
Proof.
  intros body refusal ai.
  destruct (edit_reply_without_image ai body
              (hd {| Gemini.model := EmptyString; Gemini.contents := [];
                     Gemini.systemInstruction := EmptyString;
                     Gemini.responseModalities := [] |}
                  (Server.calls (Server.edit ai body)))
              refusal) as [Htext _];
    [reflexivity | reflexivity | reflexivity |].
  destruct (Htext "I cannot edit this image.") as [-> _];
    [reflexivity | discriminate | reflexivity | reflexivity |].
  reflexivity.
Defined.

(** C2 as first stated fails on an answer with neither image nor text:
    the response is 500, but its message is the generic one and does not
    speak of image data. *)
Lemma edit_reply_without_image_counterexample :
  let body : gmap string string :=
    {[ "prompt" := "remove the car"; "imageBase64Data" := "AAAA";
       "mimeType" := "image/png" ]} in
  let empty_answer : Gemini.GenerateContentResponse :=
    {| Gemini.candidates := None; Gemini.response_text := None |} in
  let ai : Gemini.client :=
    {| Gemini.generateContent := fun _ => Returned empty_answer;
       Gemini.generateImages := fun _ => Threw NotAnError |} in
  let reply := Server.reply (Server.edit ai body) in
  Server.find_imagePart empty_answer = None
  /\ Http.status reply = 500%N
  /\ Http.json reply !! "error"
     = Some "Failed to process request due to an API error."
  /\ includes "Failed to process request due to an API error." "image data"
     = false.
Proof. vm_compute. repeat split; reflexivity. Qed.

(** A reply of the model that happens to carry the figures 429 is
    answered as a rate limit: the handler looks for these figures before
    it looks at the prefix. *)
Lemma edit_reply_with_rate_limit_figures :
  let body : gmap string string :=
    {[ "prompt" := "add 429 balloons"; "imageBase64Data" := "AAAA";
       "mimeType" := "image/png" ]} in
  let refusal : Gemini.GenerateContentResponse :=
    {| Gemini.candidates := None;
       Gemini.response_text := Some "I cannot draw 429 balloons." |} in
  let ai : Gemini.client :=
    {| Gemini.generateContent := fun _ => Returned refusal;
       Gemini.generateImages := fun _ => Threw NotAnError |} in
  Server.reply (Server.edit ai body)
  = Server.error_response 429
      "API rate limit exceeded. Please try again later.".
Proof. vm_compute. reflexivity. Qed.

(** ** The transport layer *)

Section Transport.
Import GeminiService.

Lemma lookup_property (key : string) (value : option string) (k : string) :
  Http.property key value !! k = if decide (key = k) then value else None.
Proof.
  destruct value as [v|]; simpl.
  - apply lookup_singleton.
  - rewrite lookup_empty. case_decide; reflexivity.
Qed.

Ltac lookup_body :=
  unfold editImage_body;
  rewrite ?lookup_union, ?lookup_property;
  repeat (case_decide; try done);
  repeat match goal with v : option string |- _ => destruct v end;
  reflexivity.

Lemma editImage_body_prompt p i m k :
  editImage_body p i m k !! "prompt" = Some p.
Proof. lookup_body. Qed.

Lemma editImage_body_image p i m k :
  editImage_body p i m k !! "imageBase64Data" = i.
Proof. lookup_body. Qed.

Lemma editImage_body_mimeType p i m k :
  editImage_body p i m k !! "mimeType" = Some m.
Proof. lookup_body. Qed.

Lemma editImage_body_mask p i m k :
  editImage_body p i m k !! "maskBase64Data" = k.
Proof. lookup_body. Qed.

(** [fetchApi] issues exactly one request, whatever comes back. *)
Lemma fetchApi_log (net : network) (endpoint : string)
    (body : gmap string string) (log : list Http.request) :
  snd (fetchApi net endpoint body log)
  = (log ++ [ {| Http.endpoint := endpoint; Http.body := body |} ])%list.
Proof.
  unfold fetchApi, bind, fetch.
  destruct (net _) as [response|e]; [|reflexivity].
  destruct (negb (ok response)); [reflexivity|].
  destruct (content response); reflexivity.
Qed.

(** What [fetchApi] throws on a response that is not [ok]. *)
Lemma fetchApi_not_ok (net : network) (endpoint : string)
    (body : gmap string string) (log : list Http.request)
    (response : fetched) :
  net {| Http.endpoint := endpoint; Http.body := body |}
  = Returned response ->
  ok response = false ->
  fetchApi net endpoint body log
  = (Threw
       (Error
          (or_else
             (match content response with
              | Json object => object !! "error"
              | NotJson _ => Some "An unknown error occurred."
              end)
             ("Request failed with status " ++ pretty (status response)))),
     (log ++ [ {| Http.endpoint := endpoint; Http.body := body |} ])%list).
Proof.
  intros Hnet Hok. unfold fetchApi, bind, fetch. rewrite Hnet, Hok. simpl.
  unfold throw. destruct (content response); [|reflexivity].
  rewrite lookup_singleton_eq. reflexivity.
Qed.

Lemma editImage_log (net : network) (p : string) (i : option string)
    (m : string) (k : option string) (log : list Http.request) :
  snd (editImage net p i m k log)
  = (log ++ [ {| Http.endpoint := "/api/edit";
                 Http.body := editImage_body p i m k |} ])%list.
Proof.
  unfold editImage, bind.
  pose proof (fetchApi_log net "/api/edit" (editImage_body p i m k) log)
    as Hlog.
  unfold editImage_body in *.
  destruct (fetchApi net "/api/edit" _ log) as [[data|e] log'];
    simpl in Hlog; subst log'; [|reflexivity].
  destruct (data !! "imageBase64") as [b|]; [|reflexivity].
  destruct (truthy_string b); reflexivity.
Qed.

Lemma generateImage_log (net : network) (p a : string)
    (log : list Http.request) :
  exists body,
    snd (generateImage net p a log)
    = (log ++ [ {| Http.endpoint := "/api/generate";
                   Http.body := body |} ])%list.
Proof.
  eexists. unfold generateImage, bind.
  pose proof (fetchApi_log net "/api/generate"
                (Http.property "prompt" (Some p)
                 ∪ Http.property "aspectRatio" (Some a)) log) as Hlog.
  destruct (fetchApi net "/api/generate" _ log) as [[data|e] log'];
    simpl in Hlog; subst log'; [|reflexivity].
  destruct (data !! "imageBase64") as [b|]; [|reflexivity].
  destruct (truthy_string b); reflexivity.
Qed.

End Transport.

(** C5.  An edit call without the mask argument posts a body that has no
    mask field, and when that body reaches the edit route the model is
    called, if at all, with exactly two parts: the image and the prompt
    itself as plain text.  With a non-empty prompt, image and MIME type the
    model is called once. *)
Theorem edit_without_mask_sends_two_parts
    (net : GeminiService.network) (ai : Gemini.client)
    (prompt image mime : string) (log : list Http.request) :
  exists request,
    snd (GeminiService.editImage net prompt (Some image) mime None log)
    = (log ++ [request])%list
    /\ Http.endpoint request = "/api/edit"
    /\ Http.body request !! "maskBase64Data" = None
    /\ (forall params,
          params ∈ Server.calls (Server.edit ai (Http.body request)) ->
          Gemini.contents params
          = [ {| Gemini.inlineData :=
                   Some {| Gemini.data := Some image;
                           Gemini.mimeType := Some mime |};
                 Gemini.text := None |};
              {| Gemini.inlineData := None;
                 Gemini.text := Some prompt |} ])
    /\ (prompt <> EmptyString -> image <> EmptyString ->
        mime <> EmptyString ->
        exists params,
          Server.calls (Server.edit ai (Http.body request)) = [params]).
Proof.
  eexists. split; [apply editImage_log|].
  simpl Http.endpoint. simpl Http.body.
  split; [reflexivity|].
  split; [apply editImage_body_mask|].
  rewrite edit_calls.
  rewrite editImage_body_prompt, editImage_body_image,
    editImage_body_mimeType, editImage_body_mask.
  split.
  - intros params Hin.
    destruct (truthy (Some prompt) && truthy (Some image)
              && truthy (Some mime));
      [|now apply elem_of_nil in Hin].
    apply list_elem_of_singleton in Hin. subst params. reflexivity.
  - intros Hp Hi Hm.
    rewrite (truthy_Some_intro _ Hp), (truthy_Some_intro _ Hi),
      (truthy_Some_intro _ Hm).
    eexists. reflexivity.
Qed.

Lemma edit_without_mask_sends_two_parts_witness :
  let ai : Gemini.client :=
    {| Gemini.generateContent := fun _ => Threw NotAnError;
       Gemini.generateImages := fun _ => Threw NotAnError |} in
  exists request params,
    snd (GeminiService.editImage (GeminiService.backend ai)
           "add a hat" (Some "AAAA") "image/png" None [])
    = [request]
    /\ Server.calls (Server.edit ai (Http.body request)) = [params]
    /\ length (Gemini.contents params) = 2%nat.
Proof.
  intros ai.
  destruct (edit_without_mask_sends_two_parts (GeminiService.backend ai) ai
              "add a hat" "AAAA" "image/png" [])
    as (request & Hlog & _ & _ & Hparts & Hcalled).
  destruct Hcalled as [params Hcalls]; [discriminate ..|].
  exists request, params. split; [exact Hlog|]. split; [exact Hcalls|].
  rewrite (Hparts params); [reflexivity|].
  rewrite Hcalls. apply list_elem_of_singleton. reflexivity.
Defined.

(** What [fetchApi] throws on a response that is not 2xx, by the body:
    a non-empty [error] field is thrown as it is; a body that does not
    parse gives ["An unknown error occurred."]; a body without an [error]
    field, or with an empty one, gives the message made from the
    status. *)
Lemma fetchApi_throws_on_error_status
    (net : GeminiService.network) (endpoint : string)
    (body : gmap string string) (log : list Http.request)
    (response : GeminiService.fetched) :
  net {| Http.endpoint := endpoint; Http.body := body |} = Returned response ->
  GeminiService.ok response = false ->
  (forall object message,
      GeminiService.content response = GeminiService.Json object ->
      object !! "error" = Some message ->
      message <> EmptyString ->
      fst (GeminiService.fetchApi net endpoint body log)
      = Threw (Error message))
  /\ (forall syntax_error,
        GeminiService.content response
        = GeminiService.NotJson syntax_error ->
        fst (GeminiService.fetchApi net endpoint body log)
        = Threw (Error "An unknown error occurred."))
  /\ (forall object,
        GeminiService.content response = GeminiService.Json object ->
        truthy (object !! "error") = false ->
        fst (GeminiService.fetchApi net endpoint body log)
        = Threw (Error ("Request failed with status "
                        ++ pretty (GeminiService.status response)))).
Proof.
  intros Hnet Hok.
  rewrite (fetchApi_not_ok net endpoint body log response Hnet Hok).
  simpl fst. repeat split.
  - intros object message -> -> Hne. unfold or_else.
    apply truthy_string_iff in Hne. rewrite Hne. reflexivity.
  - intros syntax_error ->. reflexivity.
  - intros object -> Hfalse. unfold or_else.
    destruct (object !! "error") as [e|]; [|reflexivity].
    simpl in Hfalse. rewrite Hfalse. reflexivity.
Qed.

(** ** The handlers of the component *)

Section Handlers.
Import GeminiService App.

(** [handleGenerate], case by case. *)
Lemma handleGenerate_cases (net : network) (seen_mode : EditMode)
    (seen_upload : option UploadedImage) (st : state)
    (log : list Http.request) :
  handleGenerate net seen_mode seen_upload st log
  = if truthy_string (trim (prompt st)) then
      let st0 := clearState (setIsLoading true st) in
      match generateImage net (prompt st) (aspectRatio st) log with
      | (Returned imageBase64, log') =>
          (Returned
             (setIsLoading false
                (handleApiResponse seen_mode seen_upload imageBase64 st0)),
           log')
      | (Threw err, log') =>
          (Returned (setIsLoading false (handleApiError err st0)), log')
      end
    else (Returned (setError (Some "Please enter a prompt.") st), log).
Proof.
  unfold handleGenerate.
  destruct (truthy_string (trim (prompt st))); simpl; [|reflexivity].
  unfold bind, try_catch, ret. simpl.
  destruct (generateImage net (prompt st) (aspectRatio st) log)
    as [[imageBase64|err] log']; reflexivity.
Qed.

(** A prompt with something in it is posted, once, to the generation
    route. *)
Lemma handleGenerate_dispatches (net : network) (seen_mode : EditMode)
    (seen_upload : option UploadedImage) (st : state)
    (log : list Http.request) :
  allWhiteSpace (prompt st) = false ->
  exists body,
    snd (handleGenerate net seen_mode seen_upload st log)
    = (log ++ [ {| Http.endpoint := "/api/generate";
                   Http.body := body |} ])%list.
Proof.
  intros Hblank. rewrite handleGenerate_cases.
  assert (truthy_string (trim (prompt st)) = true) as ->.
  { apply truthy_string_iff. intros Hempty.
    apply trim_empty_iff in Hempty. congruence. }
  destruct (generateImage_log net (prompt st) (aspectRatio st) log)
    as [body Hlog].
  exists body. cbv zeta.
  destruct (generateImage net (prompt st) (aspectRatio st) log)
    as [[imageBase64|err] log']; exact Hlog.
Qed.

End Handlers.

(** C7.  With a prompt that is empty or made of white space only,
    [handleGenerate] stops at its validation: it sets the error
    ["Please enter a prompt."] and returns with the log of requests as it
    found it, so no HTTP request is issued and no endpoint of the backend
    is reached. *)
Theorem handleGenerate_rejects_blank_prompt
    (net : GeminiService.network) (seen_mode : App.EditMode)
    (seen_upload : option App.UploadedImage) (st : App.state)
    (log : list Http.request) :
  allWhiteSpace (App.prompt st) = true ->
  App.handleGenerate net seen_mode seen_upload st log
  = (Returned (App.setError (Some "Please enter a prompt.") st), log).
Proof.
  intros Hblank. rewrite handleGenerate_cases.
  apply trim_empty_iff in Hblank. rewrite Hblank. reflexivity.
Qed.

Lemma handleGenerate_rejects_blank_prompt_witness :
  let net : GeminiService.network := fun _ => Threw NotAnError in
  snd (App.handleGenerate net App.generate None
         (App.setPrompt "   " App.initial) [])
  = [].
Proof.
  intros net.
  rewrite (handleGenerate_rejects_blank_prompt net App.generate None
             (App.setPrompt "   " App.initial) []);
    reflexivity.
Defined.

(** ** The history of results *)

Section History.
Import App.

Lemma take_app_take {A} (n m : nat) (l k : list A) :
  (n <= m)%nat -> take n (l ++ take m k) = take n (l ++ k).
Proof.
  revert n. induction l as [|a l IH]; intros n Hnm; simpl.
  - rewrite take_take. f_equal. lia.
  - destruct n as [|n]; [reflexivity|]. simpl. f_equal.
    apply IH. lia.
Qed.

Lemma history_handleApiResponse (seen_mode : EditMode)
    (seen_upload : option UploadedImage) (imageBase64 : string)
    (st : state) :
  history (handleApiResponse seen_mode seen_upload imageBase64 st)
  = take 6 (("data:image/jpeg;base64," ++ imageBase64) :: history st).
Proof.
  unfold handleApiResponse.
  destruct seen_mode, seen_upload; reflexivity.
Qed.

Lemma length_history_handleApiResponse (seen_mode : EditMode)
    (seen_upload : option UploadedImage) (imageBase64 : string)
    (st : state) :
  (length (history (handleApiResponse seen_mode seen_upload imageBase64 st))
   <= 6)%nat.
Proof. rewrite history_handleApiResponse, length_take. lia. Qed.

(** After any run of answers the history holds the six latest, the
    latest first. *)
Lemma history_after_answers
    (answers : list (EditMode * option UploadedImage * string))
    (st : state) :
  (length (history st) <= 6)%nat ->
  history (after_answers answers st)
  = take 6 (rev ((fun a => "data:image/jpeg;base64," ++ a.2) <$> answers)
            ++ history st).
Proof.
  unfold after_answers. revert st.
  induction answers as [|[[seen_mode seen_upload] imageBase64] answers IH];
    intros st Hlen.
  - simpl. symmetry. apply take_ge. exact Hlen.
  - simpl foldl. rewrite IH by apply length_history_handleApiResponse.
    rewrite history_handleApiResponse.
    rewrite take_app_take by lia.
    rewrite fmap_cons. simpl rev.
    rewrite <- app_assoc. reflexivity.
Qed.

End History.

(** ** Results are kept as JPEG data URLs *)

Section JpegResults.
Import GeminiService App.

Lemma prefix_split (p s : string) :
  String.prefix p s = true -> exists rest, s = p ++ rest.
Proof.
  revert s. induction p as [|c p IH]; intros s H.
  - exists s. reflexivity.
  - destruct s as [|d s]; simpl in H; [discriminate|].
    destruct (ascii_dec c d) as [<-|]; [|discriminate].
    destruct (IH s H) as [rest ->]. exists rest. reflexivity.
Qed.

(** The pattern of [handleReEdit] finds [image/jpeg] in such a URL, at its
    very beginning. *)
Lemma match_mimeType_jpeg (g : string) :
  jpeg_data_url g -> match_mimeType g = Some "image/jpeg".
Proof.
  intros H. apply prefix_split in H as [rest ->].
  destruct rest; vm_compute; reflexivity.
Qed.

Lemma jpeg_data_url_intro (imageBase64 : string) :
  jpeg_data_url ("data:image/jpeg;base64," ++ imageBase64).
Proof. apply prefix_refl_app. Qed.

Lemma handleEdit_cases (net : network) (plat : Canvas2D.platform)
    (seen_mode : EditMode) (r : refs) (st : state)
    (log : list Http.request) :
  handleEdit net plat seen_mode r st log
  = if truthy_string (trim (prompt st)) then
      match uploadedImage st with
      | None =>
          (Returned (setError (Some "Please upload an image to edit.") st),
           log)
      | Some uploaded =>
          let st0 := clearState (setIsLoading true st) in
          match getMaskAsBase64 plat r with
          | Threw err =>
              (Returned (setIsLoading false (handleApiError err st0)), log)
          | Returned maskBase64Data =>
              match editImage net (prompt st)
                      (split "," (dataUrl uploaded) !! 1%nat)
                      (mimeType uploaded) maskBase64Data log with
              | (Returned imageBase64, log') =>
                  (Returned
                     (setIsLoading false
                        (handleApiResponse seen_mode (Some uploaded)
                           imageBase64 st0)),
                   log')
              | (Threw err, log') =>
                  (Returned (setIsLoading false (handleApiError err st0)),
                   log')
              end
          end
      end
    else
      (Returned (setError (Some "Please enter an edit instruction.") st),
       log).
Proof.
  unfold handleEdit.
  destruct (truthy_string (trim (prompt st))); simpl; [|reflexivity].
  destruct (uploadedImage st) as [uploaded|]; [|reflexivity].
  unfold bind, try_catch, ret, lift. simpl.
  destruct (getMaskAsBase64 plat r) as [maskBase64Data|err]; [|reflexivity].
  destruct (editImage net (prompt st) _ (mimeType uploaded) maskBase64Data log)
    as [[imageBase64|err] log']; reflexivity.
Qed.

(** What [handleEdit] posts, when it posts: the prompt and the MIME type
    of the uploaded image of the state. *)
Lemma handleEdit_log (net : network) (plat : Canvas2D.platform)
    (seen_mode : EditMode) (r : refs) (st : state)
    (log : list Http.request) :
  snd (handleEdit net plat seen_mode r st log) = log
  \/ exists uploaded maskBase64Data,
       uploadedImage st = Some uploaded
       /\ getMaskAsBase64 plat r = Returned maskBase64Data
       /\ snd (handleEdit net plat seen_mode r st log)
          = (log ++ [ {| Http.endpoint := "/api/edit";
                         Http.body :=
                           editImage_body (prompt st)
                             (split "," (dataUrl uploaded) !! 1%nat)
                             (mimeType uploaded) maskBase64Data |} ])%list.
Proof.
  rewrite handleEdit_cases.
  destruct (truthy_string (trim (prompt st))); [|left; reflexivity].
  destruct (uploadedImage st) as [uploaded|]; [|left; reflexivity].
  cbv zeta.
  destruct (getMaskAsBase64 plat r) as [maskBase64Data|err];
    [|left; reflexivity].
  right. exists uploaded, maskBase64Data.
  split; [reflexivity|]. split; [reflexivity|].
  pose proof (editImage_log net (prompt st)
                (split "," (dataUrl uploaded) !! 1%nat)
                (mimeType uploaded) maskBase64Data log) as Hlog.
  destruct (editImage net (prompt st) _ (mimeType uploaded) maskBase64Data log)
    as [[imageBase64|err] log']; exact Hlog.
Qed.

Lemma results_are_jpeg_handleApiResponse (seen_mode : EditMode)
    (seen_upload : option UploadedImage) (imageBase64 : string)
    (st : state) :
  results_are_jpeg st ->
  results_are_jpeg (handleApiResponse seen_mode seen_upload imageBase64 st).
Proof.
  intros [_ Hhistory]. split.
  - intros g Hg.
    assert (g = "data:image/jpeg;base64," ++ imageBase64) as ->.
    { unfold handleApiResponse in Hg.
      destruct seen_mode, seen_upload;
        cbn [generatedImage setHistory setGeneratedImage
             setComparisonImage] in Hg;
        congruence. }
    apply jpeg_data_url_intro.
  - rewrite history_handleApiResponse.
    apply Forall_take. constructor; [apply jpeg_data_url_intro | exact Hhistory].
Qed.

(** The invariant only looks at two cells of the state. *)
Lemma results_are_jpeg_same (st st' : state) :
  generatedImage st' = generatedImage st \/ generatedImage st' = None ->
  history st' = history st ->
  results_are_jpeg st -> results_are_jpeg st'.
Proof.
  intros Hg Hh [Hgen Hhist]. split.
  - intros g Hg'. destruct Hg as [Hg|Hg]; rewrite Hg in Hg';
      [exact (Hgen g Hg') | discriminate].
  - rewrite Hh. exact Hhist.
Qed.

Lemma results_are_jpeg_handleGenerate (net : network) (seen_mode : EditMode)
    (seen_upload : option UploadedImage) (st st' : state)
    (log log' : list Http.request) :
  handleGenerate net seen_mode seen_upload st log = (Returned st', log') ->
  results_are_jpeg st -> results_are_jpeg st'.
Proof.
  rewrite handleGenerate_cases. intros Hrun Hinv.
  destruct (truthy_string (trim (prompt st))).
  - cbv zeta in Hrun.
    destruct (generateImage net (prompt st) (aspectRatio st) log)
      as [[imageBase64|err] l]; injection Hrun as <- <-.
    + apply (results_are_jpeg_same
               (handleApiResponse seen_mode seen_upload imageBase64
                  (clearState (setIsLoading true st))));
        [left; reflexivity | reflexivity |].
      apply results_are_jpeg_handleApiResponse.
      apply (results_are_jpeg_same st); [right | | exact Hinv]; reflexivity.
    + apply (results_are_jpeg_same st); [right | | exact Hinv]; reflexivity.
  - injection Hrun as <- <-.
    apply (results_are_jpeg_same st); [left | | exact Hinv]; reflexivity.
Qed.

Lemma results_are_jpeg_handleEdit (net : network)
    (plat : Canvas2D.platform) (seen_mode : EditMode) (r : refs)
    (st st' : state) (log log' : list Http.request) :
  handleEdit net plat seen_mode r st log = (Returned st', log') ->
  results_are_jpeg st -> results_are_jpeg st'.
Proof.
  rewrite handleEdit_cases. intros Hrun Hinv.
  destruct (truthy_string (trim (prompt st)));
    [|injection Hrun as <- <-;
      apply (results_are_jpeg_same st); [left | | exact Hinv]; reflexivity].
  destruct (uploadedImage st) as [uploaded|];
    [|injection Hrun as <- <-;
      apply (results_are_jpeg_same st); [left | | exact Hinv]; reflexivity].
  cbv zeta in Hrun.
  destruct (getMaskAsBase64 plat r) as [maskBase64Data|err];
    [|injection Hrun as <- <-;
      apply (results_are_jpeg_same st); [right | | exact Hinv]; reflexivity].
  destruct (editImage net (prompt st) _ (mimeType uploaded) maskBase64Data log)
    as [[imageBase64|err] l]; injection Hrun as <- <-.
  - apply (results_are_jpeg_same
             (handleApiResponse seen_mode (Some uploaded) imageBase64
                (clearState (setIsLoading true st))));
      [left; reflexivity | reflexivity |].
    apply results_are_jpeg_handleApiResponse.
    apply (results_are_jpeg_same st); [right | | exact Hinv]; reflexivity.
  - apply (results_are_jpeg_same st); [right | | exact Hinv]; reflexivity.
Qed.

Lemma results_are_jpeg_processFile (file : File) (st : state) :
  results_are_jpeg st -> results_are_jpeg (processFile file st).
Proof.
  intros Hinv. apply (results_are_jpeg_same st); [left | | exact Hinv];
    unfold processFile;
    destruct (negb (existsb (String.eqb (type file)) allowedTypes));
    try reflexivity;
    destruct (maxSizeInBytes <? size file)%N; try reflexivity;
    destruct (readAsDataURL file); reflexivity.
Qed.

(** [handleReEdit] by cases: it acts only on a source that is there and
    not empty. *)
Lemma handleReEdit_cases (st : state) :
  handleReEdit st
  = match generatedImage st with
    | Some g =>
        if truthy_string g then
          setError None
            (setComparisonImage None
               (setGeneratedImage None
                  (setPrompt EmptyString
                     (setUploadedImage
                        (Some {| dataUrl := g;
                                 mimeType :=
                                   match match_mimeType g with
                                   | Some group => group
                                   | None => "image/jpeg"
                                   end |})
                        (setMode edit st)))))
        else st
    | None => st
    end.
Proof.
  unfold handleReEdit. destruct (generatedImage st) as [g|]; [|reflexivity].
  simpl. destruct (truthy_string g); reflexivity.
Qed.

Lemma jpeg_data_url_truthy (g : string) :
  jpeg_data_url g -> truthy_string g = true.
Proof.
  intros H. apply prefix_split in H as [rest ->]. reflexivity.
Qed.

Lemma results_are_jpeg_handleReEdit (st : state) :
  results_are_jpeg st -> results_are_jpeg (handleReEdit st).
Proof.
  intros Hinv. rewrite handleReEdit_cases.
  destruct (generatedImage st) as [g|] eqn:Hg; [|exact Hinv].
  destruct (truthy_string g); [|exact Hinv].
  apply (results_are_jpeg_same st); [right | | exact Hinv]; reflexivity.
Qed.

(** Every state the component reaches keeps its results as JPEG data
    URLs. *)
Lemma reachable_results_are_jpeg (net : network)
    (plat : Canvas2D.platform) (st : state) :
  reachable net plat st -> results_are_jpeg st.
Proof.
  induction 1 as
    [ | v st _ IH | v st _ IH | v st _ IH | v st _ IH | v st _ IH
      | file st _ IH | st _ IH | imgSrc st _ IH Hin | st _ IH
      | seen_mode seen_upload st log st' log' _ IH Hrun
      | seen_mode r st log st' log' _ IH Hrun ].
  - split; [discriminate | constructor].
  - apply (results_are_jpeg_same st); [left | | exact IH]; reflexivity.
  - apply (results_are_jpeg_same st); [left | | exact IH]; reflexivity.
  - apply (results_are_jpeg_same st); [left | | exact IH]; reflexivity.
  - apply (results_are_jpeg_same st); [left | | exact IH]; reflexivity.
  - apply (results_are_jpeg_same st); [left | | exact IH]; reflexivity.
  - apply results_are_jpeg_processFile, IH.
  - apply (results_are_jpeg_same st); [left | | exact IH]; reflexivity.
  - destruct IH as [Hgen Hhist]. split; [|exact Hhist].
    intros g [= <-]. rewrite Forall_forall in Hhist. apply Hhist, Hin.
  - apply results_are_jpeg_handleReEdit, IH.
  - exact (results_are_jpeg_handleGenerate _ _ _ _ _ _ _ Hrun IH).
  - exact (results_are_jpeg_handleEdit _ _ _ _ _ _ _ _ Hrun IH).
Qed.

End JpegResults.

(** ** The canvas: pixels, words and compositing *)

Section Pixels.
Import Canvas2D.

(** The 32-bit word of a pixel, as [Uint32Array] reads its four bytes. *)
Lemma Uint32Array_pixels (pixels : list rgba) :
  Uint32Array (p ← pixels; [red p; green p; blue p; alpha p])
  = (fun p =>
       N.lor (red p)
         (N.lor (N.shiftl (green p) 8)
            (N.lor (N.shiftl (blue p) 16) (N.shiftl (alpha p) 24))))
    <$> pixels.
Proof.
  induction pixels as [|p pixels IH]; [reflexivity|].
  simpl. f_equal. exact IH.
Qed.

(** A word is zero exactly when the four bytes are. *)
Lemma pixel_word_zero (p : rgba) :
  N.lor (red p)
    (N.lor (N.shiftl (green p) 8)
       (N.lor (N.shiftl (blue p) 16) (N.shiftl (alpha p) 24))) = 0%N
  <-> p = transparent.
Proof.
  rewrite !N.lor_eq_0_iff, !N.shiftl_eq_0_iff.
  destruct p as [r g b a]; simpl. split.
  - intros (-> & -> & -> & ->). reflexivity.
  - intros [= -> -> -> ->]. repeat split.
Qed.

(** A pixel that is not fully transparent has a word that is not zero. *)
Lemma painted_word_nonzero (p : rgba) :
  alpha p <> 0%N ->
  N.lor (red p)
    (N.lor (N.shiftl (green p) 8)
       (N.lor (N.shiftl (blue p) 16) (N.shiftl (alpha p) 24))) <> 0%N.
Proof.
  intros Ha Hz. apply pixel_word_zero in Hz. subst p. apply Ha. reflexivity.
Qed.

Lemma div_round_le (n d k : N) :
  d <> 0%N -> (n <= k * d)%N -> (div_round n d <= k)%N.
Proof.
  intros Hd Hn. unfold div_round.
  apply N.lt_succ_r, N.Div0.div_lt_upper_bound. lia.
Qed.

Lemma div_round_exact (k d : N) : d <> 0%N -> div_round (k * d) d = k.
Proof.
  intros Hd. unfold div_round.
  symmetry. apply (N.div_unique _ _ _ d); lia.
Qed.

Lemma div_round_zero (d : N) : d <> 0%N -> div_round 0 d = 0%N.
Proof. intros Hd. apply (div_round_exact 0 d Hd). Qed.

End Pixels.

(** ** The mask layer *)

Section MaskLayer.
Import Canvas2D App.

Lemma ink_transparent : ink transparent.
Proof. repeat split. simpl. lia. Qed.

(** Black paint on ink leaves ink. *)
Lemma source_over_ink (coverage : N) (p : rgba) :
  ink p -> ink (source_over (covered black coverage) p).
Proof.
  intros (Hr & Hg & Hb & Ha).
  unfold source_over, covered. simpl.
  rewrite Hr, Hg, Hb.
  assert (div_round (255 * N.min coverage 255) 255 = N.min coverage 255)
    as ->.
  { rewrite N.mul_comm. apply div_round_exact. discriminate. }
  set (sa := N.min coverage 255).
  assert (sa <= 255)%N as Hsa by (subst sa; lia).
  destruct (N.eqb_spec (255 * sa + alpha p * (255 - sa)) 0) as [_|Hout];
    [apply ink_transparent|].
  replace (255 * 0 * sa + 0 * alpha p * (255 - sa))%N with 0%N by lia.
  rewrite (div_round_zero _ Hout).
  repeat split; simpl.
  apply div_round_le; [discriminate | nia].
Qed.

Lemma paint_ink (coverage : nat -> N) (c : canvas) :
  Forall ink (bitmap c) -> Forall ink (bitmap (paint black coverage c)).
Proof.
  intros H. apply Forall_lookup. intros i p Hp. simpl in Hp.
  rewrite list_lookup_imap in Hp.
  destruct (bitmap c !! i) as [q|] eqn:Hq; [|discriminate].
  injection Hp as <-. apply source_over_ink.
  exact (proj1 (Forall_lookup _ _) H i q Hq).
Qed.

Lemma layer_of_paint (img : HTMLImageElement) (coverage : nat -> N)
    (c : canvas) :
  layer_of img c -> layer_of img (paint black coverage c).
Proof.
  intros (Hw & Hh & Hlen & Hink). repeat split; try assumption.
  - simpl. rewrite length_imap. exact Hlen.
  - apply paint_ink, Hink.
Qed.

Lemma layer_of_blank (img : HTMLImageElement) :
  layer_of img
    (blank (Npos (naturalWidth img)) (Npos (naturalHeight img))).
Proof.
  repeat split.
  - simpl. apply length_replicate.
  - simpl. apply Forall_replicate, ink_transparent.
Qed.

Lemma layer_of_clearRect (img : HTMLImageElement) (c : canvas) :
  layer_of img c -> layer_of img (clearRect c).
Proof.
  intros (Hw & Hh & _). unfold clearRect. rewrite Hw, Hh.
  apply layer_of_blank.
Qed.

(** Every loaded layer of an image has a drawing canvas, and it is a
    layer of that image. *)
Lemma loaded_layer_canvas (plat : platform) (img : HTMLImageElement)
    (r : refs) :
  loaded_layer plat img r ->
  exists c, drawingCanvas r = Some c /\ layer_of img c.
Proof.
  induction 1 as [r below above Hbelow Habove | e r _ IH | b e r _ IH
                  | r _ IH | r _ IH].
  - unfold onload. rewrite Hbelow, Habove. simpl.
    eexists. split; [reflexivity|].
    apply layer_of_clearRect, layer_of_blank.
  - destruct IH as (c & Hc & Hlayer). exists c. split; [|exact Hlayer].
    unfold startDrawing. destruct (getCanvasCoords r e); exact Hc.
  - destruct IH as (c & Hc & Hlayer). unfold draw.
    destruct (negb (isDrawing r)); [exists c; split; assumption|].
    destruct (getCanvasCoords r e) as [coords|];
      [|exists c; split; assumption].
    rewrite Hc.
    destruct (lastPos r) as [last|]; [|exists c; split; assumption].
    eexists. split; [reflexivity|].
    unfold fill_arc, stroke_line.
    apply layer_of_paint, layer_of_paint, Hlayer.
  - destruct IH as (c & Hc & Hlayer). exists c. split; assumption.
  - destruct IH as (c & Hc & Hlayer). unfold clearMask. rewrite Hc.
    eexists. split; [reflexivity|].
    apply layer_of_clearRect, Hlayer.
Qed.

(** A loaded layer is a mask layer. *)
Lemma loaded_mask_layer (plat : platform) (img : HTMLImageElement)
    (r : refs) :
  loaded_layer plat img r -> mask_layer plat img r.
Proof.
  induction 1 as [r below above Hbelow Habove | e r _ IH | b e r _ IH
                  | r _ IH | r _ IH].
  - exact (layer_onload plat img r below above Hbelow Habove).
  - apply layer_startDrawing, IH.
  - apply layer_draw, IH.
  - apply layer_stopDrawing, IH.
  - apply layer_clearMask, IH.
Qed.

Lemma layer_of_raster (img : HTMLImageElement) (c : canvas) :
  layer_of img c -> raster c.
Proof.
  intros (Hw & Hh & Hlen & Hink).
  repeat split; try assumption; [rewrite Hw | rewrite Hh]; discriminate.
Qed.

Lemma raster_paint (coverage : nat -> N) (c : canvas) :
  raster c -> raster (paint black coverage c).
Proof.
  intros (Hw & Hh & Hlen & Hink). repeat split; try assumption.
  - simpl. rewrite length_imap. exact Hlen.
  - apply paint_ink, Hink.
Qed.

Lemma raster_blank (w h : N) :
  w <> 0%N -> h <> 0%N -> raster (blank w h).
Proof.
  intros Hw Hh. repeat split; try assumption.
  - simpl. apply length_replicate.
  - simpl. apply Forall_replicate, ink_transparent.
Qed.

(** On every mask layer, the drawing canvas, while there is one, is not
    empty, has one pixel per place and holds nothing but ink. *)
Lemma mask_layer_raster (plat : platform) (img : HTMLImageElement)
    (r : refs) :
  mask_layer plat img r ->
  forall c, drawingCanvas r = Some c -> raster c.
Proof.
  induction 1 as [ | r below above Hbelow Habove | e r _ IH | b e r _ IH
                  | r _ IH | r _ IH | r _ IH | r _ IH Hnone];
    intros c Hc.
  - discriminate Hc.
  - unfold onload in Hc. rewrite Hbelow, Habove in Hc. simpl in Hc.
    injection Hc as <-. apply raster_blank; discriminate.
  - apply IH. unfold startDrawing in Hc.
    destruct (getCanvasCoords r e); exact Hc.
  - unfold draw in Hc.
    destruct (negb (isDrawing r)); [exact (IH c Hc)|].
    destruct (getCanvasCoords r e) as [coords|]; [|exact (IH c Hc)].
    destruct (drawingCanvas r) as [c0|] eqn:Hc0; [|congruence].
    destruct (lastPos r) as [last|];
      [|rewrite Hc0 in Hc; exact (IH c Hc)].
    simpl in Hc. injection Hc as <-.
    unfold fill_arc, stroke_line.
    apply raster_paint, raster_paint, IH. reflexivity.
  - apply IH. exact Hc.
  - unfold clearMask in Hc.
    destruct (drawingCanvas r) as [c0|] eqn:Hc0; [|congruence].
    simpl in Hc. injection Hc as <-.
    destruct (IH c0 eq_refl) as (Hw & Hh & _).
    apply raster_blank; assumption.
  - discriminate Hc.
  - unfold mount in Hc. cbn [drawingCanvas] in Hc. injection Hc as <-.
    apply raster_blank; discriminate.
Qed.

(** Without anti-aliasing, black paint leaves a pixel fully transparent or
    fully opaque. *)
Lemma source_over_solid (coverage : N) (p : rgba) :
  coverage = 0%N \/ (255 <= coverage)%N ->
  solid p -> solid (source_over (covered black coverage) p).
Proof.
  intros Hcov Hp. unfold source_over, covered, solid in *. simpl.
  assert (N.min coverage 255 = 0 \/ N.min coverage 255 = 255)%N as Hmin
    by lia.
  destruct Hmin as [-> | ->], Hp as [-> | ->]; vm_compute; auto.
Qed.

Lemma paint_solid (coverage : nat -> N) (c : canvas) :
  (forall i, coverage i = 0%N \/ (255 <= coverage i)%N) ->
  Forall solid (bitmap c) -> Forall solid (bitmap (paint black coverage c)).
Proof.
  intros Hcov H. apply Forall_lookup. intros i p Hp. simpl in Hp.
  rewrite list_lookup_imap in Hp.
  destruct (bitmap c !! i) as [q|] eqn:Hq; [|discriminate].
  injection Hp as <-. apply source_over_solid; [apply Hcov|].
  exact (proj1 (Forall_lookup _ _) H i q Hq).
Qed.

(** With a rasteriser that does not anti-alias, every pixel of a mask
    layer is fully transparent or fully opaque. *)
Lemma mask_layer_solid (plat : platform) (img : HTMLImageElement)
    (r : refs) :
  hard_edged plat ->
  mask_layer plat img r ->
  forall c, drawingCanvas r = Some c -> Forall solid (bitmap c).
Proof.
  intros Hhard.
  induction 1 as [ | r below above Hbelow Habove | e r _ IH | b e r _ IH
                  | r _ IH | r _ IH | r _ IH | r _ IH Hnone];
    intros c Hc.
  - discriminate Hc.
  - unfold onload in Hc. rewrite Hbelow, Habove in Hc. simpl in Hc.
    injection Hc as <-. simpl. apply Forall_replicate. left. reflexivity.
  - apply IH. unfold startDrawing in Hc.
    destruct (getCanvasCoords r e); exact Hc.
  - unfold draw in Hc.
    destruct (negb (isDrawing r)); [exact (IH c Hc)|].
    destruct (getCanvasCoords r e) as [coords|]; [|exact (IH c Hc)].
    destruct (drawingCanvas r) as [c0|] eqn:Hc0; [|congruence].
    destruct (lastPos r) as [last|];
      [|rewrite Hc0 in Hc; exact (IH c Hc)].
    simpl in Hc. injection Hc as <-.
    unfold fill_arc, stroke_line.
    apply paint_solid.
    { intros i.
      exact (proj2 (Hhard (width c0) (height c0) 0%Q coords coords coords
                      (inject_Z (Z.of_N b)) i)). }
    apply paint_solid; [|exact (IH c0 eq_refl)].
    intros i.
    exact (proj1 (Hhard (width c0) (height c0)
                    (inject_Z (Z.of_N (b * 2))) last coords coords 0%Q i)).
  - apply IH. exact Hc.
  - unfold clearMask in Hc.
    destruct (drawingCanvas r) as [c0|] eqn:Hc0; [|congruence].
    simpl in Hc. injection Hc as <-. simpl.
    apply Forall_replicate. left. reflexivity.
  - discriminate Hc.
  - unfold mount in Hc. cbn [drawingCanvas] in Hc. injection Hc as <-.
    unfold blank. cbn [bitmap]. apply Forall_replicate. left. reflexivity.
Qed.

Lemma dot_platform_hard_edged : hard_edged dot_platform.
Proof.
  intros w h lineWidth from to centre radius i.
  destruct i; simpl; split; (right; lia) || (left; reflexivity).
Qed.

End MaskLayer.

(** ** Exporting the mask *)

Section MaskExport.
Import Canvas2D App.

Lemma source_over_white_transparent : source_over white transparent = white.
Proof. reflexivity. Qed.

(** Ink over white is a grey, the darker the more opaque the ink, and it
    is opaque. *)
Lemma source_over_ink_white (p : rgba) :
  ink p -> source_over p white = shade (alpha p).
Proof.
  intros (Hr & Hg & Hb & Ha). unfold source_over, shade. simpl.
  rewrite Hr, Hg, Hb.
  replace (255 * alpha p + 255 * (255 - alpha p))%N with 65025%N by lia.
  simpl N.eqb. cbv iota.
  replace (255 * 0 * alpha p + 255 * 255 * (255 - alpha p))%N
    with ((255 - alpha p) * 65025)%N by lia.
  rewrite div_round_exact by discriminate. reflexivity.
Qed.

(** The temporary canvas, pixel by pixel: each pixel of the drawing
    canvas over white. *)
Lemma composite_bitmap (c : canvas) :
  width c <> 0%N ->
  length (bitmap c) = N.to_nat (width c * height c) ->
  bitmap (composite c) = (fun s => source_over s white) <$> bitmap c.
Proof.
  intros Hw Hlen. unfold composite, drawImage, fillRect, blank. simpl.
  apply list_eq. intros i.
  rewrite list_lookup_imap, !list_lookup_fmap.
  destruct (decide (i < length (bitmap c))%nat) as [Hi|Hi].
  - rewrite lookup_replicate_2 by lia. simpl.
    rewrite source_over_white_transparent.
    assert (N.of_nat i < width c * height c)%N as Hbound by lia.
    assert (N.of_nat i mod width c < width c)%N as Hcol
      by (apply N.mod_lt; exact Hw).
    assert (N.of_nat i / width c < height c)%N as Hrow
      by (apply N.Div0.div_lt_upper_bound; exact Hbound).
    apply N.ltb_lt in Hcol, Hrow. rewrite Hcol, Hrow. simpl.
    replace (N.to_nat (N.of_nat i / width c * width c
                       + N.of_nat i mod width c)) with i.
    + destruct (lookup_lt_is_Some_2 (bitmap c) i Hi) as [s Hs].
      rewrite Hs. reflexivity.
    + pose proof (N.div_mod (N.of_nat i) (width c) Hw). lia.
  - rewrite (proj1 (lookup_replicate_None _ _ _)) by lia.
    rewrite (lookup_ge_None_2 (bitmap c) i) by lia. reflexivity.
Qed.

(** [getMaskAsBase64] on a canvas that has pixels. *)
Lemma getMaskAsBase64_cases (plat : platform) (r : refs) (c : canvas) :
  drawingCanvas r = Some c ->
  width c <> 0%N -> height c <> 0%N ->
  getMaskAsBase64 plat r
  = if some (fun color => negb (color =? 0)%N) (pixel_words c)
    then Returned (split "," (toDataURL plat (composite c)) !! 1%nat)
    else Returned None.
Proof.
  intros Hc Hw Hh. unfold getMaskAsBase64, getImageData. rewrite Hc.
  apply N.eqb_neq in Hw, Hh. rewrite Hw, Hh. simpl.
  unfold pixel_words.
  destruct (some _ _); reflexivity.
Qed.

Lemma some_nonzero_false (words : list N) :
  Forall (fun w => w = 0%N) words ->
  some (fun color => negb (color =? 0)%N) words = false.
Proof.
  induction 1 as [|w words -> _ IH]; [reflexivity|].
  unfold some in *. simpl. exact IH.
Qed.

Lemma pixel_words_blank (w h : N) :
  Forall (fun w => w = 0%N) (pixel_words (blank w h)).
Proof.
  unfold pixel_words. rewrite Uint32Array_pixels. simpl.
  rewrite fmap_replicate. apply Forall_replicate. reflexivity.
Qed.

Lemma some_nonzero_painted (c : canvas) (i : nat) (p : rgba) :
  bitmap c !! i = Some p -> alpha p <> 0%N ->
  some (fun color => negb (color =? 0)%N) (pixel_words c) = true.
Proof.
  intros Hp Ha. unfold some, pixel_words. rewrite Uint32Array_pixels.
  apply existsb_exists. eexists. split.
  - apply list_elem_of_In, list_elem_of_fmap. exists p.
    split; [reflexivity|]. apply list_elem_of_lookup. exists i. exact Hp.
  - apply negb_true_iff, N.eqb_neq, painted_word_nonzero, Ha.
Qed.

(** The second piece of the data URL of a canvas with pixels is the whole
    base64 text of the encoder. *)
Lemma toDataURL_payload (plat : platform) (c : canvas) :
  width c <> 0%N -> height c <> 0%N ->
  isBase64 (png_base64 plat c) = true ->
  split "," (toDataURL plat c) !! 1%nat = Some (png_base64 plat c).
Proof.
  intros Hw Hh Hbase. unfold toDataURL.
  apply N.eqb_neq in Hw, Hh. rewrite Hw, Hh. simpl orb. cbv iota.
  change ("data:image/png;base64," ++ png_base64 plat c)
    with ("data:image/png;base64"
          ++ String ","%char (png_base64 plat c)).
  rewrite split_after_comma.
  - rewrite split_no_separator by (apply isBase64_no_comma, Hbase).
    reflexivity.
  - intros ch Hin Heq. subst ch. simpl in Hin.
    repeat (destruct Hin as [Hin|Hin]; [discriminate Hin|]). exact Hin.
Qed.

(** While there is no drawing canvas the export is [null] as well. *)
Lemma getMaskAsBase64_without_canvas (plat : platform) (r : refs) :
  drawingCanvas r = None -> getMaskAsBase64 plat r = Returned None.
Proof. intros H. unfold getMaskAsBase64. rewrite H. reflexivity. Qed.

(** On a mask layer the export never throws. *)
Lemma mask_layer_exports (plat : platform) (img : HTMLImageElement)
    (r : refs) :
  mask_layer plat img r ->
  exists mask, getMaskAsBase64 plat r = Returned mask.
Proof.
  intros Hlayer.
  destruct (drawingCanvas r) as [c|] eqn:Hc.
  - destruct (mask_layer_raster plat img r Hlayer c Hc) as (Hw & Hh & _).
    rewrite (getMaskAsBase64_cases plat r c Hc Hw Hh).
    destruct (some _ _); eexists; reflexivity.
  - eexists. apply getMaskAsBase64_without_canvas, Hc.
Qed.

End MaskExport.

(** C3.  On every mask layer whose pixel words are all zero, the export
    returns [null].  That is the case of the layer just after the clear
    operation, whatever strokes came before, and of the layer of a
    freshly loaded image. *)
Theorem empty_mask_exports_null
    (plat : Canvas2D.platform) (img : App.HTMLImageElement) (r : App.refs) :
  App.mask_layer plat img r ->
  (forall c,
      App.drawingCanvas r = Some c ->
      Forall (fun word => word = 0%N) (App.pixel_words c) ->
      App.getMaskAsBase64 plat r = Returned None)
  /\ App.getMaskAsBase64 plat (App.clearMask r) = Returned None
  /\ (forall r0 below above,
        App.imageCanvas r0 = Some below ->
        App.drawingCanvas r0 = Some above ->
        App.getMaskAsBase64 plat (App.onload img r0) = Returned None).
Proof.
  intros Hlayer.
  assert (forall r', App.mask_layer plat img r' ->
            forall c, App.drawingCanvas r' = Some c ->
              Forall (fun word => word = 0%N) (App.pixel_words c) ->
              App.getMaskAsBase64 plat r' = Returned None) as Hempty.
  { intros r' Hlayer' c Hc Hzero.
    destruct (mask_layer_raster plat img r' Hlayer' c Hc) as (Hw & Hh & _).
    rewrite (getMaskAsBase64_cases plat r' c Hc Hw Hh).
    rewrite (some_nonzero_false _ Hzero). reflexivity. }
  split; [exact (Hempty r Hlayer)|]. split.
  - destruct (App.drawingCanvas r) as [c|] eqn:Hc.
    + apply (Hempty _ (App.layer_clearMask plat img r Hlayer)
               (Canvas2D.clearRect c)).
      * unfold App.clearMask. rewrite Hc. reflexivity.
      * apply pixel_words_blank.
    + apply getMaskAsBase64_without_canvas.
      unfold App.clearMask. rewrite Hc. exact Hc.
  - intros r0 below above Hbelow Habove.
    apply (Hempty _ (App.layer_onload plat img r0 below above Hbelow Habove)
             (Canvas2D.blank (Npos (App.naturalWidth img))
                (Npos (App.naturalHeight img)))).
    + unfold App.onload. rewrite Hbelow, Habove. reflexivity.
    + apply pixel_words_blank.
Qed.

Lemma empty_mask_exports_null_witness :
  let img : App.HTMLImageElement :=
    {| App.naturalWidth := 2; App.naturalHeight := 1;
       App.pixels := [Canvas2D.white; Canvas2D.white] |} in
  let mounted : App.refs :=
    {| App.imageCanvas := Some (Canvas2D.blank 3 2);
       App.drawingCanvas := Some (Canvas2D.blank 3 2);
       App.isDrawing := false; App.lastPos := None |} in
  let e : App.event :=
    {| App.rect := {| App.left := 0; App.top := 0;
                      App.rect_width := 200; App.rect_height := 100 |};
       App.source := App.MouseEvent 50 50 |} in
  let stroked :=
    App.draw Canvas2D.edge_platform 20 e
      (App.startDrawing e (App.onload img mounted)) in
  App.getMaskAsBase64 Canvas2D.edge_platform stroked
  = Returned (Some "iVBORw0KGgo=")
  /\ App.getMaskAsBase64 Canvas2D.edge_platform (App.clearMask stroked)
     = Returned None.
Proof.
  intros img mounted e stroked. split; [vm_compute; reflexivity|].
  apply (empty_mask_exports_null Canvas2D.edge_platform img stroked).
  apply App.layer_draw, App.layer_startDrawing.
  apply (App.layer_onload _ img mounted (Canvas2D.blank 3 2)
           (Canvas2D.blank 3 2)); reflexivity.
Defined.

(** C4, amended.  On every mask layer with at least one painted pixel,
    the export is the PNG (in base64) of a composite of the size of the
    drawing canvas, which is the natural width and height of the image
    as long as the canvases on which the image loaded have stayed on the
    page.  Every pixel of the composite is opaque: the grey that the ink
    of the layer leaves over white, which is pure white exactly where the
    layer is transparent and the stroke colour, black, exactly where the
    layer is fully opaque; where a stroke covers a pixel in part the grey
    lies in between.  With a rasteriser that does not anti-alias, every
    pixel of the composite is pure white or black. *)
Theorem painted_mask_exports_composite
    (plat : Canvas2D.platform) (img : App.HTMLImageElement) (r : App.refs)
    (c : Canvas2D.canvas) :
  App.mask_layer plat img r ->
  App.drawingCanvas r = Some c ->
  (forall b, isBase64 (Canvas2D.png_base64 plat b) = true) ->
  (exists i p,
      Canvas2D.bitmap c !! i = Some p /\ Canvas2D.alpha p <> 0%N) ->
  App.getMaskAsBase64 plat r
  = Returned (Some (Canvas2D.png_base64 plat (App.composite c)))
  /\ Canvas2D.width (App.composite c) = Canvas2D.width c
  /\ Canvas2D.height (App.composite c) = Canvas2D.height c
  /\ length (Canvas2D.bitmap (App.composite c))
     = N.to_nat (Canvas2D.width c * Canvas2D.height c)
  /\ (App.loaded_layer plat img r ->
      Canvas2D.width (App.composite c) = Npos (App.naturalWidth img)
      /\ Canvas2D.height (App.composite c) = Npos (App.naturalHeight img))
  /\ (forall i q,
        Canvas2D.bitmap (App.composite c) !! i = Some q ->
        Canvas2D.alpha q = 255%N
        /\ exists p,
             Canvas2D.bitmap c !! i = Some p
             /\ q = App.shade (Canvas2D.alpha p)
             /\ (q = Canvas2D.white <-> Canvas2D.alpha p = 0%N)
             /\ (q = Canvas2D.black <-> Canvas2D.alpha p = 255%N))
  /\ (Canvas2D.hard_edged plat ->
      forall i q,
        Canvas2D.bitmap (App.composite c) !! i = Some q ->
        q = Canvas2D.white \/ q = Canvas2D.black).
Proof.
  intros Hlayer Hc Hbase (i0 & p0 & Hp0 & Hpainted).
  destruct (mask_layer_raster plat img r Hlayer c Hc)
    as (Hw0 & Hh0 & Hlen & Hink).
  pose proof (composite_bitmap c Hw0 Hlen) as Hbitmap.
  split; [|split; [reflexivity|split; [reflexivity|split; [|split; [|split]]]]].
  - rewrite (getMaskAsBase64_cases plat r c Hc Hw0 Hh0).
    rewrite (some_nonzero_painted c i0 p0 Hp0 Hpainted).
    rewrite toDataURL_payload; [reflexivity | exact Hw0 | exact Hh0 | apply Hbase].
  - rewrite Hbitmap, length_fmap, Hlen. reflexivity.
  - intros Hloaded.
    destruct (loaded_layer_canvas plat img r Hloaded)
      as (c' & Hc' & Hw & Hh & _).
    rewrite Hc in Hc'. injection Hc' as <-.
    split; [exact Hw | exact Hh].
  - intros i q Hq. rewrite Hbitmap, list_lookup_fmap in Hq.
    destruct (Canvas2D.bitmap c !! i) as [p|] eqn:Hp; [|discriminate].
    injection Hq as <-.
    pose proof (proj1 (Forall_lookup _ _) Hink i p Hp) as Hp_ink.
    rewrite (source_over_ink_white p Hp_ink).
    split; [reflexivity|]. exists p. split; [reflexivity|].
    split; [reflexivity|].
    destruct Hp_ink as (_ & _ & _ & Ha).
    unfold App.shade, Canvas2D.white, Canvas2D.black. split; split.
    + intros [= H]. lia.
    + intros ->. reflexivity.
    + intros [= H]. lia.
    + intros ->. reflexivity.
  - intros Hhard i q Hq. rewrite Hbitmap, list_lookup_fmap in Hq.
    destruct (Canvas2D.bitmap c !! i) as [p|] eqn:Hp; [|discriminate].
    injection Hq as <-.
    rewrite (source_over_ink_white p
               (proj1 (Forall_lookup _ _) Hink i p Hp)).
    pose proof (mask_layer_solid plat img r Hhard Hlayer c Hc) as Hsolid.
    destruct (proj1 (Forall_lookup _ _) Hsolid i p Hp) as [-> | ->];
      [left | right]; reflexivity.
Qed.

Lemma painted_mask_exports_composite_witness :
  let img : App.HTMLImageElement :=
    {| App.naturalWidth := 12; App.naturalHeight := 1;
       App.pixels := replicate 12 Canvas2D.white |} in
  let mounted : App.refs :=
    App.mount App.initial_refs in
  let shown : App.DOMRect :=
    {| App.left := 0; App.top := 0;
       App.rect_width := 12; App.rect_height := 1 |} in
  let press : App.event :=
    {| App.rect := shown; App.source := App.MouseEvent (1 # 2) (1 # 2) |} in
  let move : App.event :=
    {| App.rect := shown; App.source := App.MouseEvent (3 # 2) (1 # 2) |} in
  let stroked :=
    App.draw Canvas2D.supersampling 5 move
      (App.startDrawing press (App.onload img mounted)) in
  let layer : Canvas2D.canvas :=
    {| Canvas2D.width := 12; Canvas2D.height := 1;
       Canvas2D.bitmap :=
         (replicate 6 Canvas2D.black
          ++ [ {| Canvas2D.red := 0; Canvas2D.green := 0;
                  Canvas2D.blue := 0; Canvas2D.alpha := 192 |} ]
          ++ replicate 5 Canvas2D.transparent)%list |} in
  App.drawingCanvas stroked = Some layer
  /\ App.getMaskAsBase64 Canvas2D.supersampling stroked
     = Returned (Some "iVBORw0KGgo=")
  /\ Canvas2D.width (App.composite layer) = 12%N
  /\ Canvas2D.height (App.composite layer) = 1%N.
Proof.
  intros img mounted shown press move stroked layer.
  assert (App.loaded_layer Canvas2D.supersampling img stroked) as Hloaded.
  { apply App.loaded_draw, App.loaded_startDrawing.
    apply (App.loaded_onload _ img mounted (Canvas2D.blank 300 150)
             (Canvas2D.blank 300 150)); reflexivity. }
  assert (App.drawingCanvas stroked = Some layer) as Hc
    by (vm_compute; reflexivity).
  split; [exact Hc|].
  destruct (painted_mask_exports_composite Canvas2D.supersampling img
              stroked layer (loaded_mask_layer _ _ _ Hloaded) Hc)
    as (Hexport & _ & _ & _ & Hnatural & _).
  - intros b. reflexivity.
  - exists 0%nat, Canvas2D.black. split; [reflexivity | discriminate].
  - split; [exact Hexport|]. exact (Hnatural Hloaded).
Defined.

(** C4 as first stated fails where a stroke covers a pixel in part.  An
    image of 12 by 1 pixels is shown at its natural size; the pointer is
    pressed at (0.5, 0.5) and moved to (1.5, 0.5) with the smallest brush,
    5.  The stroke ends half way through pixel 6: the layer keeps ink of
    partial opacity there, and the composite shows a grey that is neither
    white nor the stroke colour. *)
Lemma painted_mask_exports_composite_counterexample :
  let img : App.HTMLImageElement :=
    {| App.naturalWidth := 12; App.naturalHeight := 1;
       App.pixels := replicate 12 Canvas2D.white |} in
  let mounted : App.refs :=
    App.mount App.initial_refs in
  let shown : App.DOMRect :=
    {| App.left := 0; App.top := 0;
       App.rect_width := 12; App.rect_height := 1 |} in
  let press : App.event :=
    {| App.rect := shown; App.source := App.MouseEvent (1 # 2) (1 # 2) |} in
  let move : App.event :=
    {| App.rect := shown; App.source := App.MouseEvent (3 # 2) (1 # 2) |} in
  let stroked :=
    App.draw Canvas2D.supersampling 5 move
      (App.startDrawing press (App.onload img mounted)) in
  let partial : Canvas2D.rgba :=
    {| Canvas2D.red := 0; Canvas2D.green := 0; Canvas2D.blue := 0;
       Canvas2D.alpha := 192 |} in
  let layer : Canvas2D.canvas :=
    {| Canvas2D.width := 12; Canvas2D.height := 1;
       Canvas2D.bitmap :=
         (replicate 6 Canvas2D.black ++ [partial]
          ++ replicate 5 Canvas2D.transparent)%list |} in
  let grey : Canvas2D.rgba :=
    {| Canvas2D.red := 63; Canvas2D.green := 63; Canvas2D.blue := 63;
       Canvas2D.alpha := 255 |} in
  App.loaded_layer Canvas2D.supersampling img stroked
  /\ App.drawingCanvas stroked = Some layer
  /\ App.getMaskAsBase64 Canvas2D.supersampling stroked
     = Returned (Some (Canvas2D.png_base64 Canvas2D.supersampling
                         (App.composite layer)))
  /\ Canvas2D.bitmap (App.composite layer)
     = (replicate 6 Canvas2D.black ++ [grey]
        ++ replicate 5 Canvas2D.white)%list
  /\ grey <> Canvas2D.white
  /\ grey <> Canvas2D.black.
Proof.
  intros img mounted shown press move stroked partial layer grey. split.
  - apply App.loaded_draw, App.loaded_startDrawing.
    apply (App.loaded_onload _ img mounted (Canvas2D.blank 300 150)
             (Canvas2D.blank 300 150)); reflexivity.
  - split; [vm_compute; reflexivity|].
    split; [vm_compute; reflexivity|].
    split; [vm_compute; reflexivity|].
    split; discriminate.
Qed.

(** C10.  Every successful answer is stored, as the current generated
    image and as the head of the history, under the fixed prefix
    ["data:image/jpeg;base64,"], whatever the bytes are: [handleGenerate]
    does so with what [generateImage] returns, [handleEdit] with what
    [editImage] returns.  In every state the component reaches, re-edit
    then takes [image/jpeg] from that prefix as the MIME type of the
    uploaded image, and an edit of that image, with a prompt and on any
    mask layer, posts one request to [/api/edit] whose [mimeType] is
    ["image/jpeg"]. *)
Theorem results_stored_and_reedited_as_jpeg
    (net : GeminiService.network) (plat : Canvas2D.platform)
    (st : App.state) :
  App.reachable net plat st ->
  (forall seen_mode seen_upload log imageBase64 log',
      allWhiteSpace (App.prompt st) = false ->
      GeminiService.generateImage net (App.prompt st) (App.aspectRatio st)
        log
      = (Returned imageBase64, log') ->
      exists st',
        App.handleGenerate net seen_mode seen_upload st log
        = (Returned st', log')
        /\ App.generatedImage st'
           = Some ("data:image/jpeg;base64," ++ imageBase64)
        /\ head (App.history st')
           = Some ("data:image/jpeg;base64," ++ imageBase64))
  /\ (forall seen_mode r log uploaded mask imageBase64 log',
        allWhiteSpace (App.prompt st) = false ->
        App.uploadedImage st = Some uploaded ->
        App.getMaskAsBase64 plat r = Returned mask ->
        GeminiService.editImage net (App.prompt st)
          (split "," (App.dataUrl uploaded) !! 1%nat)
          (App.mimeType uploaded) mask log
        = (Returned imageBase64, log') ->
        exists st',
          App.handleEdit net plat seen_mode r st log = (Returned st', log')
          /\ App.generatedImage st'
             = Some ("data:image/jpeg;base64," ++ imageBase64)
          /\ head (App.history st')
             = Some ("data:image/jpeg;base64," ++ imageBase64))
  /\ (forall g,
        App.generatedImage st = Some g ->
        App.uploadedImage (App.handleReEdit st)
        = Some {| App.dataUrl := g; App.mimeType := "image/jpeg" |})
  /\ (forall g st2 seen_mode img r log,
        App.generatedImage st = Some g ->
        App.uploadedImage st2 = App.uploadedImage (App.handleReEdit st) ->
        allWhiteSpace (App.prompt st2) = false ->
        App.mask_layer plat img r ->
        exists request,
          snd (App.handleEdit net plat seen_mode r st2 log)
          = (log ++ [request])%list
          /\ Http.endpoint request = "/api/edit"
          /\ Http.body request !! "mimeType" = Some "image/jpeg").
Proof.
  intros Hreach.
  pose proof (reachable_results_are_jpeg net plat st Hreach) as [Hgen _].
  assert (forall g, App.generatedImage st = Some g ->
            App.uploadedImage (App.handleReEdit st)
            = Some {| App.dataUrl := g; App.mimeType := "image/jpeg" |})
    as Hreedit.
  { intros g Hg. rewrite handleReEdit_cases, Hg.
    rewrite (jpeg_data_url_truthy g (Hgen g Hg)).
    rewrite (match_mimeType_jpeg g (Hgen g Hg)). reflexivity. }
  assert (forall seen_mode seen_upload imageBase64 st0,
            App.generatedImage
              (App.setIsLoading false
                 (App.handleApiResponse seen_mode seen_upload imageBase64
                    st0))
            = Some ("data:image/jpeg;base64," ++ imageBase64)
            /\ head (App.history
                       (App.setIsLoading false
                          (App.handleApiResponse seen_mode seen_upload
                             imageBase64 st0)))
               = Some ("data:image/jpeg;base64," ++ imageBase64))
    as Hstored.
  { intros seen_mode seen_upload imageBase64 st0. split.
    - unfold App.handleApiResponse.
      destruct seen_mode, seen_upload; reflexivity.
    - change (App.history (App.setIsLoading false ?s)) with (App.history s).
      rewrite history_handleApiResponse. reflexivity. }
  split; [|split; [|split; [exact Hreedit|]]].
  - intros seen_mode seen_upload log imageBase64 log' Hprompt Hrun.
    rewrite handleGenerate_cases, (not_blank_truthy _ Hprompt). cbv zeta.
    rewrite Hrun. eexists. split; [reflexivity|]. apply Hstored.
  - intros seen_mode r log uploaded mask imageBase64 log' Hprompt Hup Hmask
      Hrun.
    rewrite handleEdit_cases, (not_blank_truthy _ Hprompt), Hup. cbv zeta.
    rewrite Hmask, Hrun. eexists. split; [reflexivity|]. apply Hstored.
  - intros g st2 seen_mode img r log Hg Hsame Hprompt Hlayer.
    rewrite (Hreedit g Hg) in Hsame.
    destruct (mask_layer_exports plat img r Hlayer) as [mask Hmask].
    rewrite handleEdit_cases, (not_blank_truthy _ Hprompt), Hsame.
    cbv zeta. rewrite Hmask. cbn [App.dataUrl App.mimeType].
    pose proof (editImage_log net (App.prompt st2) (split "," g !! 1%nat)
                  "image/jpeg" mask log) as Hlog.
    destruct (GeminiService.editImage net (App.prompt st2) _ "image/jpeg"
                mask log) as [[imageBase64|err] log'];
      cbn [snd] in *; rewrite Hlog;
      (eexists; split; [reflexivity|]; split; [reflexivity|];
       apply editImage_body_mimeType).
Qed.

Lemma results_stored_and_reedited_as_jpeg_witness :
  let net : GeminiService.network :=
    fun _ =>
      Returned {| GeminiService.status := 200;
                  GeminiService.content :=
                    GeminiService.Json {[ "imageBase64" := "iVBORw0KGgo=" ]} |} in
  let st :=
    App.setIsLoading false
      (App.handleApiResponse App.generate None "iVBORw0KGgo="
         (App.clearState
            (App.setIsLoading true (App.setPrompt "a cat" App.initial)))) in
  let img : App.HTMLImageElement :=
    {| App.naturalWidth := 2; App.naturalHeight := 1;
       App.pixels := [Canvas2D.white; Canvas2D.white] |} in
  let r : App.refs :=
    App.onload img
      (App.mount App.initial_refs) in
  let st2 := App.setPrompt "add a hat" (App.handleReEdit st) in
  exists request,
    snd (App.handleEdit net Canvas2D.supersampling App.edit r st2 [])
    = [request]
    /\ Http.endpoint request = "/api/edit"
    /\ Http.body request !! "mimeType" = Some "image/jpeg".
Proof.
  intros net st img r st2.
  assert (App.reachable net Canvas2D.supersampling st) as Hreach.
  { apply (App.reach_handleGenerate net Canvas2D.supersampling
             App.generate None (App.setPrompt "a cat" App.initial) [] st
             [ {| Http.endpoint := "/api/generate";
                  Http.body := Http.property "prompt" (Some "a cat")
                               ∪ Http.property "aspectRatio" (Some "1:1") |} ]).
    - apply App.reach_setPrompt, App.reach_initial.
    - vm_compute. reflexivity. }
  destruct (results_stored_and_reedited_as_jpeg net Canvas2D.supersampling
              st Hreach) as (_ & _ & _ & Hposts).
  apply (Hposts "data:image/jpeg;base64,iVBORw0KGgo=" st2 App.edit img r []).
  - reflexivity.
  - reflexivity.
  - reflexivity.
  - apply (App.layer_onload _ img _ (Canvas2D.blank 300 150)
             (Canvas2D.blank 300 150)); reflexivity.
Defined.

(** ** Rounding to binary64 *)

Section Rounding.
Import App.
Local Open Scope Q_scope.

Lemma pow2_pos (e : Z) : 0 < pow2 e.
Proof. apply Qpower_0_lt. reflexivity. Qed.

Lemma pow2_plus (a b : Z) : pow2 (a + b) == pow2 a * pow2 b.
Proof. apply Qpower_plus. discriminate. Qed.

Lemma pow2_le (a b : Z) : (a <= b)%Z -> pow2 a <= pow2 b.
Proof. intros H. apply Qpower_le_compat_l; [exact H|]. discriminate. Qed.

Lemma pow2_Z (n : Z) : (0 <= n)%Z -> pow2 n == inject_Z (2 ^ n).
Proof. intros H. symmetry. apply (Zpower_Qpower 2 n H). Qed.

Lemma round_half_even_error (q : Q) :
  Qabs (inject_Z (round_half_even q) - q) <= 1 # 2.
Proof.
  destruct q as [n d]. unfold round_half_even. simpl Qnum. simpl Qden.
  pose proof (Z.div_mod n (Zpos d) ltac:(discriminate)) as Hdiv.
  pose proof (Z.mod_pos_bound n (Zpos d) ltac:(reflexivity)) as Hmod.
  set (f := (n / Zpos d)%Z) in *. set (r := (n mod Zpos d)%Z) in *.
  apply Qabs_Qle_condition.
  assert (forall m : Z,
            (2 * Z.abs (m * Zpos d - n) <= Zpos d)%Z ->
            - (1 # 2) <= inject_Z m - (n # d) <= 1 # 2) as Hclose.
  { intros m Hm. unfold Qle, Qminus, Qplus, Qopp, inject_Z. simpl.
    split; nia. }
  apply Hclose.
  destruct (Z.compare_spec (2 * r) (Zpos d)) as [Heq|Hlt|Hgt].
  - destruct (Z.even f); nia.
  - nia.
  - nia.
Qed.

Lemma exponent_le (a : Q) : 0 < a -> pow2 (exponent a) <= a.
Proof.
  intros Ha. unfold exponent.
  set (ln := Z.log2 (Qnum a)). set (ld := Z.log2 (Zpos (Qden a))).
  destruct (Qle_bool (pow2 (ln - ld)) a) eqn:Hk; [apply Qle_bool_iff, Hk|].
  clear Hk.
  assert (0 < Qnum a)%Z as Hn by (unfold Qlt in Ha; simpl in Ha; lia).
  destruct (Z.log2_spec (Qnum a) Hn) as [Hn1 _].
  destruct (Z.log2_spec (Zpos (Qden a)) ltac:(reflexivity)) as [_ Hd2].
  pose proof (Z.log2_nonneg (Qnum a)) as Hln.
  pose proof (Z.log2_nonneg (Zpos (Qden a))) as Hld.
  fold ln in Hn1, Hln. fold ld in Hd2, Hld.
  assert (pow2 (ln - ld - 1) * pow2 (ld + 1) == pow2 ln) as Hsplit.
  { rewrite <- pow2_plus.
    replace (ln - ld - 1 + (ld + 1))%Z with ln by lia. reflexivity. }
  rewrite (pow2_Z (ld + 1)) in Hsplit by lia.
  rewrite (pow2_Z ln) in Hsplit by lia.
  assert (inject_Z (2 ^ ln) <= inject_Z (Qnum a)) as H1
    by (rewrite <- Zle_Qle; exact Hn1).
  assert (inject_Z (Zpos (Qden a)) <= inject_Z (2 ^ (ld + 1))) as H2
    by (rewrite <- Zle_Qle; lia).
  assert (0 < inject_Z (Zpos (Qden a))) as Hdpos by reflexivity.
  assert (a * inject_Z (Zpos (Qden a)) == inject_Z (Qnum a)) as Hnd.
  { unfold Qeq, Qmult, inject_Z. simpl. lia. }
  pose proof (pow2_pos (ln - ld - 1)) as Hp.
  set (x := pow2 (ln - ld - 1)) in *.
  set (D := inject_Z (Zpos (Qden a))) in *.
  set (P := inject_Z (2 ^ (ld + 1))) in *.
  assert (x * D <= x * P) as H3 by (apply Qmult_le_l; assumption).
  assert (x * D <= a * D) as H4 by (rewrite Hnd; lra).
  apply Qmult_le_r in H4; assumption.
Qed.

Lemma binary64_zero : binary64 0 = Finite 0.
Proof. reflexivity. Qed.

(** Rounding to binary64 in the normal range: the result is finite and
    within the relative error 2^-53. *)
Lemma binary64_relative (q : Q) :
  pow2 (-1022) <= Qabs q -> Qabs q <= pow2 1023 ->
  exists q',
    binary64 q = Finite q'
    /\ Qabs (q' - q) <= pow2 (-53) * Qabs q.
Proof.
  intros Hlow Hhigh. unfold binary64.
  assert (0 < Qabs q) as Ha
    by (eapply Qlt_le_trans; [apply (pow2_pos (-1022)) | exact Hlow]).
  destruct (Qeq_bool q 0) eqn:Hzero.
  { apply Qeq_bool_iff in Hzero. rewrite Hzero in Ha. discriminate Ha. }
  set (a := Qabs q) in *.
  set (e := Z.max (exponent a) (-1022)).
  assert (pow2 e <= a) as He.
  { subst e. destruct (Z.max_spec (exponent a) (-1022)) as [[_ ->] | [_ ->]];
      [exact Hlow | apply exponent_le, Ha]. }
  set (ulp := pow2 (e - 52)).
  assert (0 < ulp) as Hulp by apply pow2_pos.
  set (m := round_half_even (a / ulp)).
  pose proof (round_half_even_error (a / ulp)) as Hm. fold m in Hm.
  set (v := inject_Z m * ulp).
  assert (Qabs (v - a) <= pow2 (-53) * a) as Hv.
  { assert (v - a == (inject_Z m - a / ulp) * ulp) as ->
      by (subst v; field; lra).
    rewrite Qabs_Qmult, (Qabs_pos ulp) by lra.
    assert (ulp * (1 # 2) == pow2 (-53) * pow2 e) as Hhalf.
    { subst ulp. rewrite <- pow2_plus.
      replace (-53 + e)%Z with ((e - 52) + (-1))%Z by lia.
      rewrite pow2_plus. reflexivity. }
    assert (Qabs (inject_Z m - a / ulp) * ulp <= (1 # 2) * ulp) as H1
      by (apply Qmult_le_r; assumption).
    assert (pow2 (-53) * pow2 e <= pow2 (-53) * a) as H2
      by (apply Qmult_le_l; [apply pow2_pos | exact He]).
    lra. }
  assert (v < pow2 1024) as Hfinite.
  { apply Qabs_Qle_condition in Hv.
    assert (pow2 (-53) * a <= a) as H1.
    { assert (pow2 (-53) <= 1) as H53 by (vm_compute; discriminate).
      rewrite <- (Qmult_1_l a) at 2. apply Qmult_le_r; assumption. }
    assert (pow2 1023 + pow2 1023 == pow2 1024) as H2.
    { change 1024%Z with (1 + 1023)%Z. rewrite pow2_plus.
      change (pow2 1) with 2. ring. }
    assert (0 < pow2 1023) as H3 by apply pow2_pos.
    assert (pow2 (-53) * a < a).
    { assert (pow2 (-53) < 1) as H53 by reflexivity.
      rewrite <- (Qmult_1_l a) at 2. apply Qmult_lt_r; assumption. }
    lra. }
  destruct (Qle_bool (pow2 1024) v) eqn:Hover.
  { apply Qle_bool_iff in Hover. lra. }
  eexists. split; [reflexivity|].
  rewrite Qred_correct.
  destruct (Qle_bool 0 q) eqn:Hsign.
  - apply Qle_bool_iff in Hsign.
    assert (a == q) as Haq by (subst a; apply Qabs_pos, Hsign).
    rewrite <- Haq. exact Hv.
  - assert (q < 0) as Hneg.
    { apply Qnot_le_lt. intros H. apply Qle_bool_iff in H. congruence. }
    assert (a == - q) as Haq by (subst a; apply Qabs_neg; lra).
    assert (- v - q == - (v - a)) as -> by (rewrite Haq; ring).
    rewrite Qabs_opp. exact Hv.
Qed.

Lemma binary64_eq_zero (q : Q) : q == 0 -> binary64 q = Finite 0.
Proof.
  intros H. unfold binary64. apply Qeq_bool_iff in H. rewrite H. reflexivity.
Qed.

(** Rounding a number that is zero or of moderate size. *)
Lemma binary64_between (q : Q) (lo hi : Z) :
  (-1022 <= lo)%Z -> (hi <= 1023)%Z ->
  q == 0 \/ pow2 lo <= Qabs q <= pow2 hi ->
  exists q',
    binary64 q = Finite q'
    /\ Qabs (q' - q) <= pow2 (-53) * Qabs q
    /\ (q' == 0 \/ pow2 (lo - 1) <= Qabs q' <= pow2 (hi + 1)).
Proof.
  intros Hlo Hhi [Hzero | [Hlow Hhigh]].
  - exists 0. split; [apply binary64_eq_zero, Hzero|].
    split; [|left; reflexivity].
    rewrite Hzero. vm_compute. discriminate.
  - destruct (binary64_relative q) as (q' & Hq' & Herr).
    + eapply Qle_trans; [apply (pow2_le (-1022) lo Hlo) | exact Hlow].
    + eapply Qle_trans; [exact Hhigh | apply (pow2_le hi 1023 Hhi)].
    + exists q'. split; [exact Hq'|]. split; [exact Herr|]. right.
      assert (pow2 (-53) <= 1 # 2) as H53 by (vm_compute; discriminate).
      assert (0 <= pow2 (-53)) as H53' by (vm_compute; discriminate).
      assert (0 < pow2 lo) as Hplo by apply pow2_pos.
      assert (pow2 (lo - 1) == pow2 lo * (1 # 2)) as ->
        by (unfold Z.sub; rewrite pow2_plus; reflexivity).
      assert (pow2 (hi + 1) == pow2 hi * 2) as ->
        by (rewrite pow2_plus; reflexivity).
      assert (pow2 (-53) * Qabs q <= (1 # 2) * Qabs q) as Hhalf
        by (apply Qmult_le_r; lra).
      pose proof (Qabs_triangle (q' - q) q) as Hup.
      assert (q' - q + q == q') as Hq1 by ring. rewrite Hq1 in Hup.
      pose proof (Qabs_triangle (q - q') q') as Hdown.
      assert (q - q' + q' == q) as Hq2 by ring. rewrite Hq2 in Hdown.
      assert (Qabs (q - q') == Qabs (q' - q)) as Hsym
        by (rewrite <- Qabs_opp; apply Qabs_wd; ring).
      rewrite Hsym in Hdown. split; lra.
Qed.

(** The exponent is the one of its description. *)
Lemma exponent_lt (a : Q) : 0 < a -> a < pow2 (exponent a + 1).
Proof.
  intros Ha. unfold exponent.
  set (ln := Z.log2 (Qnum a)). set (ld := Z.log2 (Zpos (Qden a))).
  destruct (Qle_bool (pow2 (ln - ld)) a) eqn:Hk.
  - clear Hk.
    assert (0 < Qnum a)%Z as Hn by (unfold Qlt in Ha; simpl in Ha; lia).
    destruct (Z.log2_spec (Qnum a) Hn) as [_ Hn2].
    destruct (Z.log2_spec (Zpos (Qden a)) ltac:(reflexivity)) as [Hd1 _].
    pose proof (Z.log2_nonneg (Qnum a)) as Hln.
    pose proof (Z.log2_nonneg (Zpos (Qden a))) as Hld.
    fold ln in Hn2, Hln. fold ld in Hd1, Hld.
    assert (pow2 (ln - ld + 1) * pow2 ld == pow2 (ln + 1)) as Hsplit.
    { rewrite <- pow2_plus.
      replace (ln - ld + 1 + ld)%Z with (ln + 1)%Z by lia. reflexivity. }
    rewrite (pow2_Z ld) in Hsplit by lia.
    rewrite (pow2_Z (ln + 1)) in Hsplit by lia.
    assert (inject_Z (Qnum a) < inject_Z (2 ^ (ln + 1))) as H1
      by (rewrite <- Zlt_Qlt; lia).
    assert (inject_Z (2 ^ ld) <= inject_Z (Zpos (Qden a))) as H2
      by (rewrite <- Zle_Qle; exact Hd1).
    assert (0 < inject_Z (Zpos (Qden a))) as Hdpos by reflexivity.
    assert (a * inject_Z (Zpos (Qden a)) == inject_Z (Qnum a)) as Hnd.
    { unfold Qeq, Qmult, inject_Z. simpl. lia. }
    pose proof (pow2_pos (ln - ld + 1)) as Hp.
    set (x := pow2 (ln - ld + 1)) in *.
    set (D := inject_Z (Zpos (Qden a))) in *.
    set (P := inject_Z (2 ^ ld)) in *.
    assert (x * P <= x * D) as H3 by (apply Qmult_le_l; assumption).
    assert (a * D < x * D) as H4 by (rewrite Hnd; lra).
    apply Qmult_lt_r in H4; assumption.
  - replace (ln - ld - 1 + 1)%Z with (ln - ld)%Z by lia.
    apply Qnot_le_lt. intros H. apply Qle_bool_iff in H. congruence.
Qed.

(** On these examples [binary64] gives what the kernel's binary64 gives:
    the two products of the coordinate example below, quotients that do
    not end, a difference, divisions by zero, quotients among the
    subnormal numbers, and products at the largest numbers and beyond. *)
Lemma binary64_agrees_with_the_kernel :
  of_float (PrimFloat.mul (PrimFloat.sub (float_of_Z 103) (float_of_Z 0))
              (PrimFloat.div (float_of_Z 1000) (float_of_Z 206)))
  = number_mul (number_sub 103 0) (number_div 1000 206)
  /\ of_float (PrimFloat.mul (PrimFloat.sub (float_of_Z 100) (float_of_Z 0))
                 (PrimFloat.div (float_of_Z 1000) (float_of_Z 200)))
     = number_mul (number_sub 100 0) (number_div 1000 200)
  /\ of_float (PrimFloat.div (float_of_Z 1) (float_of_Z 3)) = number_div 1 3
  /\ of_float (PrimFloat.div (float_of_Z 1) (float_of_Z 10))
     = number_div 1 10
  /\ of_float (PrimFloat.sub (float_of_Z 7) (float_of_Z 9)) = number_sub 7 9
  /\ of_float (PrimFloat.div (float_of_Z 1) (float_of_Z 0)) = number_div 1 0
  /\ of_float (PrimFloat.div (float_of_Z 0) (float_of_Z 0)) = number_div 0 0
  /\ of_float (PrimFloat.div (float_pow2 (-1054)) (float_of_Z 3))
     = number_div (pow2 (-1054)) 3
  /\ of_float (PrimFloat.div (float_pow2 (-1070)) (float_of_Z 7))
     = number_div (pow2 (-1070)) 7
  /\ of_float (PrimFloat.div (float_pow2 (-1074)) (float_of_Z 2))
     = number_div (pow2 (-1074)) 2
  /\ of_float (PrimFloat.mul (float_pow2 992) (float_of_Z 4294967295))
     = number_mul (Finite (pow2 992)) (Finite 4294967295)
  /\ of_float (PrimFloat.mul (float_pow2 992) (float_of_Z 4294967296))
     = number_mul (Finite (pow2 992)) (Finite 4294967296)
  /\ of_float (PrimFloat.mul (float_pow2 971)
                 (float_of_Z 9007199254740991))
     = number_mul (Finite (pow2 971)) (Finite 9007199254740991).
Proof. vm_compute. repeat split; reflexivity. Qed.

(** Three roundings in a row: the product of two rounded factors,
    rounded, is within 2^-51 of the exact product. *)
Lemma near_product (d d' s s' x : Q) :
  Qabs (d' - d) <= pow2 (-53) * Qabs d ->
  Qabs (s' - s) <= pow2 (-53) * Qabs s ->
  Qabs (x - d' * s') <= pow2 (-53) * Qabs (d' * s') ->
  near x (d * s).
Proof.
  intros Hd Hs Hx. unfold near.
  rewrite !Qabs_Qmult in *.
  pose proof (Qabs_nonneg d) as HA. pose proof (Qabs_nonneg s) as HB.
  pose proof (Qabs_nonneg (d' - d)) as Ha.
  pose proof (Qabs_nonneg (s' - s)) as Hb.
  assert (Qabs d' <= Qabs d + Qabs (d' - d)) as Hd'.
  { pose proof (Qabs_triangle (d' - d) d) as H.
    assert (d' - d + d == d') as E by ring. rewrite E in H. lra. }
  assert (Qabs s' <= Qabs s + Qabs (s' - s)) as Hs'.
  { pose proof (Qabs_triangle (s' - s) s) as H.
    assert (s' - s + s == s') as E by ring. rewrite E in H. lra. }
  assert (Qabs (x - d * s)
          <= Qabs (x - d' * s') + Qabs (d' - d) * Qabs s'
             + Qabs d * Qabs (s' - s)) as Htri.
  { assert (x - d * s == (x - d' * s') + ((d' - d) * s' + d * (s' - s)))
      as -> by ring.
    eapply Qle_trans; [apply Qabs_triangle|].
    rewrite <- Qplus_assoc. apply Qplus_le_r.
    eapply Qle_trans; [apply Qabs_triangle|].
    rewrite !Qabs_Qmult. lra. }
  pose proof (Qabs_nonneg d') as HA'. pose proof (Qabs_nonneg s') as HB'.
  pose proof (Qabs_nonneg (x - d' * s')) as Hc.
  set (A := Qabs d) in *. set (B := Qabs s) in *.
  set (A' := Qabs d') in *. set (B' := Qabs s') in *.
  set (a := Qabs (d' - d)) in *. set (b := Qabs (s' - s)) in *.
  set (c := Qabs (x - d' * s')) in *.
  set (g := Qabs (x - d * s)) in *.
  change (pow2 (-53)) with (1 # 9007199254740992) in *.
  change (pow2 (-51)) with (1 # 2251799813685248).
  clearbody A B A' B' a b c g.
  nra.
Qed.

End Rounding.

(** ** Pointer coordinates *)

Section Coordinates.
Import Canvas2D App.
Local Open Scope Q_scope.

(** One axis of [getCanvasCoords]: the offset, rounded, times the scale,
    rounded, and the product rounded. *)
Lemma axis_near (client edge displayed : Q) (backing : N) :
  moderate (client - edge) ->
  pow2 (-64) <= displayed <= pow2 64 ->
  (backing < 4294967296)%N ->
  exists x,
    number_mul (number_sub client edge)
      (number_div (inject_Z (Z.of_N backing)) displayed)
    = Finite x
    /\ near x ((client - edge) / displayed * inject_Z (Z.of_N backing)).
Proof.
  intros Hoffset [Hlow Hhigh] Hbacking.
  set (d := client - edge) in *.
  set (W := inject_Z (Z.of_N backing)).
  assert (0 < displayed) as Hpos
    by (eapply Qlt_le_trans; [apply (pow2_pos (-64)) | exact Hlow]).
  assert (W == 0 \/ 1 <= W <= pow2 32) as HW.
  { subst W. destruct (N.eq_dec backing 0%N) as [-> | Hne];
      [left; reflexivity | right].
    rewrite (pow2_Z 32) by lia. split.
    - change 1 with (inject_Z 1). rewrite <- Zle_Qle. lia.
    - rewrite <- Zle_Qle. change (2 ^ 32)%Z with 4294967296%Z. lia. }
  set (s := W / displayed).
  assert (s * displayed == W) as Hs by (subst s; field; lra).
  assert (s == 0 \/ pow2 (-64) <= Qabs s <= pow2 96) as Hscale.
  { destruct HW as [HW | [HW1 HW2]].
    - left. subst s. rewrite HW. field. lra.
    - right.
      assert (0 < s) as Hspos.
      { subst s. apply Qlt_shift_div_l; [exact Hpos | lra]. }
      rewrite (Qabs_pos s) by lra.
      change (pow2 (-64)) with (1 # 18446744073709551616) in *.
      change (pow2 64) with (18446744073709551616 # 1) in *.
      change (pow2 32) with (4294967296 # 1) in *.
      change (pow2 96) with (79228162514264337593543950336 # 1).
      clearbody s W. split; nra. }
  unfold number_sub, number_div. fold d.
  assert (Qeq_bool displayed 0 = false) as ->.
  { destruct (Qeq_bool displayed 0) eqn:H; [|reflexivity].
    apply Qeq_bool_iff in H. lra. }
  fold W. fold s.
  destruct (binary64_between d (-64) 64 ltac:(lia) ltac:(lia) Hoffset)
    as (d' & -> & Hd & Hd').
  destruct (binary64_between s (-64) 96 ltac:(lia) ltac:(lia) Hscale)
    as (s' & -> & Hsr & Hs').
  unfold number_mul.
  assert (d' * s' == 0 \/ pow2 (-130) <= Qabs (d' * s') <= pow2 162)
    as Hproduct.
  { destruct Hd' as [Hd' | Hd']; [left; rewrite Hd'; ring|].
    destruct Hs' as [Hs' | Hs']; [left; rewrite Hs'; ring|].
    right. rewrite Qabs_Qmult.
    pose proof (Qabs_nonneg d') as HA. pose proof (Qabs_nonneg s') as HB.
    set (A := Qabs d') in *. set (B := Qabs s') in *.
    change (pow2 (-64 - 1)) with (1 # 36893488147419103232) in *.
    change (pow2 (64 + 1)) with (36893488147419103232 # 1) in *.
    change (pow2 (96 + 1)) with (158456325028528675187087900672 # 1) in *.
    change (pow2 (-130))
      with (1 # 1361129467683753853853498429727072845824).
    change (pow2 162)
      with (5846006549323611672814739330865132078623730171904 # 1).
    clearbody A B. split; nra. }
  destruct (binary64_between (d' * s') (-130) 162 ltac:(lia) ltac:(lia)
              Hproduct) as (x & -> & Hx & _).
  exists x. split; [reflexivity|].
  pose proof (near_product d d' s s' x Hd Hsr Hx) as Hnear.
  unfold near in *.
  assert (d / displayed * W == d * s) as -> by (subst s; field; lra).
  exact Hnear.
Qed.

End Coordinates.

(** C9, amended.  For a fixed backing resolution, pointers at the same
    place of the displayed canvas (the same fractions of its displayed
    width and height) map, for every display rectangle and by mouse or by
    touch, to raster points that are finite and lie, on each axis by
    itself, within the relative error 2^-51 of the fraction times the
    backing size: the offset from the displayed edge times the ratio of
    the backing size to the displayed size, where each of the three
    operations rounds to binary64.  The sizes are moderate: displayed
    sizes and offsets between 2^-64 and 2^64 (an offset may be zero), a
    backing size below 2^32. *)
Theorem getCanvasCoords_scale_invariant
    (r : App.refs) (c : Canvas2D.canvas) (e1 e2 : App.event) :
  App.drawingCanvas r = Some c ->
  (Canvas2D.width c < 4294967296)%N ->
  (Canvas2D.height c < 4294967296)%N ->
  App.ordinary e1 -> App.ordinary e2 ->
  (App.fraction_x e1 == App.fraction_x e2)%Q ->
  (App.fraction_y e1 == App.fraction_y e2)%Q ->
  exists x1 y1 x2 y2,
    App.getCanvasCoords r e1
    = Some {| Canvas2D.x := Finite x1; Canvas2D.y := Finite y1 |}
    /\ App.getCanvasCoords r e2
       = Some {| Canvas2D.x := Finite x2; Canvas2D.y := Finite y2 |}
    /\ App.near x1
         (App.fraction_x e1 * inject_Z (Z.of_N (Canvas2D.width c)))%Q
    /\ App.near x2
         (App.fraction_x e1 * inject_Z (Z.of_N (Canvas2D.width c)))%Q
    /\ App.near y1
         (App.fraction_y e1 * inject_Z (Z.of_N (Canvas2D.height c)))%Q
    /\ App.near y2
         (App.fraction_y e1 * inject_Z (Z.of_N (Canvas2D.height c)))%Q.
Proof.
  intros Hc Hwidth Hheight (Hw1 & Hh1 & Hx1 & Hy1) (Hw2 & Hh2 & Hx2 & Hy2)
    Hfx Hfy.
  unfold App.getCanvasCoords. rewrite Hc.
  destruct (axis_near _ _ _ _ Hx1 Hw1 Hwidth) as (x1 & -> & Hnx1).
  destruct (axis_near _ _ _ _ Hy1 Hh1 Hheight) as (y1 & -> & Hny1).
  destruct (axis_near _ _ _ _ Hx2 Hw2 Hwidth) as (x2 & -> & Hnx2).
  destruct (axis_near _ _ _ _ Hy2 Hh2 Hheight) as (y2 & -> & Hny2).
  exists x1, y1, x2, y2.
  split; [reflexivity|]. split; [reflexivity|].
  unfold App.near in *.
  split; [exact Hnx1|]. split; [|split; [exact Hny1|]].
  - rewrite Hfx. exact Hnx2.
  - rewrite Hfy. exact Hny2.
Qed.

Lemma getCanvasCoords_scale_invariant_witness :
  let r : App.refs :=
    {| App.imageCanvas := Some (Canvas2D.blank 1000 1);
       App.drawingCanvas := Some (Canvas2D.blank 1000 1);
       App.isDrawing := false; App.lastPos := None |} in
  let small : App.event :=
    {| App.rect := {| App.left := 10; App.top := 20;
                      App.rect_width := 200; App.rect_height := 100 |};
       App.source := App.MouseEvent 110 70 |} in
  let large : App.event :=
    {| App.rect := {| App.left := 0; App.top := 5;
                      App.rect_width := 206; App.rect_height := 500 |};
       App.source :=
         App.TouchEvent {| App.touch_clientX := 103;
                           App.touch_clientY := 255 |} [] |} in
  exists x1 y1 x2 y2,
    App.getCanvasCoords r small
    = Some {| Canvas2D.x := Finite x1; Canvas2D.y := Finite y1 |}
    /\ App.getCanvasCoords r large
       = Some {| Canvas2D.x := Finite x2; Canvas2D.y := Finite y2 |}
    /\ App.near x1 (App.fraction_x small * 1000)%Q
    /\ App.near x2 (App.fraction_x small * 1000)%Q
    /\ (App.fraction_x small * 1000 == 500)%Q.
Proof.
  intros r small large.
  destruct (getCanvasCoords_scale_invariant r (Canvas2D.blank 1000 1)
              small large)
    as (x1 & y1 & x2 & y2 & H1 & H2 & Hx1 & Hx2 & _).
  - reflexivity.
  - reflexivity.
  - reflexivity.
  - repeat split; try (vm_compute; discriminate);
      right; split; vm_compute; discriminate.
  - repeat split; try (vm_compute; discriminate);
      right; split; vm_compute; discriminate.
  - reflexivity.
  - reflexivity.
  - exists x1, y1, x2, y2. split; [exact H1|]. split; [exact H2|].
    split; [exact Hx1|]. split; [exact Hx2 | reflexivity].
Defined.

(** C9 as first stated fails in binary64: the middle of a canvas shown
    200 wide and the middle of the same canvas shown 206 wide, for a
    backing width of 1000, map to 500 and to 500 - 2^-44, which lie in
    different pixel columns. *)
Lemma getCanvasCoords_scale_invariant_counterexample :
  let r : App.refs :=
    {| App.imageCanvas := Some (Canvas2D.blank 1000 1);
       App.drawingCanvas := Some (Canvas2D.blank 1000 1);
       App.isDrawing := false; App.lastPos := None |} in
  let shown_200 : App.event :=
    {| App.rect := {| App.left := 0; App.top := 0;
                      App.rect_width := 200; App.rect_height := 100 |};
       App.source := App.MouseEvent 100 50 |} in
  let shown_206 : App.event :=
    {| App.rect := {| App.left := 0; App.top := 0;
                      App.rect_width := 206; App.rect_height := 100 |};
       App.source := App.MouseEvent 103 50 |} in
  (App.fraction_x shown_200 == App.fraction_x shown_206)%Q
  /\ (App.fraction_y shown_200 == App.fraction_y shown_206)%Q
  /\ App.getCanvasCoords r shown_200
     = Some {| Canvas2D.x := Finite 500; Canvas2D.y := Finite (1 # 2) |}
  /\ App.getCanvasCoords r shown_206
     = Some {| Canvas2D.x := Finite (8796093022207999 # 17592186044416);
               Canvas2D.y := Finite (1 # 2) |}
  /\ Qfloor 500 = 500%Z
  /\ Qfloor (8796093022207999 # 17592186044416) = 499%Z.
Proof.
  intros r shown_200 shown_206.
  split; [reflexivity|]. split; [reflexivity|].
  split; [vm_compute; reflexivity|]. split; [vm_compute; reflexivity|].
  split; reflexivity.
Qed.

(** ** The error bodies of this backend *)

Section BackendErrors.
Import Gemini.

(** The error handler always writes one of four statuses and a message
    that is not empty. *)
Lemma handleApiErrorResponse_shape (error : thrown) :
  exists code message,
    Server.handleApiErrorResponse error = Server.error_response code message
    /\ message <> EmptyString
    /\ (code = 401 \/ code = 429 \/ code = 400 \/ code = 500)%N.
Proof.
  destruct error as [error_message|]; unfold Server.handleApiErrorResponse.
  - destruct (includes error_message "API key not valid");
      [eexists _, _; split; [reflexivity|]; split; [discriminate|]; tauto|].
    destruct (includes error_message "429");
      [eexists _, _; split; [reflexivity|]; split; [discriminate|]; tauto|].
    destruct (startsWith error_message "Image generation failed:") eqn:Hstart;
      [|eexists _, _; split; [reflexivity|]; split; [discriminate|]; tauto].
    eexists _, _. split; [reflexivity|]. split; [|tauto].
    intros ->. discriminate Hstart.
  - eexists _, _. split; [reflexivity|]. split; [discriminate|]. tauto.
Qed.

(** What either route answers: an error with a message, or an image with
    status 200. *)
Lemma route_reply_shape (ai : client) (request : Http.request)
    (response : Http.response) :
  Server.route ai request = Some response ->
  (exists code message,
      response = Server.error_response code message
      /\ message <> EmptyString
      /\ (code = 401 \/ code = 429 \/ code = 400 \/ code = 500)%N)
  \/ (exists bytes, response = Server.image_response bytes).
Proof.
  unfold Server.route.
  destruct (String.eqb (Http.endpoint request) "/api/generate").
  - intros [= <-]. unfold Server.generate.
    destruct (negb (truthy (Http.body request !! "prompt"))
              || negb (truthy (Http.body request !! "aspectRatio")));
      cbn [Server.reply].
    + left. eexists _, _. split; [reflexivity|]. split; [discriminate|]. tauto.
    + destruct (generateImages ai _) as [answer|error];
        [|left; apply handleApiErrorResponse_shape].
      destruct (truthy _);
        [right; eexists; reflexivity
        |left; apply handleApiErrorResponse_shape].
  - destruct (String.eqb (Http.endpoint request) "/api/edit");
      [|discriminate].
    intros [= <-]. unfold Server.edit.
    destruct (negb (truthy (Http.body request !! "prompt"))
              || negb (truthy (Http.body request !! "imageBase64Data"))
              || negb (truthy (Http.body request !! "mimeType")));
      cbn [Server.reply].
    + left. eexists _, _. split; [reflexivity|]. split; [discriminate|]. tauto.
    + destruct (generateContent ai _) as [answer|error];
        [|left; apply handleApiErrorResponse_shape].
      unfold Server.edit_interpret.
      destruct (truthy ((Server.find_imagePart answer ≫= inlineData)
                        ≫= data));
        [right; eexists; reflexivity|].
      destruct (truthy (response_text answer));
        left; apply handleApiErrorResponse_shape.
Qed.

(** What the application sends back, by the size of the body. *)
Lemma app_within_limit (ai : client) (request : Http.request) :
  (Http.content_length (Http.body request) <= Server.json_limit)%N ->
  Server.app ai request
  = match Server.route ai request with
    | Some response => Server.Answer response
    | None => Server.Page 404
    end.
Proof.
  intros Hsize. unfold Server.app.
  apply N.ltb_ge in Hsize. rewrite Hsize. reflexivity.
Qed.

Lemma app_over_limit (ai : client) (request : Http.request) :
  (Server.json_limit < Http.content_length (Http.body request))%N ->
  Server.app ai request = Server.Page 413.
Proof.
  intros Hsize. unfold Server.app.
  apply N.ltb_lt in Hsize. rewrite Hsize. reflexivity.
Qed.

(** Every response of this backend that is not 2xx is the answer of a
    route, with an [error] field that is not empty, or a page of Express,
    which does not parse. *)
Lemma backend_error_shape (ai : client) (request : Http.request)
    (response : GeminiService.fetched) :
  GeminiService.backend ai request = Returned response ->
  GeminiService.ok response = false ->
  (exists message,
      message <> EmptyString
      /\ In (GeminiService.status response) [400; 401; 429; 500]%N
      /\ GeminiService.content response
         = GeminiService.Json {[ "error" := message ]})
  \/ (exists syntax_error,
        In (GeminiService.status response) [404; 413]%N
        /\ GeminiService.content response
           = GeminiService.NotJson syntax_error).
Proof.
  unfold GeminiService.backend, Server.app.
  destruct (Server.json_limit <? Http.content_length (Http.body request))%N;
    [intros [= <-] _; right; eexists; split; [simpl; tauto | reflexivity]|].
  destruct (Server.route ai request) as [answer|] eqn:Hroute;
    [|intros [= <-] _; right; eexists; split; [simpl; tauto | reflexivity]].
  intros [= <-] Hstatus.
  destruct (route_reply_shape ai _ answer Hroute)
    as [(code & message & -> & Hne & Hcode) | (bytes & ->)];
    [|discriminate Hstatus].
  left. exists message. split; [exact Hne|]. split; [|reflexivity].
  simpl. destruct Hcode as [-> | [-> | [-> | ->]]]; tauto.
Qed.

(** A request within the limit reaches its route. *)
Lemma backend_generate (ai : Gemini.client) (body : gmap string string) :
  (Http.content_length body <= Server.json_limit)%N ->
  GeminiService.backend ai
    {| Http.endpoint := "/api/generate"; Http.body := body |}
  = Returned
      {| GeminiService.status :=
           Http.status (Server.reply (Server.generate ai body));
         GeminiService.content :=
           GeminiService.Json
             (Http.json (Server.reply (Server.generate ai body))) |}.
Proof.
  intros Hsize. unfold GeminiService.backend.
  rewrite app_within_limit by exact Hsize. reflexivity.
Qed.

Lemma backend_edit (ai : Gemini.client) (body : gmap string string) :
  (Http.content_length body <= Server.json_limit)%N ->
  GeminiService.backend ai
    {| Http.endpoint := "/api/edit"; Http.body := body |}
  = Returned
      {| GeminiService.status :=
           Http.status (Server.reply (Server.edit ai body));
         GeminiService.content :=
           GeminiService.Json
             (Http.json (Server.reply (Server.edit ai body))) |}.
Proof.
  intros Hsize. unfold GeminiService.backend.
  rewrite app_within_limit by exact Hsize. reflexivity.
Qed.

(** A request over the limit gets the page of the body parser, whatever
    its path, and [fetchApi] throws the generic message. *)
Lemma backend_over_limit (ai : Gemini.client) (endpoint : string)
    (body : gmap string string) (log : list Http.request) :
  (Server.json_limit < Http.content_length body)%N ->
  GeminiService.fetchApi (GeminiService.backend ai) endpoint body log
  = (Threw (Error "An unknown error occurred."),
     (log ++ [ {| Http.endpoint := endpoint; Http.body := body |} ])%list).
Proof.
  intros Hsize.
  rewrite (fetchApi_not_ok (GeminiService.backend ai) endpoint body log
             {| GeminiService.status := 413;
                GeminiService.content :=
                  GeminiService.NotJson "Unexpected token '<'" |}).
  - reflexivity.
  - unfold GeminiService.backend.
    rewrite app_over_limit by exact Hsize. reflexivity.
  - reflexivity.
Qed.

End BackendErrors.

(** C8.  Every response of the backend that is not 2xx either carries, in
    a JSON body, an [error] field, or is a page that does not parse.  In
    the first case the field is not empty and [fetchApi] throws an [Error]
    whose message is exactly that field; in the second it throws
    ["An unknown error occurred."].  An upstream error about an invalid
    API key is answered with status 401 and the field
    ["The provided API key is not valid."]. *)
Theorem backend_error_message_surfaces
    (ai : Gemini.client) (endpoint : string) (body : gmap string string)
    (log : list Http.request) (response : GeminiService.fetched) :
  GeminiService.backend ai {| Http.endpoint := endpoint; Http.body := body |}
  = Returned response ->
  GeminiService.ok response = false ->
  (forall object message,
      GeminiService.content response = GeminiService.Json object ->
      object !! "error" = Some message ->
      message <> EmptyString
      /\ fst (GeminiService.fetchApi (GeminiService.backend ai) endpoint body
                log)
         = Threw (Error message))
  /\ (forall syntax_error,
        GeminiService.content response
        = GeminiService.NotJson syntax_error ->
        fst (GeminiService.fetchApi (GeminiService.backend ai) endpoint body
               log)
        = Threw (Error "An unknown error occurred."))
  /\ ((exists object message,
         GeminiService.content response = GeminiService.Json object
         /\ object !! "error" = Some message)
      \/ exists syntax_error,
           GeminiService.content response
           = GeminiService.NotJson syntax_error)
  /\ (forall upstream,
        includes upstream "API key not valid" = true ->
        Server.handleApiErrorResponse (Error upstream)
        = {| Http.status := 401;
             Http.json :=
               {[ "error" := "The provided API key is not valid." ]} |}).
Proof.
  intros Hnet Hok.
  destruct (fetchApi_throws_on_error_status (GeminiService.backend ai)
              endpoint body log response Hnet Hok)
    as (Hfield & Hpage & _).
  pose proof (backend_error_shape ai _ response Hnet Hok) as Hshape.
  split; [|split; [exact Hpage|split]].
  - intros object message Hobject Hmessage.
    assert (message <> EmptyString) as Hne.
    { destruct Hshape as [(m & Hm & _ & Hcontent) | (e & _ & Hcontent)];
        rewrite Hcontent in Hobject; [|discriminate Hobject].
      injection Hobject as <-.
      rewrite lookup_singleton_eq in Hmessage. congruence. }
    split; [exact Hne|].
    exact (Hfield object message Hobject Hmessage Hne).
  - destruct Hshape as [(m & _ & _ & Hcontent) | (e & _ & Hcontent)].
    + left. exists {[ "error" := m ]}, m.
      split; [exact Hcontent | apply lookup_singleton_eq].
    + right. exists e. exact Hcontent.
  - intros upstream Hkey. unfold Server.handleApiErrorResponse.
    rewrite Hkey. reflexivity.
Qed.

Lemma backend_error_message_surfaces_witness :
  let ai : Gemini.client :=
    {| Gemini.generateContent := fun _ => Threw NotAnError;
       Gemini.generateImages :=
         fun _ => Threw (Error "[400] API key not valid. Pass a valid key.") |} in
  let body : gmap string string :=
    GeminiService.generateImage_body "a cat" "1:1" in
  fst (GeminiService.fetchApi (GeminiService.backend ai) "/api/generate"
         body [])
  = Threw (Error "The provided API key is not valid.").
Proof.
  intros ai body.
  destruct (backend_error_message_surfaces ai "/api/generate" body []
              {| GeminiService.status := 401;
                 GeminiService.content :=
                   GeminiService.Json
                     {[ "error" := "The provided API key is not valid." ]} |})
    as (Hfield & _); [vm_compute; reflexivity | reflexivity |].
  apply (Hfield {[ "error" := "The provided API key is not valid." ]});
    reflexivity.
Defined.

(** ** The history stays within six entries *)

Section HistoryBound.
Import GeminiService App.

(** A handler that awaits the backend leaves the history as it was or
    puts one result before it. *)
Lemma history_handleGenerate (net : network) (seen_mode : EditMode)
    (seen_upload : option UploadedImage) (st st' : state)
    (log log' : list Http.request) :
  handleGenerate net seen_mode seen_upload st log = (Returned st', log') ->
  history st' = history st
  \/ exists imageUrl, history st' = take 6 (imageUrl :: history st).
Proof.
  rewrite handleGenerate_cases. intros Hrun.
  destruct (truthy_string (trim (prompt st)));
    [|injection Hrun as <- <-; left; reflexivity].
  cbv zeta in Hrun.
  destruct (generateImage net (prompt st) (aspectRatio st) log)
    as [[imageBase64|err] l]; injection Hrun as <- <-;
    [|left; reflexivity].
  right. eexists.
  change (history (setIsLoading false ?s)) with (history s).
  rewrite history_handleApiResponse. reflexivity.
Qed.

Lemma history_handleEdit (net : network) (plat : Canvas2D.platform)
    (seen_mode : EditMode) (r : refs) (st st' : state)
    (log log' : list Http.request) :
  handleEdit net plat seen_mode r st log = (Returned st', log') ->
  history st' = history st
  \/ exists imageUrl, history st' = take 6 (imageUrl :: history st).
Proof.
  rewrite handleEdit_cases. intros Hrun.
  destruct (truthy_string (trim (prompt st)));
    [|injection Hrun as <- <-; left; reflexivity].
  destruct (uploadedImage st) as [uploaded|];
    [|injection Hrun as <- <-; left; reflexivity].
  cbv zeta in Hrun.
  destruct (getMaskAsBase64 plat r) as [maskBase64Data|err];
    [|injection Hrun as <- <-; left; reflexivity].
  destruct (editImage net (prompt st) _ (mimeType uploaded) maskBase64Data log)
    as [[imageBase64|err] l]; injection Hrun as <- <-;
    [|left; reflexivity].
  right. eexists.
  change (history (setIsLoading false ?s)) with (history s).
  rewrite history_handleApiResponse. reflexivity.
Qed.

Lemma history_processFile (file : File) (st : state) :
  history (processFile file st) = history st.
Proof.
  unfold processFile.
  destruct (negb (existsb (String.eqb (type file)) allowedTypes));
    [reflexivity|].
  destruct (maxSizeInBytes <? size file)%N; [reflexivity|].
  destruct (readAsDataURL file); reflexivity.
Qed.

Lemma history_handleReEdit (st : state) :
  history (handleReEdit st) = history st.
Proof.
  rewrite handleReEdit_cases.
  destruct (generatedImage st) as [g|]; [|reflexivity].
  destruct (truthy_string g); reflexivity.
Qed.

(** No state the component reaches has more than six entries in its
    history. *)
Lemma reachable_history_bounded (net : network)
    (plat : Canvas2D.platform) (st : state) :
  reachable net plat st -> (length (history st) <= 6)%nat.
Proof.
  induction 1 as
    [ | v st _ IH | v st _ IH | v st _ IH | v st _ IH | v st _ IH
      | file st _ IH | st _ IH | imgSrc st _ IH Hin | st _ IH
      | seen_mode seen_upload st log st' log' _ IH Hrun
      | seen_mode r st log st' log' _ IH Hrun ];
    try exact IH.
  - simpl. lia.
  - rewrite history_processFile. exact IH.
  - rewrite history_handleReEdit. exact IH.
  - destruct (history_handleGenerate _ _ _ _ _ _ _ Hrun) as [-> | [url ->]];
      [exact IH | rewrite length_take; lia].
  - destruct (history_handleEdit _ _ _ _ _ _ _ _ Hrun) as [-> | [url ->]];
      [exact IH | rewrite length_take; lia].
Qed.

End HistoryBound.

(** C6.  When a result arrives, the history becomes the new result put
    before the previous entries and cut to six: it never has more than six
    entries, the latest result is its head and the earlier entries follow
    in their order; with six entries already there, the seventh result
    pushes the oldest (the last) out.  From the initial state, after any
    run of results the history is the last six of them, the latest
    first, and no state the component reaches has a history of more than
    six entries. *)
Theorem history_bounded_most_recent_first
    (seen_mode : App.EditMode) (seen_upload : option App.UploadedImage)
    (imageBase64 : string) (st : App.state) :
  let imageUrl := "data:image/jpeg;base64," ++ imageBase64 in
  let updated :=
    App.history (App.handleApiResponse seen_mode seen_upload imageBase64 st) in
  updated = take 6 (imageUrl :: App.history st)
  /\ updated = imageUrl :: take 5 (App.history st)
  /\ (length updated <= 6)%nat
  /\ (forall kept oldest,
        App.history st = (kept ++ [oldest])%list -> length kept = 5%nat ->
        updated = imageUrl :: kept)
  /\ (forall answers,
        App.history (App.after_answers answers App.initial)
        = take 6 (rev ((fun a => "data:image/jpeg;base64," ++ a.2)
                       <$> answers)))
  /\ (forall net plat reached,
        App.reachable net plat reached ->
        (length (App.history reached) <= 6)%nat).
Proof.
  intros imageUrl updated. subst imageUrl updated.
  rewrite history_handleApiResponse.
  split; [reflexivity|]. split; [reflexivity|].
  split; [rewrite length_take; lia|].
  split; [|split].
  - intros kept oldest -> Hkept. simpl. f_equal.
    rewrite take_app_le by lia. apply take_ge. lia.
  - intros answers.
    rewrite history_after_answers by (simpl; lia).
    simpl App.history. rewrite app_nil_r. reflexivity.
  - apply reachable_history_bounded.
Qed.

Lemma history_bounded_most_recent_first_witness :
  let six :=
    App.after_answers
      [ (App.generate, None, "r1"); (App.generate, None, "r2");
        (App.generate, None, "r3"); (App.generate, None, "r4");
        (App.generate, None, "r5"); (App.generate, None, "r6") ]
      App.initial in
  App.history (App.handleApiResponse App.generate None "r7" six)
  = [ "data:image/jpeg;base64,r7"; "data:image/jpeg;base64,r6";
      "data:image/jpeg;base64,r5"; "data:image/jpeg;base64,r4";
      "data:image/jpeg;base64,r3"; "data:image/jpeg;base64,r2" ].
Proof.
  intros six.
  destruct (history_bounded_most_recent_first App.generate None "r7" six)
    as (_ & _ & _ & Hevict & _ & _).
  apply (Hevict
           [ "data:image/jpeg;base64,r6"; "data:image/jpeg;base64,r5";
             "data:image/jpeg;base64,r4"; "data:image/jpeg;base64,r3";
             "data:image/jpeg;base64,r2" ]
           "data:image/jpeg;base64,r1"); reflexivity.
Defined.

(** * Further properties of the sources *)

(** ** The backend routes *)

Section BackendRoutes.
Import Gemini.

(** The parameters of the one call of the generation route. *)
Lemma generate_calls (ai : client) (body : gmap string string) :
  Server.calls (Server.generate ai body)
  = if truthy (body !! "prompt") && truthy (body !! "aspectRatio")
    then [ {| images_model := "imagen-4.0-generate-001";
              prompt := Server.toString (body !! "prompt");
              numberOfImages := 1;
              outputMimeType := "image/jpeg";
              aspectRatio := Server.toString (body !! "aspectRatio") |} ]
    else [].
Proof.
  unfold Server.generate.
  destruct (truthy (body !! "prompt")), (truthy (body !! "aspectRatio"));
    reflexivity.
Qed.

Lemma generate_reply (ai : client) (body : gmap string string)
    (params : GenerateImagesParameters) :
  Server.calls (Server.generate ai body) = [params] ->
  Server.reply (Server.generate ai body)
  = match generateImages ai params with
    | Threw error => Server.handleApiErrorResponse error
    | Returned response =>
        let bytes : option string :=
          ((generatedImages response ≫= head) ≫= image) ≫= imageBytes in
        if truthy bytes then Server.image_response bytes
        else Server.handleApiErrorResponse
               (Error "No image data received from the API.")
    end.
Proof.
  unfold Server.generate.
  destruct (negb (truthy (body !! "prompt"))
            || negb (truthy (body !! "aspectRatio")));
    cbn [Server.calls Server.reply]; [discriminate|].
  intros [= <-]. reflexivity.
Qed.

(** [find] stops at the first part that has inline data. *)
Lemma find_first_inline (before after : list Part) (part : Part) :
  Forall (fun p => Server.has_inline_data p = false) before ->
  Server.has_inline_data part = true ->
  List.find Server.has_inline_data (before ++ part :: after) = Some part.
Proof.
  intros Hbefore Hpart.
  induction Hbefore as [|p before Hp _ IH]; simpl.
  - rewrite Hpart. reflexivity.
  - rewrite Hp. exact IH.
Qed.

(** An answer of either route is an image or an error. *)
Lemma handleApiErrorResponse_answers_error (error : thrown) :
  Server.answers_error (Server.handleApiErrorResponse error).
Proof.
  destruct (handleApiErrorResponse_shape error)
    as (code & message & -> & Hne & Hcode).
  split.
  - simpl. destruct Hcode as [-> | [-> | [-> | ->]]]; simpl; tauto.
  - exists message. split; [exact Hne | reflexivity].
Qed.

Lemma image_response_answers_image (bytes : option string) :
  truthy bytes = true -> Server.answers_image (Server.image_response bytes).
Proof.
  intros H. apply truthy_Some in H as (b & -> & Hne).
  split; [reflexivity|]. exists b. split; [exact Hne | reflexivity].
Qed.

End BackendRoutes.

(** X1.  Neither route calls the external model for an incomplete
    request: when a required field is missing or empty the answer is 400
    with the message of the route and no call is made; when the required
    fields are there the model is called exactly once. *)
Theorem routes_validate_before_calling_the_model
    (ai : Gemini.client) (body : gmap string string) :
  (truthy (body !! "prompt") && truthy (body !! "aspectRatio") = false ->
   Server.generate ai body
   = {| Server.calls := [];
        Server.reply :=
          {| Http.status := 400;
             Http.json :=
               {[ "error" := "Prompt and aspect ratio are required." ]} |} |})
  /\ (truthy (body !! "prompt") && truthy (body !! "aspectRatio") = true ->
      length (Server.calls (Server.generate ai body)) = 1%nat)
  /\ (truthy (body !! "prompt") && truthy (body !! "imageBase64Data")
      && truthy (body !! "mimeType") = false ->
      Server.edit ai body
      = {| Server.calls := [];
           Server.reply :=
             {| Http.status := 400;
                Http.json :=
                  {[ "error" :=
                       "Prompt, image data, and mimeType are required." ]} |} |})
  /\ (truthy (body !! "prompt") && truthy (body !! "imageBase64Data")
      && truthy (body !! "mimeType") = true ->
      length (Server.calls (Server.edit ai body)) = 1%nat).
Proof.
  split; [|split; [|split]].
  - intros H. unfold Server.generate.
    rewrite <- negb_andb, H. reflexivity.
  - intros H. rewrite generate_calls, H. reflexivity.
  - intros H. unfold Server.edit.
    rewrite <- !negb_andb, H. reflexivity.
  - intros H. rewrite edit_calls, H. reflexivity.
Qed.

Lemma routes_validate_before_calling_the_model_witness :
  let ai : Gemini.client :=
    {| Gemini.generateContent := fun _ => Threw NotAnError;
       Gemini.generateImages := fun _ => Threw NotAnError |} in
  Server.calls (Server.generate ai {[ "prompt" := "a cat" ]}) = []
  /\ Server.calls
       (Server.edit ai {[ "prompt" := "a hat"; "mimeType" := "image/png" ]})
     = [].
Proof.
  intros ai.
  destruct (routes_validate_before_calling_the_model ai
              {[ "prompt" := "a cat" ]}) as (Hgenerate & _).
  destruct (routes_validate_before_calling_the_model ai
              {[ "prompt" := "a hat"; "mimeType" := "image/png" ]})
    as (_ & _ & Hedit & _).
  rewrite Hgenerate, Hedit by reflexivity. split; reflexivity.
Defined.

(** X2.  The generation route asks the model for one JPEG image with the
    prompt and the aspect ratio of the request as they came.  It answers
    200 with the bytes of the first image the model returns, and 500 with
    the generic message when there is no first image or it has no bytes;
    an error of the model goes through the error handler. *)
Theorem generate_route_outcome
    (ai : Gemini.client) (body : gmap string string)
    (text ratio : string) :
  body !! "prompt" = Some text -> text <> EmptyString ->
  body !! "aspectRatio" = Some ratio -> ratio <> EmptyString ->
  let params :=
    {| Gemini.images_model := "imagen-4.0-generate-001";
       Gemini.prompt := text;
       Gemini.numberOfImages := 1;
       Gemini.outputMimeType := "image/jpeg";
       Gemini.aspectRatio := ratio |} in
  Server.calls (Server.generate ai body) = [params]
  /\ (forall response first others bytes,
        Gemini.generateImages ai params = Returned response ->
        Gemini.generatedImages response = Some (first :: others) ->
        Gemini.image first = Some {| Gemini.imageBytes := Some bytes |} ->
        bytes <> EmptyString ->
        Server.reply (Server.generate ai body)
        = {| Http.status := 200;
             Http.json := {[ "imageBase64" := bytes ]} |})
  /\ (forall response,
        Gemini.generateImages ai params = Returned response ->
        truthy (((Gemini.generatedImages response ≫= head) ≫= Gemini.image)
                ≫= Gemini.imageBytes) = false ->
        Server.reply (Server.generate ai body)
        = {| Http.status := 500;
             Http.json :=
               {[ "error" :=
                    "Failed to process request due to an API error." ]} |})
  /\ (forall error,
        Gemini.generateImages ai params = Threw error ->
        Server.reply (Server.generate ai body)
        = Server.handleApiErrorResponse error).
Proof.
  intros Htext Hne_text Hratio Hne_ratio params.
  assert (Server.calls (Server.generate ai body) = [params]) as Hcalls.
  { rewrite generate_calls, Htext, Hratio.
    rewrite (truthy_Some_intro _ Hne_text), (truthy_Some_intro _ Hne_ratio).
    reflexivity. }
  split; [exact Hcalls|].
  rewrite (generate_reply ai body params Hcalls).
  split; [|split].
  - intros response first others bytes -> Himages Himage Hbytes.
    cbv zeta. rewrite Himages. simpl. rewrite Himage. simpl.
    apply truthy_string_iff in Hbytes. rewrite Hbytes. reflexivity.
  - intros response -> Hnone. cbv zeta. rewrite Hnone. reflexivity.
  - intros error ->. reflexivity.
Qed.

Lemma generate_route_outcome_witness :
  let body : gmap string string :=
    {[ "prompt" := "a lighthouse at dusk"; "aspectRatio" := "16:9" ]} in
  let two_images : Gemini.GenerateImagesResponse :=
    {| Gemini.generatedImages :=
         Some [ {| Gemini.image :=
                     Some {| Gemini.imageBytes := Some "Rmlyc3Q=" |} |};
                {| Gemini.image :=
                     Some {| Gemini.imageBytes := Some "U2Vjb25k" |} |} ] |} in
  let ai : Gemini.client :=
    {| Gemini.generateContent := fun _ => Threw NotAnError;
       Gemini.generateImages := fun _ => Returned two_images |} in
  Server.reply (Server.generate ai body)
  = {| Http.status := 200; Http.json := {[ "imageBase64" := "Rmlyc3Q=" ]} |}.
Proof.
  intros body two_images ai.
  destruct (generate_route_outcome ai body "a lighthouse at dusk" "16:9")
    as (_ & Hfirst & _);
    [reflexivity | discriminate | reflexivity | discriminate |].
  eapply Hfirst; [reflexivity | reflexivity | reflexivity | discriminate].
Defined.

(** X3.  Whatever is thrown, the error handler answers with one of the
    statuses 400, 401, 429 and 500 and a message that is not empty; the
    message is one of three fixed texts, or, only for an error whose
    message starts with ["Image generation failed:"], that message with
    status 400.  Nothing else of an upstream error reaches the caller. *)
Theorem error_handler_only_forwards_generation_failures (error : thrown) :
  exists code message,
    Server.handleApiErrorResponse error
    = {| Http.status := code; Http.json := {[ "error" := message ]} |}
    /\ message <> EmptyString
    /\ ((code = 401%N /\ message = "The provided API key is not valid.")
        \/ (code = 429%N
            /\ message = "API rate limit exceeded. Please try again later.")
        \/ (code = 500%N
            /\ message = "Failed to process request due to an API error.")
        \/ (code = 400%N /\ error = Error message
            /\ startsWith message "Image generation failed:" = true)).
Proof.
  destruct error as [error_message|]; unfold Server.handleApiErrorResponse.
  - destruct (includes error_message "API key not valid");
      [eexists _, _; split; [reflexivity|]; split; [discriminate|];
       left; split; reflexivity|].
    destruct (includes error_message "429");
      [eexists _, _; split; [reflexivity|]; split; [discriminate|];
       right; left; split; reflexivity|].
    destruct (startsWith error_message "Image generation failed:") eqn:Hstart.
    + eexists _, _. split; [reflexivity|]. split.
      * intros ->. discriminate Hstart.
      * right; right; right. repeat split. exact Hstart.
    + eexists _, _. split; [reflexivity|]. split; [discriminate|].
      right; right; left. split; reflexivity.
  - eexists _, _. split; [reflexivity|]. split; [discriminate|].
    right; right; left. split; reflexivity.
Qed.

(** X4.  Every answer of the two routes has one of the two shapes of the
    API: status 200 with a non-empty [imageBase64] and nothing else, or one
    of the statuses 400, 401, 429, 500 with a non-empty [error] and nothing
    else. *)
Theorem routes_answer_image_or_error
    (ai : Gemini.client) (body : gmap string string) :
  (Server.answers_image (Server.reply (Server.generate ai body))
   \/ Server.answers_error (Server.reply (Server.generate ai body)))
  /\ (Server.answers_image (Server.reply (Server.edit ai body))
      \/ Server.answers_error (Server.reply (Server.edit ai body))).
Proof.
  split.
  - unfold Server.generate.
    destruct (negb (truthy (body !! "prompt"))
              || negb (truthy (body !! "aspectRatio")));
      cbn [Server.reply].
    + right. split; [simpl; tauto|].
      eexists. split; [|reflexivity]. discriminate.
    + destruct (Gemini.generateImages ai _) as [response|error];
        [|right; apply handleApiErrorResponse_answers_error].
      destruct (truthy _) eqn:Hbytes.
      * left. apply image_response_answers_image, Hbytes.
      * right. apply handleApiErrorResponse_answers_error.
  - unfold Server.edit.
    destruct (negb (truthy (body !! "prompt"))
              || negb (truthy (body !! "imageBase64Data"))
              || negb (truthy (body !! "mimeType")));
      cbn [Server.reply].
    + right. split; [simpl; tauto|].
      eexists. split; [|reflexivity]. discriminate.
    + destruct (Gemini.generateContent ai _) as [response|error];
        [|right; apply handleApiErrorResponse_answers_error].
      unfold Server.edit_interpret.
      destruct (truthy ((Server.find_imagePart response
                         ≫= Gemini.inlineData) ≫= Gemini.data)) eqn:Hfound.
      * left. apply image_response_answers_image, Hfound.
      * destruct (truthy (Gemini.response_text response));
          right; apply handleApiErrorResponse_answers_error.
Qed.

(** X5.  The edit route answers 200 with the data of the first part of
    the first candidate that has inline data: parts before it without
    data, the parts after it, the other candidates and the text of the
    answer play no role. *)
Theorem edit_route_returns_first_inline_image
    (ai : Gemini.client) (body : gmap string string)
    (params : Gemini.GenerateContentParameters)
    (response : Gemini.GenerateContentResponse)
    (candidate : Gemini.Candidate) (others : list Gemini.Candidate)
    (material : Gemini.Content) (before after : list Gemini.Part)
    (part : Gemini.Part) (blob : Gemini.Blob) (bytes : string) :
  Server.calls (Server.edit ai body) = [params] ->
  Gemini.generateContent ai params = Returned response ->
  Gemini.candidates response = Some (candidate :: others) ->
  Gemini.content candidate = Some material ->
  Gemini.parts material = Some (before ++ part :: after)%list ->
  Forall (fun p => Server.has_inline_data p = false) before ->
  Gemini.inlineData part = Some blob ->
  Gemini.data blob = Some bytes ->
  bytes <> EmptyString ->
  Server.reply (Server.edit ai body)
  = {| Http.status := 200; Http.json := {[ "imageBase64" := bytes ]} |}.
Proof.
  intros Hcalls Hanswer Hcands Hcontent Hparts Hbefore Hblob Hdata Hne.
  rewrite (edit_reply ai body params response Hcalls Hanswer).
  assert (Server.find_imagePart response = Some part) as Hfind.
  { unfold Server.find_imagePart. rewrite Hcands. simpl.
    rewrite Hcontent. simpl. rewrite Hparts. simpl.
    apply find_first_inline; [exact Hbefore|].
    unfold Server.has_inline_data. rewrite Hblob. simpl. rewrite Hdata.
    apply truthy_Some_intro, Hne. }
  unfold Server.edit_interpret. rewrite Hfind. simpl.
  rewrite Hblob. simpl. rewrite Hdata.
  rewrite (truthy_Some_intro _ Hne). reflexivity.
Qed.

Lemma edit_route_returns_first_inline_image_witness :
  let body : gmap string string :=
    {[ "prompt" := "add a hat"; "imageBase64Data" := "AAAA";
       "mimeType" := "image/png" ]} in
  let note : Gemini.Part :=
    {| Gemini.inlineData := None; Gemini.text := Some "Here you are." |} in
  let picture (bytes : string) : Gemini.Part :=
    {| Gemini.inlineData :=
         Some {| Gemini.data := Some bytes;
                 Gemini.mimeType := Some "image/png" |};
       Gemini.text := None |} in
  let answer : Gemini.GenerateContentResponse :=
    {| Gemini.candidates :=
         Some [ {| Gemini.content :=
                     Some {| Gemini.parts :=
                               Some [note; picture "Rmlyc3Q=";
                                     picture "U2Vjb25k"] |} |} ];
       Gemini.response_text := Some "Here you are." |} in
  let ai : Gemini.client :=
    {| Gemini.generateContent := fun _ => Returned answer;
       Gemini.generateImages := fun _ => Threw NotAnError |} in
  Server.reply (Server.edit ai body)
  = {| Http.status := 200; Http.json := {[ "imageBase64" := "Rmlyc3Q=" ]} |}.
Proof.
  intros body note picture answer ai.
  eapply (edit_route_returns_first_inline_image ai body _ answer _ []
            _ [note] [picture "U2Vjb25k"] (picture "Rmlyc3Q="));
    [reflexivity | reflexivity | reflexivity | reflexivity | reflexivity
    | repeat constructor | reflexivity | reflexivity | discriminate].
Defined.

(** ** The transport layer and the backend together *)

Section TransportRoundTrip.
Import GeminiService.

(** [fetchApi] on a response that is [ok]. *)
Lemma fetchApi_ok (net : network) (endpoint : string)
    (body : gmap string string) (log : list Http.request)
    (response : fetched) :
  net {| Http.endpoint := endpoint; Http.body := body |} = Returned response ->
  ok response = true ->
  fst (fetchApi net endpoint body log)
  = match content response with
    | Json object => Returned object
    | NotJson syntax_error => Threw (Error syntax_error)
    end.
Proof.
  intros Hnet Hok. unfold fetchApi, bind, fetch. rewrite Hnet, Hok. simpl.
  destruct (content response); reflexivity.
Qed.

(** What the two calls of the service make of the parsed body. *)
Lemma generateImage_result (net : network) (p a : string)
    (log : list Http.request) :
  fst (generateImage net p a log)
  = match fst (fetchApi net "/api/generate"
                 (Http.property "prompt" (Some p)
                  ∪ Http.property "aspectRatio" (Some a)) log) with
    | Returned data =>
        if truthy (data !! "imageBase64")
        then Returned (Server.toString (data !! "imageBase64"))
        else Threw (Error "Invalid response from server: missing imageBase64 data.")
    | Threw e => Threw e
    end.
Proof.
  unfold generateImage, bind.
  destruct (fetchApi net "/api/generate" _ log) as [[data|e] log'];
    [|reflexivity].
  simpl. destruct (data !! "imageBase64") as [b|]; [|reflexivity].
  simpl. destruct (truthy_string b); reflexivity.
Qed.

Lemma editImage_result (net : network) (p : string) (i : option string)
    (m : string) (k : option string) (log : list Http.request) :
  fst (editImage net p i m k log)
  = match fst (fetchApi net "/api/edit" (editImage_body p i m k) log) with
    | Returned data =>
        if truthy (data !! "imageBase64")
        then Returned (Server.toString (data !! "imageBase64"))
        else Threw (Error "Invalid response from server: missing imageBase64 data.")
    | Threw e => Threw e
    end.
Proof.
  unfold editImage, bind.
  destruct (fetchApi net "/api/edit" _ log) as [[data|e] log'];
    [|reflexivity].
  simpl. destruct (data !! "imageBase64") as [b|]; [|reflexivity].
  simpl. destruct (truthy_string b); reflexivity.
Qed.

(** What [generateImage] posts, exactly. *)
Lemma generateImage_posts (net : network) (p a : string)
    (log : list Http.request) :
  snd (generateImage net p a log)
  = (log ++ [ {| Http.endpoint := "/api/generate";
                 Http.body := generateImage_body p a |} ])%list.
Proof.
  unfold generateImage, generateImage_body, bind.
  pose proof (fetchApi_log net "/api/generate"
                (Http.property "prompt" (Some p)
                 ∪ Http.property "aspectRatio" (Some a)) log) as Hlog.
  destruct (fetchApi net "/api/generate" _ log) as [[data|e] log'];
    simpl in Hlog; subst log'; [|reflexivity].
  destruct (data !! "imageBase64") as [b|]; [|reflexivity].
  destruct (truthy_string b); reflexivity.
Qed.

Lemma generate_body_lookup (p a : string) :
  (Http.property "prompt" (Some p) ∪ Http.property "aspectRatio" (Some a)
   : gmap string string) !! "prompt" = Some p
  /\ (Http.property "prompt" (Some p) ∪ Http.property "aspectRatio" (Some a)
      : gmap string string) !! "aspectRatio" = Some a.
Proof.
  rewrite !lookup_union, !lookup_property.
  split; repeat (case_decide; try done).
Qed.

End TransportRoundTrip.

(** X6.  [fetchApi] posts exactly one request, with the endpoint and the
    body it was given, and never a second one: a rejected [fetch] is
    thrown on as it is, an [ok] response with a JSON body returns that
    body unchanged, and an [ok] response that does not parse throws the
    error of the parser. *)
Theorem fetchApi_posts_once
    (net : GeminiService.network) (endpoint : string)
    (body : gmap string string) (log : list Http.request) :
  let request := {| Http.endpoint := endpoint; Http.body := body |} in
  let run := GeminiService.fetchApi net endpoint body log in
  snd run = (log ++ [request])%list
  /\ (forall e, net request = Threw e -> fst run = Threw e)
  /\ (forall response object,
        net request = Returned response ->
        GeminiService.ok response = true ->
        GeminiService.content response = GeminiService.Json object ->
        fst run = Returned object)
  /\ (forall response syntax_error,
        net request = Returned response ->
        GeminiService.ok response = true ->
        GeminiService.content response
        = GeminiService.NotJson syntax_error ->
        fst run = Threw (Error syntax_error)).
Proof.
  intros request run. subst request run.
  split; [apply fetchApi_log|]. split; [|split].
  - intros e He. unfold GeminiService.fetchApi, GeminiService.bind,
      GeminiService.fetch. rewrite He. reflexivity.
  - intros response object Hnet Hok Hcontent.
    rewrite (fetchApi_ok net endpoint body log response Hnet Hok), Hcontent.
    reflexivity.
  - intros response syntax_error Hnet Hok Hcontent.
    rewrite (fetchApi_ok net endpoint body log response Hnet Hok), Hcontent.
    reflexivity.
Qed.

(** X7.  A 2xx answer whose body has no [imageBase64], or an empty one,
    makes [generateImage] and [editImage] throw
    ["Invalid response from server: missing imageBase64 data."]; with a
    non-empty [imageBase64] they return exactly that text. *)
Theorem missing_image_is_a_protocol_error
    (net : GeminiService.network) (response : GeminiService.fetched)
    (object : gmap string string) :
  (forall request, net request = Returned response) ->
  GeminiService.ok response = true ->
  GeminiService.content response = GeminiService.Json object ->
  (truthy (object !! "imageBase64") = false ->
   forall p a i m k log,
     fst (GeminiService.generateImage net p a log)
     = Threw (Error "Invalid response from server: missing imageBase64 data.")
     /\ fst (GeminiService.editImage net p i m k log)
        = Threw
            (Error "Invalid response from server: missing imageBase64 data."))
  /\ (forall bytes,
        object !! "imageBase64" = Some bytes -> bytes <> EmptyString ->
        forall p a i m k log,
          fst (GeminiService.generateImage net p a log) = Returned bytes
          /\ fst (GeminiService.editImage net p i m k log) = Returned bytes).
Proof.
  intros Hnet Hok Hcontent.
  assert (forall endpoint body log,
            fst (GeminiService.fetchApi net endpoint body log)
            = Returned object) as Hfetch.
  { intros endpoint body log.
    rewrite (fetchApi_ok net endpoint body log response (Hnet _) Hok),
      Hcontent. reflexivity. }
  split.
  - intros Hmissing p a i m k log.
    rewrite generateImage_result, editImage_result, !Hfetch, Hmissing.
    split; reflexivity.
  - intros bytes Hbytes Hne p a i m k log.
    rewrite generateImage_result, editImage_result, !Hfetch, Hbytes.
    rewrite (truthy_Some_intro _ Hne). split; reflexivity.
Qed.

Lemma missing_image_is_a_protocol_error_witness :
  let net : GeminiService.network :=
    fun _ => Returned {| GeminiService.status := 200;
                         GeminiService.content := GeminiService.Json ∅ |} in
  fst (GeminiService.generateImage net "a cat" "1:1" [])
  = Threw (Error "Invalid response from server: missing imageBase64 data.").
Proof.
  intros net.
  destruct (missing_image_is_a_protocol_error net
              {| GeminiService.status := 200;
                 GeminiService.content := GeminiService.Json ∅ |} ∅)
    as [Hmissing _]; [reflexivity | reflexivity | reflexivity |].
  destruct (Hmissing eq_refl "a cat" "1:1" None EmptyString None [])
    as [Hgenerate _].
  exact Hgenerate.
Defined.

(** X8.  Through this backend, for a body within the limit of the body
    parser, [generateImage] returns exactly the bytes of the first image
    the model generates for the prompt and the aspect ratio it was called
    with; for a body over the limit it throws
    ["An unknown error occurred."].  Either way it issues one request, to
    [/api/generate], with the body [{ prompt, aspectRatio }]. *)
Theorem generateImage_round_trip
    (ai : Gemini.client) (text ratio : string) (log : list Http.request) :
  let body := GeminiService.generateImage_body text ratio in
  let posted :=
    (log ++ [ {| Http.endpoint := "/api/generate";
                 Http.body := body |} ])%list in
  ((Http.content_length body <= Server.json_limit)%N ->
   text <> EmptyString -> ratio <> EmptyString ->
   forall bytes response first others,
     bytes <> EmptyString ->
     Gemini.generateImages ai
       {| Gemini.images_model := "imagen-4.0-generate-001";
          Gemini.prompt := text;
          Gemini.numberOfImages := 1;
          Gemini.outputMimeType := "image/jpeg";
          Gemini.aspectRatio := ratio |} = Returned response ->
     Gemini.generatedImages response = Some (first :: others) ->
     Gemini.image first = Some {| Gemini.imageBytes := Some bytes |} ->
     GeminiService.generateImage (GeminiService.backend ai) text ratio log
     = (Returned bytes, posted))
  /\ ((Server.json_limit < Http.content_length body)%N ->
      GeminiService.generateImage (GeminiService.backend ai) text ratio log
      = (Threw (Error "An unknown error occurred."), posted)).
Proof.
  intros body posted. subst posted. split.
  - intros Hsize Htext Hratio bytes response first others Hbytes Hmodel
      Himages Himage.
    rewrite (surjective_pairing
               (GeminiService.generateImage _ _ _ _)).
    rewrite generateImage_posts. f_equal.
    rewrite generateImage_result.
    destruct (generate_body_lookup text ratio) as [Hp Ha].
    change (Http.property "prompt" (Some text)
            ∪ Http.property "aspectRatio" (Some ratio)) with body in *.
    assert (Server.calls (Server.generate ai body)
            = [ {| Gemini.images_model := "imagen-4.0-generate-001";
                   Gemini.prompt := text;
                   Gemini.numberOfImages := 1;
                   Gemini.outputMimeType := "image/jpeg";
                   Gemini.aspectRatio := ratio |} ]) as Hcalls.
    { rewrite generate_calls, Hp, Ha.
      rewrite (truthy_Some_intro _ Htext), (truthy_Some_intro _ Hratio).
      reflexivity. }
    assert (Server.reply (Server.generate ai body)
            = Server.image_response (Some bytes)) as Hreply.
    { rewrite (generate_reply ai body _ Hcalls), Hmodel. cbv zeta.
      rewrite Himages. simpl. rewrite Himage. simpl.
      apply truthy_string_iff in Hbytes. rewrite Hbytes. reflexivity. }
    rewrite (fetchApi_ok (GeminiService.backend ai) "/api/generate" body log
               _ (backend_generate ai body Hsize));
      [|rewrite Hreply; reflexivity].
    simpl GeminiService.content. rewrite Hreply. simpl Http.json.
    rewrite lookup_singleton_eq. rewrite (truthy_Some_intro _ Hbytes).
    reflexivity.
  - intros Hsize.
    rewrite (surjective_pairing
               (GeminiService.generateImage _ _ _ _)).
    rewrite generateImage_posts. f_equal.
    rewrite generateImage_result.
    change (Http.property "prompt" (Some text)
            ∪ Http.property "aspectRatio" (Some ratio)) with body.
    rewrite (backend_over_limit ai "/api/generate" body log Hsize).
    reflexivity.
Qed.

Lemma generateImage_round_trip_witness :
  let answer : Gemini.GenerateImagesResponse :=
    {| Gemini.generatedImages :=
         Some [ {| Gemini.image :=
                     Some {| Gemini.imageBytes := Some "Rmlyc3Q=" |} |} ] |} in
  let ai : Gemini.client :=
    {| Gemini.generateContent := fun _ => Threw NotAnError;
       Gemini.generateImages := fun _ => Returned answer |} in
  fst (GeminiService.generateImage (GeminiService.backend ai)
         "a cat" "1:1" [])
  = Returned "Rmlyc3Q=".
Proof.
  intros answer ai.
  destruct (generateImage_round_trip ai "a cat" "1:1" []) as [Hwithin _].
  rewrite (Hwithin ltac:(vm_compute; discriminate) ltac:(discriminate)
             ltac:(discriminate) "Rmlyc3Q=" answer _ []
             ltac:(discriminate) eq_refl eq_refl eq_refl).
  reflexivity.
Defined.

(** X9.  Through this backend, for a body within the limit of the body
    parser, [editImage] returns exactly the inline data of the part the
    edit route finds in the answer of the model to the parts built from
    its arguments, mask included when there is one; for a body over the
    limit it throws ["An unknown error occurred."].  Either way it issues
    one request, to [/api/edit], with the body it builds. *)
Theorem editImage_round_trip
    (ai : Gemini.client) (text image mime : string) (mask : option string)
    (log : list Http.request) :
  let body := GeminiService.editImage_body text (Some image) mime mask in
  let posted :=
    (log ++ [ {| Http.endpoint := "/api/edit"; Http.body := body |} ])%list in
  ((Http.content_length body <= Server.json_limit)%N ->
   text <> EmptyString -> image <> EmptyString -> mime <> EmptyString ->
   forall response part blob bytes,
     Gemini.generateContent ai
       {| Gemini.model := "gemini-2.5-flash-image";
          Gemini.contents :=
            Server.edit_parts (Some text) (Some image) (Some mime) mask;
          Gemini.systemInstruction := Server.edit_systemInstruction;
          Gemini.responseModalities := [Gemini.IMAGE; Gemini.TEXT] |}
     = Returned response ->
     Server.find_imagePart response = Some part ->
     Gemini.inlineData part = Some blob ->
     Gemini.data blob = Some bytes ->
     GeminiService.editImage (GeminiService.backend ai) text (Some image)
       mime mask log
     = (Returned bytes, posted))
  /\ ((Server.json_limit < Http.content_length body)%N ->
      GeminiService.editImage (GeminiService.backend ai) text (Some image)
        mime mask log
      = (Threw (Error "An unknown error occurred."), posted)).
Proof.
  intros body posted. subst posted. split.
  - intros Hsize Htext Himage Hmime response part blob bytes Hmodel Hfind
      Hblob Hdata.
    rewrite (surjective_pairing (GeminiService.editImage _ _ _ _ _ _)).
    rewrite editImage_log. f_equal.
    rewrite editImage_result. fold body.
    assert (Server.calls (Server.edit ai body)
            = [ {| Gemini.model := "gemini-2.5-flash-image";
                   Gemini.contents :=
                     Server.edit_parts (Some text) (Some image) (Some mime)
                       mask;
                   Gemini.systemInstruction := Server.edit_systemInstruction;
                   Gemini.responseModalities :=
                     [Gemini.IMAGE; Gemini.TEXT] |} ]) as Hcalls.
    { rewrite edit_calls. subst body.
      rewrite editImage_body_prompt, editImage_body_image,
        editImage_body_mimeType, editImage_body_mask.
      rewrite (truthy_Some_intro _ Htext), (truthy_Some_intro _ Himage),
        (truthy_Some_intro _ Hmime). reflexivity. }
    pose proof (find_imagePart_Some response part Hfind) as Htruthy.
    rewrite Hblob in Htruthy. simpl in Htruthy. rewrite Hdata in Htruthy.
    assert (Server.reply (Server.edit ai body)
            = Server.image_response (Some bytes)) as Hreply.
    { rewrite (edit_reply ai body _ response Hcalls Hmodel).
      unfold Server.edit_interpret. rewrite Hfind. simpl.
      rewrite Hblob. simpl. rewrite Hdata, Htruthy. reflexivity. }
    rewrite (fetchApi_ok (GeminiService.backend ai) "/api/edit" body log
               _ (backend_edit ai body Hsize));
      [|rewrite Hreply; reflexivity].
    simpl GeminiService.content. rewrite Hreply. simpl Http.json.
    rewrite lookup_singleton_eq, Htruthy. reflexivity.
  - intros Hsize.
    rewrite (surjective_pairing (GeminiService.editImage _ _ _ _ _ _)).
    rewrite editImage_log. f_equal.
    rewrite editImage_result. fold body.
    rewrite (backend_over_limit ai "/api/edit" body log Hsize).
    reflexivity.
Qed.

Lemma editImage_round_trip_witness :
  let answer : Gemini.GenerateContentResponse :=
    {| Gemini.candidates :=
         Some [ {| Gemini.content :=
                     Some {| Gemini.parts :=
                               Some [ {| Gemini.inlineData :=
                                           Some {| Gemini.data :=
                                                     Some "RWRpdGVk";
                                                   Gemini.mimeType :=
                                                     Some "image/png" |};
                                         Gemini.text := None |} ] |} |} ];
       Gemini.response_text := None |} in
  let ai : Gemini.client :=
    {| Gemini.generateContent := fun _ => Returned answer;
       Gemini.generateImages := fun _ => Threw NotAnError |} in
  fst (GeminiService.editImage (GeminiService.backend ai)
         "add a hat" (Some "AAAA") "image/png" (Some "BBBB") [])
  = Returned "RWRpdGVk".
Proof.
  intros answer ai.
  destruct (editImage_round_trip ai "add a hat" "AAAA" "image/png"
              (Some "BBBB") []) as [Hwithin _].
  rewrite (Hwithin ltac:(vm_compute; discriminate) ltac:(discriminate)
             ltac:(discriminate) ltac:(discriminate) answer _ _ "RWRpdGVk"
             eq_refl eq_refl eq_refl eq_refl).
  reflexivity.
Defined.

(** ** Submitting from the component *)

Section Submitting.
Import GeminiService App.

(** What [handleGenerate] posts, when it posts. *)
Lemma handleGenerate_log (net : network) (seen_mode : EditMode)
    (seen_upload : option UploadedImage) (st : state)
    (log : list Http.request) :
  snd (handleGenerate net seen_mode seen_upload st log)
  = if truthy_string (trim (prompt st))
    then (log ++ [ {| Http.endpoint := "/api/generate";
                      Http.body :=
                        Http.property "prompt" (Some (prompt st))
                        ∪ Http.property "aspectRatio"
                            (Some (aspectRatio st)) |} ])%list
    else log.
Proof.
  rewrite handleGenerate_cases.
  destruct (truthy_string (trim (prompt st))); [|reflexivity].
  cbv zeta.
  pose proof (fetchApi_log net "/api/generate"
                (Http.property "prompt" (Some (prompt st))
                 ∪ Http.property "aspectRatio" (Some (aspectRatio st)))
                log) as Hlog.
  unfold generateImage, bind in *.
  destruct (fetchApi net "/api/generate" _ log) as [[data|e] log'];
    simpl in Hlog; subst log'; [|reflexivity].
  destruct (data !! "imageBase64") as [b|]; [|reflexivity].
  destruct (truthy_string b); reflexivity.
Qed.

End Submitting.

(** X10.  [handleEdit] stops at its validation without touching the
    network: with a prompt that is empty or white space only it sets
    ["Please enter an edit instruction."], and with a prompt but no
    uploaded image it sets ["Please upload an image to edit."]; nothing
    else of the state changes and no request is issued. *)
Theorem handleEdit_rejects_without_prompt_or_image
    (net : GeminiService.network) (plat : Canvas2D.platform)
    (seen_mode : App.EditMode) (r : App.refs) (st : App.state)
    (log : list Http.request) :
  (allWhiteSpace (App.prompt st) = true ->
   App.handleEdit net plat seen_mode r st log
   = (Returned (App.setError (Some "Please enter an edit instruction.") st),
      log))
  /\ (allWhiteSpace (App.prompt st) = false ->
      App.uploadedImage st = None ->
      App.handleEdit net plat seen_mode r st log
      = (Returned (App.setError (Some "Please upload an image to edit.") st),
         log)).
Proof.
  rewrite handleEdit_cases. split.
  - intros Hblank. rewrite (blank_not_truthy _ Hblank). reflexivity.
  - intros Hprompt Hnone. rewrite (not_blank_truthy _ Hprompt), Hnone.
    reflexivity.
Qed.

Lemma handleEdit_rejects_without_prompt_or_image_witness :
  let net : GeminiService.network := fun _ => Threw NotAnError in
  snd (App.handleEdit net Canvas2D.edge_platform App.edit
         {| App.imageCanvas := None; App.drawingCanvas := None;
            App.isDrawing := false; App.lastPos := None |}
         (App.setPrompt "add a hat" App.initial) [])
  = [].
Proof.
  intros net.
  destruct (handleEdit_rejects_without_prompt_or_image net
              Canvas2D.edge_platform App.edit
              {| App.imageCanvas := None; App.drawingCanvas := None;
                 App.isDrawing := false; App.lastPos := None |}
              (App.setPrompt "add a hat" App.initial) []) as [_ Hupload].
  rewrite Hupload; reflexivity.
Defined.

(** X11.  A click on the submit button issues at most one request, to the
    route of the current mode.  While a request is loading the click does
    nothing at all; in generate mode an enabled button always posts, once,
    the prompt and the aspect ratio of the state; a disabled button never
    posts. *)
Theorem clickSubmit_posts_at_most_once
    (net : GeminiService.network) (plat : Canvas2D.platform)
    (seen_mode : App.EditMode) (seen_upload : option App.UploadedImage)
    (r : App.refs) (st : App.state) (log : list Http.request) :
  let run := App.clickSubmit net plat seen_mode seen_upload r st log in
  (snd run = log
   \/ exists body,
        snd run
        = (log ++ [ {| Http.endpoint :=
                         match App.mode st with
                         | App.generate => "/api/generate"
                         | App.edit => "/api/edit"
                         end;
                       Http.body := body |} ])%list)
  /\ (App.isLoading st = true -> run = (Returned st, log))
  /\ (App.mode st = App.generate ->
      App.isGenerateDisabled st = false ->
      exists body,
        snd run
        = (log ++ [ {| Http.endpoint := "/api/generate";
                       Http.body := body |} ])%list
        /\ body !! "prompt" = Some (App.prompt st)
        /\ body !! "aspectRatio" = Some (App.aspectRatio st))
  /\ (match App.mode st with
      | App.generate => App.isGenerateDisabled st
      | App.edit => App.isEditDisabled st
      end = true ->
      run = (Returned st, log)).
Proof.
  intros run. subst run. unfold App.clickSubmit.
  split; [|split; [|split]].
  - destruct (App.mode st).
    + destruct (App.isGenerateDisabled st); [left; reflexivity|].
      rewrite handleGenerate_log.
      destruct (truthy_string _); [right; eexists; reflexivity
                                  | left; reflexivity].
    + destruct (App.isEditDisabled st); [left; reflexivity|].
      destruct (handleEdit_log net plat seen_mode r st log)
        as [Hlog | (uploaded & mask & _ & _ & Hlog)];
        [left; exact Hlog | right; eexists; exact Hlog].
  - intros Hloading. unfold App.isGenerateDisabled, App.isEditDisabled.
    rewrite Hloading. destruct (App.mode st); reflexivity.
  - intros -> Henabled. rewrite Henabled.
    unfold App.isGenerateDisabled in Henabled.
    apply orb_false_iff in Henabled as [_ Hprompt].
    apply negb_false_iff in Hprompt.
    rewrite handleGenerate_log, Hprompt.
    eexists. split; [reflexivity|]. apply generate_body_lookup.
  - destruct (App.mode st); intros ->; reflexivity.
Qed.

Lemma clickSubmit_posts_at_most_once_witness :
  let net : GeminiService.network := fun _ => Threw NotAnError in
  let r : App.refs :=
    {| App.imageCanvas := None; App.drawingCanvas := None;
       App.isDrawing := false; App.lastPos := None |} in
  App.clickSubmit net Canvas2D.edge_platform App.generate None r
    (App.setIsLoading true (App.setPrompt "a cat" App.initial)) []
  = (Returned (App.setIsLoading true (App.setPrompt "a cat" App.initial)),
     []).
Proof.
  intros net r.
  destruct (clickSubmit_posts_at_most_once net Canvas2D.edge_platform
              App.generate None r
              (App.setIsLoading true (App.setPrompt "a cat" App.initial)) [])
    as (_ & Hloading & _).
  apply Hloading. reflexivity.
Defined.

(** X12.  What [handleGenerate] leaves behind for a prompt that is not
    blank.  On success: the result as generated image and at the head of
    the history, no error.  On failure: no generated image, no comparison
    image, the history as it was and the error
    ["Failed to generate image: "] followed by the message of the error.
    Either way the loading flag is off and the prompt, the uploaded image
    and the mode are untouched. *)
Theorem handleGenerate_outcome
    (net : GeminiService.network) (seen_mode : App.EditMode)
    (seen_upload : option App.UploadedImage) (st : App.state)
    (log : list Http.request) :
  allWhiteSpace (App.prompt st) = false ->
  exists st' log',
    App.handleGenerate net seen_mode seen_upload st log = (Returned st', log')
    /\ App.isLoading st' = false
    /\ App.prompt st' = App.prompt st
    /\ App.uploadedImage st' = App.uploadedImage st
    /\ App.mode st' = App.mode st
    /\ match GeminiService.generateImage net (App.prompt st)
               (App.aspectRatio st) log with
       | (Returned imageBase64, _) =>
           App.generatedImage st'
           = Some ("data:image/jpeg;base64," ++ imageBase64)
           /\ App.history st'
              = take 6 (("data:image/jpeg;base64," ++ imageBase64)
                        :: App.history st)
           /\ App.error st' = None
       | (Threw (Error message), _) =>
           App.generatedImage st' = None
           /\ App.comparisonImage st' = None
           /\ App.history st' = App.history st
           /\ App.error st' = Some ("Failed to generate image: " ++ message)
       | (Threw NotAnError, _) =>
           App.generatedImage st' = None
           /\ App.comparisonImage st' = None
           /\ App.history st' = App.history st
           /\ App.error st'
              = Some "Failed to generate image: An unknown error occurred."
       end.
Proof.
  intros Hprompt. rewrite handleGenerate_cases.
  rewrite (not_blank_truthy _ Hprompt). cbv zeta.
  destruct (GeminiService.generateImage net (App.prompt st)
              (App.aspectRatio st) log) as [[imageBase64|[message|]] log'];
    eexists _, _; (split; [reflexivity|]).
  - unfold App.handleApiResponse.
    destruct seen_mode, seen_upload; repeat split.
  - repeat split.
  - repeat split.
Qed.

Lemma handleGenerate_outcome_witness :
  let net : GeminiService.network := fun _ => Threw (Error "Failed to fetch") in
  exists st' log',
    App.handleGenerate net App.generate None
      (App.setPrompt "a cat" App.initial) []
    = (Returned st', log')
    /\ App.error st' = Some "Failed to generate image: Failed to fetch".
Proof.
  intros net.
  destruct (handleGenerate_outcome net App.generate None
              (App.setPrompt "a cat" App.initial) [])
    as (st' & log' & Hrun & _ & _ & _ & _ & Hout); [reflexivity|].
  exists st', log'. split; [exact Hrun|].
  destruct Hout as (_ & _ & _ & Herror). exact Herror.
Defined.

(** X13.  From the model to the user: when the model rejects the API key
    (its error message contains ["API key not valid"]), a generation with
    a prompt and an aspect ratio, whose body is within the limit of the
    body parser, ends with the error
    ["Failed to generate image: The provided API key is not valid."] on
    the screen, whatever else the upstream message says.  With a body
    over the limit the model is not reached and the error is
    ["Failed to generate image: An unknown error occurred."]. *)
Theorem invalid_api_key_reaches_the_user
    (ai : Gemini.client) (upstream : string) (seen_mode : App.EditMode)
    (seen_upload : option App.UploadedImage) (st : App.state)
    (log : list Http.request) :
  (forall params,
      Gemini.generateImages ai params = Threw (Error upstream)) ->
  includes upstream "API key not valid" = true ->
  allWhiteSpace (App.prompt st) = false ->
  App.aspectRatio st <> EmptyString ->
  let body :=
    GeminiService.generateImage_body (App.prompt st) (App.aspectRatio st) in
  exists st' log',
    App.handleGenerate (GeminiService.backend ai) seen_mode seen_upload st log
    = (Returned st', log')
    /\ App.generatedImage st' = None
    /\ ((Http.content_length body <= Server.json_limit)%N ->
        App.error st'
        = Some "Failed to generate image: The provided API key is not valid.")
    /\ ((Server.json_limit < Http.content_length body)%N ->
        App.error st'
        = Some "Failed to generate image: An unknown error occurred.").
Proof.
  intros Hai Hkey Hprompt Hratio body.
  assert (App.prompt st <> EmptyString) as Hne.
  { intros Hempty. rewrite Hempty in Hprompt. discriminate Hprompt. }
  rewrite handleGenerate_cases, (not_blank_truthy _ Hprompt). cbv zeta.
  destruct (generate_body_lookup (App.prompt st) (App.aspectRatio st))
    as [Hp Ha].
  change (Http.property "prompt" (Some (App.prompt st))
          ∪ Http.property "aspectRatio" (Some (App.aspectRatio st)))
    with body in Hp, Ha.
  assert (Server.reply (Server.generate ai body)
          = Server.error_response 401 "The provided API key is not valid.")
    as Hreply.
  { erewrite generate_reply.
    - rewrite Hai. unfold Server.handleApiErrorResponse. rewrite Hkey.
      reflexivity.
    - rewrite generate_calls, Hp, Ha.
      rewrite (truthy_Some_intro _ Hne), (truthy_Some_intro _ Hratio).
      reflexivity. }
  assert ((Http.content_length body <= Server.json_limit)%N ->
          fst (GeminiService.generateImage (GeminiService.backend ai)
                 (App.prompt st) (App.aspectRatio st) log)
          = Threw (Error "The provided API key is not valid.")) as Hwithin.
  { intros Hsize. rewrite generateImage_result.
    change (Http.property "prompt" (Some (App.prompt st))
            ∪ Http.property "aspectRatio" (Some (App.aspectRatio st)))
      with body.
    rewrite (fetchApi_not_ok (GeminiService.backend ai) "/api/generate"
               body log _ (backend_generate ai body Hsize));
      [|rewrite Hreply; reflexivity].
    simpl GeminiService.content. rewrite Hreply. simpl.
    rewrite lookup_singleton_eq. reflexivity. }
  assert ((Server.json_limit < Http.content_length body)%N ->
          fst (GeminiService.generateImage (GeminiService.backend ai)
                 (App.prompt st) (App.aspectRatio st) log)
          = Threw (Error "An unknown error occurred.")) as Hover.
  { intros Hsize. rewrite generateImage_result.
    change (Http.property "prompt" (Some (App.prompt st))
            ∪ Http.property "aspectRatio" (Some (App.aspectRatio st)))
      with body.
    rewrite (backend_over_limit ai "/api/generate" body log Hsize).
    reflexivity. }
  destruct (GeminiService.generateImage (GeminiService.backend ai)
              (App.prompt st) (App.aspectRatio st) log) as [result log'].
  simpl in Hwithin, Hover.
  destruct (N.le_gt_cases (Http.content_length body) Server.json_limit)
    as [Hsize|Hsize].
  - rewrite (Hwithin Hsize).
    eexists _, _. split; [reflexivity|]. split; [reflexivity|].
    split; [reflexivity|]. intros Habsurd. lia.
  - rewrite (Hover Hsize).
    eexists _, _. split; [reflexivity|]. split; [reflexivity|].
    split; [|reflexivity]. intros Habsurd. lia.
Qed.

Lemma invalid_api_key_reaches_the_user_witness :
  let ai : Gemini.client :=
    {| Gemini.generateContent := fun _ => Threw NotAnError;
       Gemini.generateImages :=
         fun _ => Threw (Error "[400] API key not valid. Pass a valid key.") |} in
  exists st' log',
    App.handleGenerate (GeminiService.backend ai) App.generate None
      (App.setPrompt "a cat" App.initial) []
    = (Returned st', log')
    /\ App.error st'
       = Some "Failed to generate image: The provided API key is not valid.".
Proof.
  intros ai.
  destruct (invalid_api_key_reaches_the_user ai
              "[400] API key not valid. Pass a valid key." App.generate None
              (App.setPrompt "a cat" App.initial) [])
    as (st' & log' & Hrun & _ & Herror & _);
    [reflexivity | reflexivity | reflexivity | discriminate |].
  exists st', log'. split; [exact Hrun|].
  apply Herror. vm_compute. discriminate.
Defined.

(** ** From the mask layer to the payload of the model *)

Section MaskToPayload.
Import GeminiService Canvas2D App.

Lemma export_of_painted_layer (plat : platform) (img : HTMLImageElement)
    (r : refs) (c : canvas) (i : nat) (p : rgba) :
  mask_layer plat img r ->
  drawingCanvas r = Some c ->
  isBase64 (png_base64 plat (composite c)) = true ->
  bitmap c !! i = Some p -> alpha p <> 0%N ->
  getMaskAsBase64 plat r = Returned (Some (png_base64 plat (composite c))).
Proof.
  intros Hlayer Hc Hbase Hp Hpainted.
  destruct (mask_layer_raster plat img r Hlayer c Hc) as (Hw0 & Hh0 & _).
  rewrite (getMaskAsBase64_cases plat r c Hc Hw0 Hh0).
  rewrite (some_nonzero_painted c i p Hp Hpainted).
  rewrite toDataURL_payload; [reflexivity | exact Hw0 | exact Hh0 | exact Hbase].
Qed.

Lemma export_of_empty_layer (plat : platform) (img : HTMLImageElement)
    (r : refs) (c : canvas) :
  mask_layer plat img r ->
  drawingCanvas r = Some c ->
  Forall (fun word => word = 0%N) (pixel_words c) ->
  getMaskAsBase64 plat r = Returned None.
Proof.
  intros Hlayer Hc Hzero.
  destruct (mask_layer_raster plat img r Hlayer c Hc) as (Hw0 & Hh0 & _).
  rewrite (getMaskAsBase64_cases plat r c Hc Hw0 Hh0).
  rewrite (some_nonzero_false _ Hzero). reflexivity.
Qed.

(** With a prompt, an image and a mask export that does not throw,
    [handleEdit] posts one request: the prompt, what follows the first
    comma of the data URL, the MIME type and the exported mask. *)
Lemma handleEdit_posts (net : network) (plat : platform)
    (seen_mode : EditMode) (r : refs) (st : state)
    (log : list Http.request) (uploaded : UploadedImage)
    (mask : option string) :
  allWhiteSpace (prompt st) = false ->
  uploadedImage st = Some uploaded ->
  getMaskAsBase64 plat r = Returned mask ->
  snd (handleEdit net plat seen_mode r st log)
  = (log ++ [ {| Http.endpoint := "/api/edit";
                 Http.body :=
                   editImage_body (prompt st)
                     (split "," (dataUrl uploaded) !! 1%nat)
                     (mimeType uploaded) mask |} ])%list.
Proof.
  intros Hprompt Hup Hmask.
  rewrite handleEdit_cases, (not_blank_truthy _ Hprompt), Hup. cbv zeta.
  rewrite Hmask.
  pose proof (editImage_log net (prompt st)
                (split "," (dataUrl uploaded) !! 1%nat)
                (mimeType uploaded) mask log) as Hlog.
  destruct (editImage net (prompt st) _ (mimeType uploaded) mask log)
    as [[imageBase64|err] log']; exact Hlog.
Qed.

(** The parts the edit route builds from a body of [editImage]. *)
Lemma edit_calls_of_editImage_body (ai : Gemini.client) (p : string)
    (i : option string) (m : string) (k : option string)
    (params : Gemini.GenerateContentParameters) :
  params ∈ Server.calls (Server.edit ai (editImage_body p i m k)) ->
  Gemini.contents params = Server.edit_parts (Some p) i (Some m) k.
Proof.
  rewrite edit_calls.
  rewrite editImage_body_prompt, editImage_body_image,
    editImage_body_mimeType, editImage_body_mask.
  destruct (truthy (Some p) && truthy i && truthy (Some m));
    intros Hin; [|now apply elem_of_nil in Hin].
  apply list_elem_of_singleton in Hin. subst params. reflexivity.
Qed.

(** The data URL of a result or of a file, cut at its first comma. *)
Lemma split_data_url (mime payload : string) :
  (forall c, In c (list_ascii_of_string mime) -> c <> ","%char) ->
  isBase64 payload = true ->
  split "," ("data:" ++ mime ++ ";base64," ++ payload) !! 1%nat
  = Some payload.
Proof.
  intros Hmime Hbase.
  assert (forall s t u : string, (s ++ t) ++ u = s ++ t ++ u) as Hassoc.
  { intros s t u. induction s as [|c s IH]; simpl; [reflexivity|].
    rewrite IH. reflexivity. }
  change (";base64," ++ payload)
    with (";base64" ++ String ","%char payload).
  rewrite <- (Hassoc mime ";base64"), <- (Hassoc "data:").
  rewrite split_after_comma.
  - rewrite split_no_separator by (apply isBase64_no_comma, Hbase).
    reflexivity.
  - intros c Hin.
    assert (forall s t : string,
              In c (list_ascii_of_string (s ++ t)) ->
              In c (list_ascii_of_string s) \/ In c (list_ascii_of_string t))
      as Hin_app.
    { intros s t. induction s as [|d s IH]; simpl; [tauto|].
      intros [->|H]; [tauto|]. destruct (IH H); tauto. }
    apply Hin_app in Hin as [Hin|Hin].
    + intros ->. simpl in Hin.
      repeat (destruct Hin as [Hin|Hin]; [discriminate Hin|]). exact Hin.
    + apply Hin_app in Hin as [Hin|Hin]; [apply Hmime, Hin|].
      intros ->. simpl in Hin.
      repeat (destruct Hin as [Hin|Hin]; [discriminate Hin|]). exact Hin.
Qed.

Lemma allowedTypes_In (t : string) :
  existsb (String.eqb t) allowedTypes = true <-> In t allowedTypes.
Proof.
  rewrite existsb_exists. split.
  - intros (x & Hin & Heq). apply String.eqb_eq in Heq. subst x. exact Hin.
  - intros Hin. exists t. split; [exact Hin | apply String.eqb_refl].
Qed.

Lemma allowedTypes_no_comma (t : string) :
  In t allowedTypes ->
  forall c, In c (list_ascii_of_string t) -> c <> ","%char.
Proof.
  intros Hin c Hc ->. simpl in Hin.
  destruct Hin as [<-|[<-|[<-|[]]]]; simpl in Hc;
    repeat (destruct Hc as [Hc|Hc]; [discriminate Hc|]); exact Hc.
Qed.

(** [processFile], case by case. *)
Lemma processFile_cases (file : File) (st : state) :
  processFile file st
  = if existsb (String.eqb (type file)) allowedTypes then
      if (size file <=? maxSizeInBytes)%N then
        match readAsDataURL file with
        | Some d =>
            setUploadedImage
              (Some {| dataUrl := d; mimeType := type file |})
              (setError None st)
        | None =>
            setError (Some "Failed to read the file.") (setError None st)
        end
      else setError (Some "File is too large. Maximum size is 8MB.") st
    else
      setError
        (Some "Invalid file type. Please upload a PNG, JPG, or WEBP image.")
        st.
Proof.
  unfold processFile.
  destruct (existsb (String.eqb (type file)) allowedTypes); [|reflexivity].
  simpl negb. cbv iota.
  rewrite N.ltb_antisym.
  destruct (size file <=? maxSizeInBytes)%N; reflexivity.
Qed.

End MaskToPayload.

(** X14.  A painted mask reaches the model: on a mask layer with at least
    one painted pixel, an edit with a prompt and an uploaded image posts
    one request whose [maskBase64Data] is the base64 PNG of the composite
    of the layer, and the edit route, given that body, calls the model
    only with three parts, the second being that mask tagged
    ['image/png']. *)
Theorem painted_mask_reaches_the_model
    (net : GeminiService.network) (ai : Gemini.client)
    (plat : Canvas2D.platform) (img : App.HTMLImageElement)
    (seen_mode : App.EditMode) (r : App.refs) (c : Canvas2D.canvas)
    (st : App.state) (uploaded : App.UploadedImage)
    (log : list Http.request) :
  App.mask_layer plat img r ->
  App.drawingCanvas r = Some c ->
  (exists i p,
      Canvas2D.bitmap c !! i = Some p /\ Canvas2D.alpha p <> 0%N) ->
  isBase64 (Canvas2D.png_base64 plat (App.composite c)) = true ->
  Canvas2D.png_base64 plat (App.composite c) <> EmptyString ->
  allWhiteSpace (App.prompt st) = false ->
  App.uploadedImage st = Some uploaded ->
  exists request,
    snd (App.handleEdit net plat seen_mode r st log) = (log ++ [request])%list
    /\ Http.endpoint request = "/api/edit"
    /\ Http.body request !! "maskBase64Data"
       = Some (Canvas2D.png_base64 plat (App.composite c))
    /\ (forall params,
          params ∈ Server.calls (Server.edit ai (Http.body request)) ->
          length (Gemini.contents params) = 3%nat
          /\ Gemini.contents params !! 1%nat
             = Some {| Gemini.inlineData :=
                         Some {| Gemini.data :=
                                   Some (Canvas2D.png_base64 plat
                                           (App.composite c));
                                 Gemini.mimeType := Some "image/png" |};
                       Gemini.text := None |}).
Proof.
  intros Hlayer Hc (i & p & Hp & Hpainted) Hbase Hne Hprompt Hup.
  pose proof (export_of_painted_layer plat img r c i p Hlayer Hc Hbase Hp
                Hpainted) as Hexport.
  eexists. split;
    [exact (handleEdit_posts net plat seen_mode r st log uploaded _
              Hprompt Hup Hexport)|].
  split; [reflexivity|]. simpl Http.body.
  split; [apply editImage_body_mask|].
  intros params Hin.
  rewrite (edit_calls_of_editImage_body ai _ _ _ _ params Hin).
  unfold Server.edit_parts. rewrite (truthy_Some_intro _ Hne).
  split; reflexivity.
Qed.

Lemma painted_mask_reaches_the_model_witness :
  let img : App.HTMLImageElement :=
    {| App.naturalWidth := 2; App.naturalHeight := 1;
       App.pixels := [Canvas2D.white; Canvas2D.white] |} in
  let mounted : App.refs :=
    {| App.imageCanvas := Some (Canvas2D.blank 3 2);
       App.drawingCanvas := Some (Canvas2D.blank 3 2);
       App.isDrawing := false; App.lastPos := None |} in
  let e : App.event :=
    {| App.rect := {| App.left := 0; App.top := 0;
                      App.rect_width := 200; App.rect_height := 100 |};
       App.source := App.MouseEvent 50 50 |} in
  let stroked :=
    App.draw Canvas2D.edge_platform 20 e
      (App.startDrawing e (App.onload img mounted)) in
  let st :=
    App.setPrompt "add a hat"
      (App.setUploadedImage
         (Some {| App.dataUrl := "data:image/png;base64,AAAA";
                  App.mimeType := "image/png" |}) App.initial) in
  let net : GeminiService.network := fun _ => Threw NotAnError in
  exists request,
    snd (App.handleEdit net Canvas2D.edge_platform App.edit stroked st [])
    = [request]
    /\ Http.body request !! "maskBase64Data" = Some "iVBORw0KGgo=".
Proof.
  intros img mounted e stroked st net.
  destruct (painted_mask_reaches_the_model net
               {| Gemini.generateContent := fun _ => Threw NotAnError;
                  Gemini.generateImages := fun _ => Threw NotAnError |}
               Canvas2D.edge_platform img App.edit stroked
               {| Canvas2D.width := 2; Canvas2D.height := 1;
                  Canvas2D.bitmap :=
                    [ Canvas2D.black;
                      {| Canvas2D.red := 0; Canvas2D.green := 0;
                         Canvas2D.blue := 0; Canvas2D.alpha := 192 |} ] |}
               st
               {| App.dataUrl := "data:image/png;base64,AAAA";
                  App.mimeType := "image/png" |} [])
    as (request & Hlog & _ & Hmask & _).
  - apply App.layer_draw, App.layer_startDrawing.
    apply (App.layer_onload _ img mounted (Canvas2D.blank 3 2)
             (Canvas2D.blank 3 2)); reflexivity.
  - vm_compute. reflexivity.
  - exists 0%nat. eexists. split; [reflexivity|]. discriminate.
  - reflexivity.
  - discriminate.
  - reflexivity.
  - reflexivity.
  - exists request. split; [exact Hlog | exact Hmask].
Defined.

(** X15.  An unpainted mask is no mask: on a mask layer whose pixel words
    are all zero, an edit with a prompt and an uploaded image posts one
    request without a [maskBase64Data] field, and the edit route, given
    that body, calls the model only with two parts, the second being the
    prompt as plain text. *)
Theorem unpainted_mask_is_not_sent
    (net : GeminiService.network) (ai : Gemini.client)
    (plat : Canvas2D.platform) (img : App.HTMLImageElement)
    (seen_mode : App.EditMode) (r : App.refs) (c : Canvas2D.canvas)
    (st : App.state) (uploaded : App.UploadedImage)
    (log : list Http.request) :
  App.mask_layer plat img r ->
  App.drawingCanvas r = Some c ->
  Forall (fun word => word = 0%N) (App.pixel_words c) ->
  allWhiteSpace (App.prompt st) = false ->
  App.uploadedImage st = Some uploaded ->
  exists request,
    snd (App.handleEdit net plat seen_mode r st log) = (log ++ [request])%list
    /\ Http.endpoint request = "/api/edit"
    /\ Http.body request !! "maskBase64Data" = None
    /\ (forall params,
          params ∈ Server.calls (Server.edit ai (Http.body request)) ->
          length (Gemini.contents params) = 2%nat
          /\ Gemini.contents params !! 1%nat
             = Some {| Gemini.inlineData := None;
                       Gemini.text := Some (App.prompt st) |}).
Proof.
  intros Hlayer Hc Hzero Hprompt Hup.
  pose proof (export_of_empty_layer plat img r c Hlayer Hc Hzero) as Hexport.
  eexists. split;
    [exact (handleEdit_posts net plat seen_mode r st log uploaded _
              Hprompt Hup Hexport)|].
  split; [reflexivity|]. simpl Http.body.
  split; [apply editImage_body_mask|].
  intros params Hin.
  rewrite (edit_calls_of_editImage_body ai _ _ _ _ params Hin).
  split; reflexivity.
Qed.

Lemma unpainted_mask_is_not_sent_witness :
  let img : App.HTMLImageElement :=
    {| App.naturalWidth := 2; App.naturalHeight := 1;
       App.pixels := [Canvas2D.white; Canvas2D.white] |} in
  let mounted : App.refs :=
    {| App.imageCanvas := Some (Canvas2D.blank 3 2);
       App.drawingCanvas := Some (Canvas2D.blank 3 2);
       App.isDrawing := false; App.lastPos := None |} in
  let st :=
    App.setPrompt "add a hat"
      (App.setUploadedImage
         (Some {| App.dataUrl := "data:image/png;base64,AAAA";
                  App.mimeType := "image/png" |}) App.initial) in
  let net : GeminiService.network := fun _ => Threw NotAnError in
  exists request,
    snd (App.handleEdit net Canvas2D.edge_platform App.edit
           (App.onload img mounted) st [])
    = [request]
    /\ Http.body request !! "maskBase64Data" = None.
Proof.
  intros img mounted st net.
  destruct (unpainted_mask_is_not_sent net
               {| Gemini.generateContent := fun _ => Threw NotAnError;
                  Gemini.generateImages := fun _ => Threw NotAnError |}
               Canvas2D.edge_platform img App.edit (App.onload img mounted)
               (Canvas2D.blank 2 1) st
               {| App.dataUrl := "data:image/png;base64,AAAA";
                  App.mimeType := "image/png" |} [])
    as (request & Hlog & _ & Hmask & _).
  - apply (App.layer_onload _ img mounted (Canvas2D.blank 3 2)
             (Canvas2D.blank 3 2)); reflexivity.
  - reflexivity.
  - repeat constructor.
  - reflexivity.
  - reflexivity.
  - exists request. split; [exact Hlog | exact Hmask].
Defined.

(** ** The image that an edit posts *)

Section PostedImage.
Import GeminiService Canvas2D App.

(** What an edit posts from a state with an uploaded image: nothing when
    the prompt is blank or the mask export throws, one request otherwise. *)
Lemma handleEdit_posted_fields (net : network) (plat : platform)
    (seen_mode : EditMode) (r : refs) (st : state)
    (log : list Http.request) (uploaded : UploadedImage) :
  uploadedImage st = Some uploaded ->
  snd (handleEdit net plat seen_mode r st log) = log
  \/ exists request,
       snd (handleEdit net plat seen_mode r st log) = (log ++ [request])%list
       /\ Http.endpoint request = "/api/edit"
       /\ Http.body request !! "prompt" = Some (prompt st)
       /\ Http.body request !! "imageBase64Data"
          = split "," (dataUrl uploaded) !! 1%nat
       /\ Http.body request !! "mimeType" = Some (mimeType uploaded).
Proof.
  intros Hup.
  destruct (handleEdit_log net plat seen_mode r st log)
    as [Hlog | (uploaded' & mask & Hup' & _ & Hlog)]; [left; exact Hlog|].
  rewrite Hup in Hup'. injection Hup' as <-.
  right. eexists. split; [exact Hlog|]. split; [reflexivity|].
  simpl Http.body.
  split; [apply editImage_body_prompt|].
  split; [apply editImage_body_image | apply editImage_body_mimeType].
Qed.

Lemma uploadedImage_handleReEdit (st : state) (g : string) :
  generatedImage st = Some g -> g <> EmptyString ->
  exists m,
    uploadedImage (handleReEdit st) = Some {| dataUrl := g; mimeType := m |}.
Proof.
  intros Hg Hshown. rewrite handleReEdit_cases, Hg.
  apply truthy_string_iff in Hshown. rewrite Hshown.
  eexists. reflexivity.
Qed.

Lemma generatedImage_handleApiResponse (seen_mode : EditMode)
    (seen_upload : option UploadedImage) (imageBase64 : string)
    (st : state) :
  generatedImage (handleApiResponse seen_mode seen_upload imageBase64 st)
  = Some ("data:image/jpeg;base64," ++ imageBase64).
Proof.
  unfold handleApiResponse. destruct seen_mode, seen_upload; reflexivity.
Qed.

(** The handlers that await the backend leave the uploaded image alone. *)
Lemma uploadedImage_handleGenerate (net : network) (seen_mode : EditMode)
    (seen_upload : option UploadedImage) (st st' : state)
    (log log' : list Http.request) :
  handleGenerate net seen_mode seen_upload st log = (Returned st', log') ->
  uploadedImage st' = uploadedImage st.
Proof.
  rewrite handleGenerate_cases. intros Hrun.
  destruct (truthy_string (trim (prompt st)));
    [|injection Hrun as <- <-; reflexivity].
  cbv zeta in Hrun.
  destruct (generateImage net (prompt st) (aspectRatio st) log)
    as [[imageBase64|err] l]; injection Hrun as <- <-; [|reflexivity].
  unfold handleApiResponse. destruct seen_mode, seen_upload; reflexivity.
Qed.

Lemma uploadedImage_handleEdit (net : network) (plat : platform)
    (seen_mode : EditMode) (r : refs) (st st' : state)
    (log log' : list Http.request) :
  handleEdit net plat seen_mode r st log = (Returned st', log') ->
  uploadedImage st' = uploadedImage st.
Proof.
  rewrite handleEdit_cases. intros Hrun.
  destruct (truthy_string (trim (prompt st)));
    [|injection Hrun as <- <-; reflexivity].
  destruct (uploadedImage st) as [uploaded|] eqn:Hup;
    [|injection Hrun as <- <-; simpl; exact Hup].
  cbv zeta in Hrun.
  destruct (getMaskAsBase64 plat r) as [mask|err];
    [|injection Hrun as <- <-; simpl; exact Hup].
  destruct (editImage net (prompt st) _ (mimeType uploaded) mask log)
    as [[imageBase64|err] l]; injection Hrun as <- <-;
    [|simpl; exact Hup].
  unfold handleApiResponse. destruct seen_mode; simpl; exact Hup.
Qed.

(** The uploaded image of a reached state has one of the three MIME
    types. *)
Lemma reachable_uploaded_mimeType (net : network) (plat : platform)
    (st : state) :
  reachable net plat st ->
  forall uploaded,
    uploadedImage st = Some uploaded -> In (mimeType uploaded) allowedTypes.
Proof.
  induction 1 as
    [ | v st _ IH | v st _ IH | v st _ IH | v st _ IH | v st _ IH
      | file st _ IH | st _ IH | imgSrc st _ IH Hin | st Hreach IH
      | seen_mode seen_upload st log st' log' _ IH Hrun
      | seen_mode r st log st' log' _ IH Hrun ];
    intros uploaded Hup; try exact (IH uploaded Hup).
  - discriminate Hup.
  - rewrite processFile_cases in Hup.
    destruct (existsb (String.eqb (type file)) allowedTypes) eqn:Htype;
      [|exact (IH uploaded Hup)].
    destruct (size file <=? maxSizeInBytes)%N; [|exact (IH uploaded Hup)].
    destruct (readAsDataURL file) as [d|]; [|exact (IH uploaded Hup)].
    simpl in Hup. injection Hup as <-. simpl.
    apply allowedTypes_In, Htype.
  - discriminate Hup.
  - rewrite handleReEdit_cases in Hup.
    destruct (generatedImage st) as [g|] eqn:Hg; [|exact (IH uploaded Hup)].
    destruct (truthy_string g); [|exact (IH uploaded Hup)].
    destruct (reachable_results_are_jpeg net plat st Hreach) as [Hgen _].
    rewrite (match_mimeType_jpeg g (Hgen g Hg)) in Hup.
    simpl in Hup. injection Hup as <-. simpl. tauto.
  - rewrite (uploadedImage_handleGenerate _ _ _ _ _ _ _ Hrun) in Hup.
    exact (IH uploaded Hup).
  - rewrite (uploadedImage_handleEdit _ _ _ _ _ _ _ _ Hrun) in Hup.
    exact (IH uploaded Hup).
Qed.

End PostedImage.

(** X16.  A result that is edited again goes back as it came: after an
    answer with the base64 text [bytes] and a re-edit, an edit of the
    uploaded image that posts a request posts exactly [bytes] as
    [imageBase64Data] (the prefix of the data URL is cut off again at the
    comma). *)
Theorem reedit_posts_the_returned_bytes
    (net : GeminiService.network) (plat : Canvas2D.platform)
    (answer_mode seen_mode : App.EditMode)
    (answer_upload : option App.UploadedImage) (bytes : string)
    (st st2 : App.state) (r : App.refs) (log : list Http.request) :
  isBase64 bytes = true ->
  App.uploadedImage st2
  = App.uploadedImage
      (App.handleReEdit
         (App.handleApiResponse answer_mode answer_upload bytes st)) ->
  snd (App.handleEdit net plat seen_mode r st2 log) = log
  \/ exists request,
       snd (App.handleEdit net plat seen_mode r st2 log)
       = (log ++ [request])%list
       /\ Http.endpoint request = "/api/edit"
       /\ Http.body request !! "imageBase64Data" = Some bytes.
Proof.
  intros Hbase Hsame.
  destruct (uploadedImage_handleReEdit _ _
              (generatedImage_handleApiResponse answer_mode answer_upload
                 bytes st)) as [m Hup]; [discriminate|].
  rewrite Hup in Hsame.
  destruct (handleEdit_posted_fields net plat seen_mode r st2 log _ Hsame)
    as [Hlog | (request & Hlog & Hendpoint & _ & Himage & _)];
    [left; exact Hlog|].
  right. exists request. split; [exact Hlog|]. split; [exact Hendpoint|].
  rewrite Himage. simpl App.dataUrl.
  apply (split_data_url "image/jpeg" bytes); [|exact Hbase].
  intros c Hin ->. simpl in Hin.
  repeat (destruct Hin as [Hin|Hin]; [discriminate Hin|]). exact Hin.
Qed.

Lemma reedit_posts_the_returned_bytes_witness :
  let net : GeminiService.network := fun _ => Threw NotAnError in
  let r : App.refs :=
    {| App.imageCanvas := None; App.drawingCanvas := None;
       App.isDrawing := false; App.lastPos := None |} in
  let st2 :=
    App.setPrompt "add a hat"
      (App.handleReEdit
         (App.handleApiResponse App.generate None "iVBORw0KGgo="
            App.initial)) in
  exists request,
    snd (App.handleEdit net Canvas2D.edge_platform App.edit r st2 [])
    = [request]
    /\ Http.body request !! "imageBase64Data" = Some "iVBORw0KGgo=".
Proof.
  intros net r st2.
  destruct (reedit_posts_the_returned_bytes net Canvas2D.edge_platform
              App.generate App.edit None "iVBORw0KGgo=" App.initial st2 r [])
    as [Hlog | (request & Hlog & _ & Himage)];
    [reflexivity | reflexivity | discriminate Hlog |].
  exists request. split; [exact Hlog | exact Himage].
Defined.

(** X17.  An uploaded file goes to the backend as it was read: when the
    reader gives the data URL ["data:" type ";base64," payload] of an
    accepted file, an edit of that upload that posts a request posts
    exactly [payload] as [imageBase64Data] and the type of the file as
    [mimeType]. *)
Theorem uploaded_file_is_posted_as_read
    (net : GeminiService.network) (plat : Canvas2D.platform)
    (seen_mode : App.EditMode) (file : App.File) (payload : string)
    (st st2 : App.state) (r : App.refs) (log : list Http.request) :
  In (App.type file) App.allowedTypes ->
  (App.size file <= 8 * 1024 * 1024)%N ->
  App.readAsDataURL file
  = Some ("data:" ++ App.type file ++ ";base64," ++ payload) ->
  isBase64 payload = true ->
  App.uploadedImage st2 = App.uploadedImage (App.processFile file st) ->
  snd (App.handleEdit net plat seen_mode r st2 log) = log
  \/ exists request,
       snd (App.handleEdit net plat seen_mode r st2 log)
       = (log ++ [request])%list
       /\ Http.body request !! "imageBase64Data" = Some payload
       /\ Http.body request !! "mimeType" = Some (App.type file).
Proof.
  intros Htype Hsize Hread Hbase Hsame.
  rewrite processFile_cases in Hsame.
  rewrite (proj2 (allowedTypes_In _) Htype) in Hsame.
  apply N.leb_le in Hsize. unfold App.maxSizeInBytes in Hsame.
  rewrite Hsize, Hread in Hsame. simpl in Hsame.
  destruct (handleEdit_posted_fields net plat seen_mode r st2 log _ Hsame)
    as [Hlog | (request & Hlog & _ & _ & Himage & Hmime)];
    [left; exact Hlog|].
  right. exists request. split; [exact Hlog|]. split; [|exact Hmime].
  rewrite Himage. simpl App.dataUrl.
  apply split_data_url; [apply allowedTypes_no_comma, Htype | exact Hbase].
Qed.

Lemma uploaded_file_is_posted_as_read_witness :
  let net : GeminiService.network := fun _ => Threw NotAnError in
  let r : App.refs :=
    {| App.imageCanvas := None; App.drawingCanvas := None;
       App.isDrawing := false; App.lastPos := None |} in
  let file : App.File :=
    {| App.type := "image/webp"; App.size := 8388608;
       App.readAsDataURL := Some "data:image/webp;base64,UklGRg==" |} in
  let st2 := App.setPrompt "add a hat" (App.processFile file App.initial) in
  exists request,
    snd (App.handleEdit net Canvas2D.edge_platform App.edit r st2 [])
    = [request]
    /\ Http.body request !! "imageBase64Data" = Some "UklGRg=="
    /\ Http.body request !! "mimeType" = Some "image/webp".
Proof.
  intros net r file st2.
  destruct (uploaded_file_is_posted_as_read net Canvas2D.edge_platform
              App.edit file "UklGRg==" App.initial st2 r [])
    as [Hlog | (request & Hlog & Himage & Hmime)];
    [simpl; tauto | discriminate | reflexivity | reflexivity | reflexivity
    | discriminate Hlog |].
  exists request. split; [exact Hlog|]. split; [exact Himage | exact Hmime].
Defined.

(** X18.  In every state the component reaches, the MIME type of the
    uploaded image is one of ['image/png'], ['image/jpeg'] and
    ['image/webp'], whether the image came from a file or from a re-edit;
    so every request an edit posts from such a state carries one of these
    three as [mimeType]. *)
Theorem uploaded_mime_type_is_allowed
    (net : GeminiService.network) (plat : Canvas2D.platform)
    (st : App.state) (uploaded : App.UploadedImage) :
  App.reachable net plat st ->
  App.uploadedImage st = Some uploaded ->
  In (App.mimeType uploaded) ["image/png"; "image/jpeg"; "image/webp"]
  /\ (forall seen_mode r log request,
        snd (App.handleEdit net plat seen_mode r st log)
        = (log ++ [request])%list ->
        exists mime,
          Http.body request !! "mimeType" = Some mime
          /\ In mime ["image/png"; "image/jpeg"; "image/webp"]).
Proof.
  intros Hreach Hup.
  pose proof (reachable_uploaded_mimeType net plat st Hreach uploaded Hup)
    as Hallowed.
  split; [exact Hallowed|].
  intros seen_mode r log request Hposted.
  destruct (handleEdit_posted_fields net plat seen_mode r st log _ Hup)
    as [Hlog | (request' & Hlog & _ & _ & _ & Hmime)].
  - rewrite Hlog in Hposted.
    apply (f_equal length) in Hposted. rewrite length_app in Hposted.
    simpl in Hposted. lia.
  - rewrite Hlog in Hposted. apply app_inv_head in Hposted.
    injection Hposted as <-.
    exists (App.mimeType uploaded). split; [exact Hmime | exact Hallowed].
Qed.

Lemma uploaded_mime_type_is_allowed_witness :
  let net : GeminiService.network := fun _ => Threw NotAnError in
  let file : App.File :=
    {| App.type := "image/webp"; App.size := 1024;
       App.readAsDataURL := Some "data:image/webp;base64,UklGRg==" |} in
  In "image/webp" ["image/png"; "image/jpeg"; "image/webp"].
Proof.
  intros net file.
  destruct (uploaded_mime_type_is_allowed net Canvas2D.edge_platform
              (App.processFile file App.initial)
              {| App.dataUrl := "data:image/webp;base64,UklGRg==";
                 App.mimeType := "image/webp" |}) as [Hallowed _].
  - apply App.reach_processFile, App.reach_initial.
  - reflexivity.
  - exact Hallowed.
Defined.

(** X19.  A file becomes the uploaded image only if its type is one of
    the three allowed ones, it has at most 8 * 1024 * 1024 bytes and the
    reader delivers its data URL; then the error is cleared.  Any other
    file leaves the uploaded image as it was and sets an error. *)
Theorem processFile_accepts_or_keeps
    (file : App.File) (st : App.state) :
  (In (App.type file) ["image/png"; "image/jpeg"; "image/webp"]
   /\ (App.size file <= 8388608)%N
   /\ exists d,
        App.readAsDataURL file = Some d
        /\ App.uploadedImage (App.processFile file st)
           = Some {| App.dataUrl := d; App.mimeType := App.type file |}
        /\ App.error (App.processFile file st) = None)
  \/ ((~ In (App.type file) ["image/png"; "image/jpeg"; "image/webp"]
       \/ (8388608 < App.size file)%N
       \/ App.readAsDataURL file = None)
      /\ App.uploadedImage (App.processFile file st) = App.uploadedImage st
      /\ exists message,
           App.error (App.processFile file st) = Some message).
Proof.
  rewrite processFile_cases.
  destruct (existsb (String.eqb (App.type file)) App.allowedTypes) eqn:Htype.
  - apply allowedTypes_In in Htype.
    destruct (N.leb_spec (App.size file) App.maxSizeInBytes) as [Hsize|Hsize].
    + destruct (App.readAsDataURL file) as [d|] eqn:Hread.
      * left. split; [exact Htype|]. split; [exact Hsize|].
        exists d. repeat split.
      * right. split; [tauto|]. split; [reflexivity|].
        eexists. reflexivity.
    + right. split; [right; left; exact Hsize|]. split; [reflexivity|].
      eexists. reflexivity.
  - right. split.
    + left. intros Hin. apply allowedTypes_In in Hin. congruence.
    + split; [reflexivity|]. eexists. reflexivity.
Qed.

(** ** The name of the downloaded file *)

Section Download.
Import App.

Lemma length_map_string (f : ascii -> ascii) (s : string) :
  String.length (map_string f s) = String.length s.
Proof. induction s as [|c s IH]; simpl; [reflexivity | rewrite IH; reflexivity]. Qed.

Lemma length_take_string (n : nat) (s : string) :
  (String.length (take_string n s) <= n)%nat.
Proof.
  revert s. induction n as [|n IH]; intros [|c s]; simpl; try lia.
  specialize (IH s). lia.
Qed.

(** Replacing and lowering leaves a letter, a digit or an underscore. *)
Lemma sanitized_char (c : ascii) :
  isFileNameChar
    (toLowerCase_char (if isAlphaNumeric c then c else "_"%char)) = true.
Proof.
  destruct c as [[] [] [] [] [] [] [] []]; vm_compute; reflexivity.
Qed.

Lemma sanitized_chars (s : string) :
  allFileNameChars (toLowerCase (replaceNonAlphaNumeric s)) = true.
Proof.
  induction s as [|c s IH]; [reflexivity|].
  unfold toLowerCase, replaceNonAlphaNumeric in *. simpl.
  rewrite sanitized_char. exact IH.
Qed.

Lemma map_string_empty (f : ascii -> ascii) (s : string) :
  map_string f s = EmptyString -> s = EmptyString.
Proof. destruct s; [reflexivity | discriminate]. Qed.

End Download.

(** X20.  Without a generated image there is no download.  With one, the
    download links to that image under the name
    ["ai-image-" stem ".jpg"], where the stem is never empty, has at most
    30 characters, all of them lower-case letters, digits or underscores,
    and is ["edited"] for an empty prompt. *)
Theorem download_name_is_safe (st : App.state) :
  (truthy (App.generatedImage st) = false -> App.handleDownload st = None)
  /\ forall g,
  App.generatedImage st = Some g -> g <> EmptyString ->
  exists stem,
    App.handleDownload st
    = Some {| App.href := g;
              App.download := "ai-image-" ++ stem ++ ".jpg" |}
    /\ stem <> EmptyString
    /\ (String.length stem <= 30)%nat
    /\ allFileNameChars stem = true
    /\ (App.prompt st = EmptyString -> stem = "edited").
Proof.
  split; [intros Hnone; unfold App.handleDownload; rewrite Hnone; reflexivity|].
  intros g Hg Hshown. unfold App.handleDownload. rewrite Hg.
  cbn [truthy]. apply truthy_string_iff in Hshown. rewrite Hshown.
  cbn [negb].
  set (name := toLowerCase
                 (replaceNonAlphaNumeric (take_string 30 (App.prompt st)))).
  exists (or_else (Some name) "edited").
  split; [reflexivity|].
  assert (String.length name <= 30)%nat as Hlen.
  { subst name. unfold toLowerCase, replaceNonAlphaNumeric.
    rewrite !length_map_string. apply length_take_string. }
  assert (allFileNameChars name = true) as Hchars
    by (subst name; apply sanitized_chars).
  unfold or_else.
  destruct (truthy_string name) eqn:Htruthy.
  - split; [apply truthy_string_iff, Htruthy|].
    split; [exact Hlen|]. split; [exact Hchars|].
    intros Hprompt. subst name. rewrite Hprompt in Htruthy.
    discriminate Htruthy.
  - split; [discriminate|]. split; [simpl; lia|].
    split; [reflexivity|]. reflexivity.
Qed.

Lemma download_name_is_safe_witness :
  exists stem,
    App.handleDownload
      (App.setGeneratedImage (Some "data:image/jpeg;base64,AAAA")
         (App.setPrompt "A Lion, wearing a CROWN (cinematic lighting)!"
            App.initial))
    = Some {| App.href := "data:image/jpeg;base64,AAAA";
              App.download := "ai-image-" ++ stem ++ ".jpg" |}
    /\ (String.length stem <= 30)%nat
    /\ allFileNameChars stem = true.
Proof.
  destruct (download_name_is_safe
              (App.setGeneratedImage (Some "data:image/jpeg;base64,AAAA")
                 (App.setPrompt
                    "A Lion, wearing a CROWN (cinematic lighting)!"
                    App.initial)))
    as [_ Hshown].
  destruct (Hshown "data:image/jpeg;base64,AAAA" eq_refl)
    as (stem & Hdownload & _ & Hlength & Hchars & _); [discriminate|].
  exists stem. split; [exact Hdownload|]. split; [exact Hlength|].
  exact Hchars.
Defined.

(** ** Strokes *)

Section Strokes.
Import Canvas2D App.

(** Black paint never lowers the opacity of a pixel. *)
Lemma source_over_opacity (coverage : N) (p : rgba) :
  (alpha p <= 255)%N ->
  (alpha p <= alpha (source_over (covered black coverage) p))%N.
Proof.
  intros Ha. unfold source_over, covered. simpl.
  assert (div_round (255 * N.min coverage 255) 255 = N.min coverage 255)
    as ->.
  { rewrite N.mul_comm. apply div_round_exact. discriminate. }
  set (sa := N.min coverage 255).
  assert (sa <= 255)%N as Hsa by (subst sa; lia).
  destruct (N.eqb_spec (255 * sa + alpha p * (255 - sa)) 0) as [Hz|Hout].
  - simpl. nia.
  - simpl. unfold div_round.
    apply N.div_le_lower_bound; [discriminate|]. nia.
Qed.

Lemma paint_opacity (coverage : nat -> N) (c : canvas) (i : nat) (p : rgba) :
  Forall ink (bitmap c) ->
  bitmap c !! i = Some p ->
  exists q,
    bitmap (paint black coverage c) !! i = Some q
    /\ (alpha p <= alpha q)%N.
Proof.
  intros Hink Hp. simpl. rewrite list_lookup_imap, Hp. simpl.
  eexists. split; [reflexivity|].
  apply source_over_opacity.
  destruct (proj1 (Forall_lookup _ _) Hink i p Hp) as (_ & _ & _ & Ha).
  exact Ha.
Qed.

(** One gesture on a mask layer gives a mask layer again. *)
Lemma mask_layer_gesture (plat : platform) (img : HTMLImageElement)
    (r : refs) (g : gesture) :
  mask_layer plat img r -> mask_layer plat img (gesture_step plat r g).
Proof.
  intros H. destruct g; simpl;
    [apply layer_startDrawing | apply layer_draw | apply layer_stopDrawing];
    exact H.
Qed.

Lemma gesture_opacity (plat : platform) (img : HTMLImageElement)
    (r : refs) (g : gesture) (i : nat) (a : N) :
  mask_layer plat img r ->
  opacity_at r i = Some a ->
  exists a',
    opacity_at (gesture_step plat r g) i = Some a' /\ (a <= a')%N.
Proof.
  intros Hlayer Ha.
  destruct (drawingCanvas r) as [c|] eqn:Hc;
    [|unfold opacity_at in Ha; rewrite Hc in Ha; discriminate Ha].
  destruct (mask_layer_raster plat img r Hlayer c Hc) as (_ & _ & _ & Hink).
  assert (exists p, bitmap c !! i = Some p /\ alpha p = a) as (p & Hp & <-).
  { unfold opacity_at in Ha. rewrite Hc in Ha. simpl in Ha.
    destruct (bitmap c !! i) as [p|]; [|discriminate].
    exists p. split; [reflexivity|]. simpl in Ha. congruence. }
  assert (opacity_at r i = Some (alpha p)) as Hsame by exact Ha.
  destruct g as [e | brushSize e | ]; simpl.
  - exists (alpha p). split; [|lia].
    unfold startDrawing. destruct (getCanvasCoords r e); exact Hsame.
  - unfold draw.
    destruct (negb (isDrawing r)); [exists (alpha p); split; [exact Hsame|lia]|].
    destruct (getCanvasCoords r e) as [coords|];
      [|exists (alpha p); split; [exact Hsame|lia]].
    rewrite Hc.
    destruct (lastPos r) as [last|];
      [|exists (alpha p); split; [exact Hsame|lia]].
    unfold fill_arc, stroke_line.
    destruct (paint_opacity
                (line_coverage plat (width c) (height c)
                   (inject_Z (Z.of_N (brushSize * 2))) last coords)
                c i p Hink Hp) as (q & Hq & Hpq).
    set (stroked := paint black _ c) in *.
    destruct (paint_opacity
                (disc_coverage plat (width stroked) (height stroked) coords
                   (inject_Z (Z.of_N brushSize)))
                stroked i q (paint_ink _ c Hink) Hq) as (q' & Hq' & Hqq').
    exists (alpha q'). split; [|lia].
    transitivity (alpha <$> Some q'); [|reflexivity].
    rewrite <- Hq'. reflexivity.
  - exists (alpha p). split; [exact Hsame | lia].
Qed.

End Strokes.

(** X21.  Strokes only add: over any run of pointer gestures on a mask
    layer (presses, moves with any brush size, releases), the opacity of
    a pixel never goes down, whatever the rasteriser: no stroke erases
    what an earlier one painted.  What resets a pixel is not a gesture:
    clearing the mask leaves it transparent, and so does a change of mode
    that takes the canvases off the page and brings new ones back. *)
Theorem strokes_never_erase
    (plat : Canvas2D.platform) (img : App.HTMLImageElement)
    (gs : list App.gesture) (r : App.refs) (i : nat) (a : N) :
  App.mask_layer plat img r ->
  App.opacity_at r i = Some a ->
  (exists a',
      App.opacity_at (App.gestures plat gs r) i = Some a'
      /\ (a <= a')%N
      /\ (a <> 0%N -> a' <> 0%N))
  /\ App.opacity_at (App.clearMask r) i = Some 0%N
  /\ (forall j b,
        App.opacity_at (App.mount (App.unmount r)) j = Some b -> b = 0%N).
Proof.
  intros Hlayer Ha. split; [|split].
  - unfold App.gestures. revert r a Hlayer Ha.
    induction gs as [|g gs IH]; intros r a Hlayer Ha.
    + exists a. split; [exact Ha|]. split; [lia | tauto].
    + simpl.
      destruct (gesture_opacity plat img r g i a Hlayer Ha)
        as (b & Hb & Hab).
      destruct (IH _ b (mask_layer_gesture plat img r g Hlayer) Hb)
        as (a' & Ha' & Hba' & _).
      exists a'. split; [exact Ha'|]. split; lia.
  - unfold App.opacity_at in *. unfold App.clearMask.
    destruct (App.drawingCanvas r) as [c|] eqn:Hc; [|discriminate Ha].
    cbn [App.drawingCanvas mbind option_bind] in *.
    destruct (mask_layer_raster plat img r Hlayer c Hc)
      as (_ & _ & Hlen & _).
    destruct (Canvas2D.bitmap c !! i) as [p|] eqn:Hp; [|discriminate Ha].
    apply lookup_lt_Some in Hp.
    unfold Canvas2D.clearRect, Canvas2D.blank. cbn [Canvas2D.bitmap].
    rewrite lookup_replicate_2 by lia. reflexivity.
  - intros j b. unfold App.opacity_at, App.mount, Canvas2D.blank.
    cbn [App.drawingCanvas mbind option_bind Canvas2D.bitmap].
    intros Hb.
    destruct (replicate _ Canvas2D.transparent !! j) as [p|] eqn:Hp;
      [|discriminate Hb].
    apply lookup_replicate in Hp as [-> _].
    injection Hb as <-. reflexivity.
Qed.

Lemma strokes_never_erase_witness :
  let img : App.HTMLImageElement :=
    {| App.naturalWidth := 12; App.naturalHeight := 1;
       App.pixels := replicate 12 Canvas2D.white |} in
  let mounted : App.refs :=
    App.mount App.initial_refs in
  let shown : App.DOMRect :=
    {| App.left := 0; App.top := 0;
       App.rect_width := 12; App.rect_height := 1 |} in
  let press : App.event :=
    {| App.rect := shown; App.source := App.MouseEvent (1 # 2) (1 # 2) |} in
  let move : App.event :=
    {| App.rect := shown; App.source := App.MouseEvent (3 # 2) (1 # 2) |} in
  let stroked :=
    App.draw Canvas2D.supersampling 5 move
      (App.startDrawing press (App.onload img mounted)) in
  exists a',
    App.opacity_at
      (App.gestures Canvas2D.supersampling
         [App.PointerUp; App.PointerDown move; App.PointerMove 5 press]
         stroked) 6
    = Some a'
    /\ (192 <= a')%N.
Proof.
  intros img mounted shown press move stroked.
  destruct (strokes_never_erase Canvas2D.supersampling img
              [App.PointerUp; App.PointerDown move; App.PointerMove 5 press]
              stroked 6 192)
    as ((a' & Ha' & Hle & _) & _).
  - apply App.layer_draw, App.layer_startDrawing.
    apply (App.layer_onload _ img mounted (Canvas2D.blank 300 150)
             (Canvas2D.blank 300 150)); reflexivity.
  - vm_compute. reflexivity.
  - exists a'. split; [exact Ha' | exact Hle].
Defined.

(** X22.  Outside a stroke the pointer paints nothing: while no stroke is
    in progress, any run of moves leaves the canvases and the stroke state
    exactly as they are, and a press followed by a release, with no move
    between, leaves both canvases as they are and no stroke in
    progress. *)
Theorem pointer_paints_only_during_a_stroke
    (plat : Canvas2D.platform) (r : App.refs) :
  (App.isDrawing r = false ->
   forall events, App.moves plat events r = r)
  /\ (forall e,
        let after := App.stopDrawing (App.startDrawing e r) in
        App.drawingCanvas after = App.drawingCanvas r
        /\ App.imageCanvas after = App.imageCanvas r
        /\ App.isDrawing after = false
        /\ forall events, App.moves plat events after = after).
Proof.
  assert (forall r', App.isDrawing r' = false ->
            forall events, App.moves plat events r' = r') as Hidle.
  { intros r' Hidle events. unfold App.moves.
    induction events as [|[brushSize e] events IH]; [reflexivity|].
    simpl. unfold App.draw at 2. rewrite Hidle. simpl. exact IH. }
  split; [exact (Hidle r)|].
  intros e after. subst after.
  assert (App.drawingCanvas (App.startDrawing e r) = App.drawingCanvas r
          /\ App.imageCanvas (App.startDrawing e r) = App.imageCanvas r)
    as [Hd Hi].
  { unfold App.startDrawing.
    destruct (App.getCanvasCoords r e); split; reflexivity. }
  split; [exact Hd|]. split; [exact Hi|]. split; [reflexivity|].
  apply Hidle. reflexivity.
Qed.

Lemma pointer_paints_only_during_a_stroke_witness :
  let r : App.refs :=
    {| App.imageCanvas := Some (Canvas2D.blank 2 1);
       App.drawingCanvas := Some (Canvas2D.blank 2 1);
       App.isDrawing := false; App.lastPos := None |} in
  let e : App.event :=
    {| App.rect := {| App.left := 0; App.top := 0;
                      App.rect_width := 200; App.rect_height := 100 |};
       App.source := App.MouseEvent 50 50 |} in
  App.moves Canvas2D.edge_platform [(20%N, e); (20%N, e)] r = r.
Proof.
  intros r e.
  destruct (pointer_paints_only_during_a_stroke Canvas2D.edge_platform r)
    as [Hidle _].
  apply Hidle. reflexivity.
Defined.

(** ** The image beneath the mask *)

Section Backdrop.
Import Canvas2D App.

(** An opaque pixel drawn on a transparent one is that pixel. *)
Lemma source_over_opaque_on_transparent (s : rgba) :
  alpha s = 255%N -> source_over s transparent = s.
Proof.
  destruct s as [r g b a]. simpl. intros ->.
  unfold source_over. simpl.
  assert (forall c : N,
            div_round (255 * c * 255 + 0 * 0 * (255 - 255))
              (255 * 255 + 0 * (255 - 255)) = c) as Hchannel.
  { intros c. transitivity (div_round (c * 65025) 65025);
      [f_equal; lia | apply div_round_exact; discriminate]. }
  rewrite !Hchannel. reflexivity.
Qed.

(** An opaque image drawn at the origin of a cleared canvas of its own
    size fills it, pixel for pixel. *)
Lemma drawImage_opaque_image (img : HTMLImageElement) :
  opaque_image img ->
  drawImage (image_source img)
    (clearRect (blank (Npos (naturalWidth img)) (Npos (naturalHeight img))))
  = image_source img.
Proof.
  intros [Hlen Hopaque].
  unfold drawImage, image_source, clearRect. cbn [width height bitmap blank].
  f_equal.
  set (w := Npos (naturalWidth img)) in *.
  set (h := Npos (naturalHeight img)) in *.
  assert (w <> 0%N) as Hw by (subst w; discriminate).
  apply list_eq. intros i.
  rewrite list_lookup_imap.
  destruct (decide (i < N.to_nat (w * h))%nat) as [Hi|Hi].
  - rewrite lookup_replicate_2 by exact Hi. simpl.
    assert (N.of_nat i < w * h)%N as Hi' by lia.
    assert (N.of_nat i mod w < w)%N as Hcol by (apply N.mod_lt, Hw).
    assert (N.of_nat i / w < h)%N as Hrow
      by (apply N.Div0.div_lt_upper_bound; exact Hi').
    apply N.ltb_lt in Hcol, Hrow. rewrite Hcol, Hrow. simpl.
    assert (N.to_nat (N.of_nat i / w * w + N.of_nat i mod w) = i) as ->.
    { rewrite (N.mul_comm _ w), <- N.div_mod by exact Hw.
      apply Nat2N.id. }
    destruct (pixels img !! i) as [s|] eqn:Hs.
    + f_equal. apply source_over_opaque_on_transparent.
      exact (proj1 (Forall_lookup _ _) Hopaque i s Hs).
    + apply lookup_ge_None in Hs. lia.
  - rewrite (proj1 (lookup_replicate_None _ _ _)) by lia. simpl.
    symmetry. apply lookup_ge_None. lia.
Qed.

Lemma imageCanvas_gesture (plat : platform) (r : refs) (g : gesture) :
  imageCanvas (gesture_step plat r g) = imageCanvas r.
Proof.
  destruct g as [e | brushSize e | ]; simpl.
  - unfold startDrawing. destruct (getCanvasCoords r e); reflexivity.
  - unfold draw. destruct (negb (isDrawing r)); [reflexivity|].
    destruct (getCanvasCoords r e), (drawingCanvas r), (lastPos r);
      reflexivity.
  - reflexivity.
Qed.

Lemma imageCanvas_gestures (plat : platform) (gs : list gesture) (r : refs) :
  imageCanvas (gestures plat gs r) = imageCanvas r.
Proof.
  unfold gestures. revert r.
  induction gs as [|g gs IH]; intros r; [reflexivity|].
  simpl. rewrite IH. apply imageCanvas_gesture.
Qed.

Lemma imageCanvas_clearMask (r : refs) :
  imageCanvas (clearMask r) = imageCanvas r.
Proof. unfold clearMask. destruct (drawingCanvas r); reflexivity. Qed.

Lemma loaded_layer_imageCanvas (plat : platform) (img : HTMLImageElement)
    (r : refs) :
  opaque_image img ->
  loaded_layer plat img r -> imageCanvas r = Some (image_source img).
Proof.
  intros Hopaque.
  induction 1 as [r below above Hbelow Habove | e r _ IH | b e r _ IH
                  | r _ IH | r _ IH].
  - unfold onload. rewrite Hbelow, Habove. cbn [imageCanvas].
    rewrite (drawImage_opaque_image img Hopaque). reflexivity.
  - rewrite <- IH. apply (imageCanvas_gesture plat r (PointerDown e)).
  - rewrite <- IH. apply (imageCanvas_gesture plat r (PointerMove b e)).
  - exact IH.
  - rewrite imageCanvas_clearMask. exact IH.
Qed.

End Backdrop.

(** X23.  The image beneath the mask: once an opaque image has loaded on
    the canvases, and as long as these stay on the page, the image canvas
    holds the image pixel for pixel, at its natural size, and no run of
    strokes and no clearing of the mask changes that canvas.  After a
    change of mode that takes the canvases off the page and brings new
    ones back, the image canvas is a blank canvas of 300 by 150: the
    image is not drawn again. *)
Theorem image_canvas_shows_the_upload
    (plat : Canvas2D.platform) (img : App.HTMLImageElement) (r : App.refs) :
  App.opaque_image img ->
  App.loaded_layer plat img r ->
  App.imageCanvas r = Some (App.image_source img)
  /\ (forall gs,
        App.imageCanvas (App.gestures plat gs r)
        = Some (App.image_source img))
  /\ App.imageCanvas (App.clearMask r) = Some (App.image_source img)
  /\ App.imageCanvas (App.mount (App.unmount r))
     = Some (Canvas2D.blank 300 150).
Proof.
  intros Hopaque Hlayer.
  pose proof (loaded_layer_imageCanvas plat img r Hopaque Hlayer) as Himage.
  split; [exact Himage|]. split; [|split; [|reflexivity]].
  - intros gs. rewrite imageCanvas_gestures. exact Himage.
  - rewrite imageCanvas_clearMask. exact Himage.
Qed.

Lemma image_canvas_shows_the_upload_witness :
  let red_pixel : Canvas2D.rgba :=
    {| Canvas2D.red := 200; Canvas2D.green := 30; Canvas2D.blue := 30;
       Canvas2D.alpha := 255 |} in
  let img : App.HTMLImageElement :=
    {| App.naturalWidth := 2; App.naturalHeight := 1;
       App.pixels := [red_pixel; Canvas2D.white] |} in
  let mounted : App.refs :=
    App.mount App.initial_refs in
  let e : App.event :=
    {| App.rect := {| App.left := 0; App.top := 0;
                      App.rect_width := 200; App.rect_height := 100 |};
       App.source := App.MouseEvent 50 50 |} in
  App.imageCanvas
    (App.gestures Canvas2D.supersampling
       [App.PointerDown e; App.PointerMove 20 e; App.PointerUp]
       (App.onload img mounted))
  = Some {| Canvas2D.width := 2; Canvas2D.height := 1;
            Canvas2D.bitmap := [red_pixel; Canvas2D.white] |}.
Proof.
  intros red_pixel img mounted e.
  destruct (image_canvas_shows_the_upload Canvas2D.supersampling img
              (App.onload img mounted))
    as (_ & Hstrokes & _).
  - split; [reflexivity|]. repeat constructor.
  - apply (App.loaded_onload _ img mounted (Canvas2D.blank 300 150)
             (Canvas2D.blank 300 150)); reflexivity.
  - exact (Hstrokes [App.PointerDown e; App.PointerMove 20 e; App.PointerUp]).
Defined.

(** ** The pattern of [handleReEdit] *)

Section MimePattern.
Import App.

(** The greedy run of [\w] stops at the [;]. *)
Lemma spanWord_word (word rest : string) :
  allWordChars word = true ->
  spanWord (word ++ String ";" rest) = (word, String ";" rest).
Proof.
  induction word as [|c word IH]; simpl; [reflexivity|].
  intros H. apply andb_true_iff in H as [Hc Hword].
  rewrite Hc, (IH Hword). reflexivity.
Qed.

Lemma match_at_head_data_url (word payload : string) :
  word <> EmptyString -> allWordChars word = true ->
  match_at_head ("data:image/" ++ word ++ ";base64," ++ payload)
  = Some ("image/" ++ word).
Proof.
  intros Hne Hword. unfold match_at_head.
  rewrite prefix_refl_app.
  change (drop_string 11 ("data:image/" ++ word ++ ";base64," ++ payload))
    with (word ++ String ";" ("base64," ++ payload)).
  rewrite (spanWord_word word _ Hword).
  apply truthy_string_iff in Hne. rewrite Hne.
  change (String ";" ("base64," ++ payload)) with (";base64," ++ payload).
  rewrite prefix_refl_app. reflexivity.
Qed.

Lemma match_mimeType_at_head (s group : string) :
  match_at_head s = Some group -> match_mimeType s = Some group.
Proof.
  intros H. destruct s; cbn [match_mimeType]; rewrite H; reflexivity.
Qed.

(** Without [data:image/] anywhere there is no match. *)
Lemma match_mimeType_none (s : string) :
  includes s "data:image/" = false -> match_mimeType s = None.
Proof.
  induction s as [|c s IH]; intros H.
  - reflexivity.
  - cbn [includes] in H. apply orb_false_iff in H as [Hhere Hlater].
    cbn [match_mimeType]. unfold match_at_head. rewrite Hhere.
    apply IH, Hlater.
Qed.

End MimePattern.

(** X24.  [handleReEdit] takes the MIME type out of the data URL of the
    shown image: for a URL [data:image/<word>;base64,...], with a word of
    letters, digits and underscores that is not empty, the image goes
    back to the editor with the type [image/<word>]; for a source (not
    empty) that contains [data:image/] nowhere the type is [image/jpeg].  Either way
    the component is in edit mode with an empty prompt, no result shown
    and no error. *)
Theorem reedit_reads_the_type_from_the_data_url
    (st : App.state) (g : string) :
  App.generatedImage st = Some g -> g <> EmptyString ->
  let st' := App.handleReEdit st in
  (forall word payload,
      g = "data:image/" ++ word ++ ";base64," ++ payload ->
      word <> EmptyString -> allWordChars word = true ->
      App.uploadedImage st'
      = Some {| App.dataUrl := g; App.mimeType := "image/" ++ word |})
  /\ (includes g "data:image/" = false ->
      App.uploadedImage st'
      = Some {| App.dataUrl := g; App.mimeType := "image/jpeg" |})
  /\ App.mode st' = App.edit
  /\ App.prompt st' = EmptyString
  /\ App.generatedImage st' = None
  /\ App.comparisonImage st' = None
  /\ App.error st' = None
  /\ App.history st' = App.history st.
Proof.
  intros Hg Hshown st'. subst st'. rewrite handleReEdit_cases, Hg.
  apply truthy_string_iff in Hshown. rewrite Hshown.
  split; [|split; [|repeat split]].
  - intros word payload -> Hne Hword.
    rewrite (match_mimeType_at_head _ _
               (match_at_head_data_url word payload Hne Hword)).
    reflexivity.
  - intros Hnone. rewrite (match_mimeType_none g Hnone). reflexivity.
Qed.

Lemma reedit_reads_the_type_from_the_data_url_witness :
  App.uploadedImage
    (App.handleReEdit
       (App.setGeneratedImage (Some "data:image/webp;base64,UklGRg==")
          App.initial))
  = Some {| App.dataUrl := "data:image/webp;base64,UklGRg==";
            App.mimeType := "image/webp" |}
  /\ App.uploadedImage
       (App.handleReEdit
          (App.setGeneratedImage (Some "https://example.org/a.png")
             App.initial))
     = Some {| App.dataUrl := "https://example.org/a.png";
               App.mimeType := "image/jpeg" |}.
Proof.
  split.
  - destruct (reedit_reads_the_type_from_the_data_url
                (App.setGeneratedImage
                   (Some "data:image/webp;base64,UklGRg==") App.initial)
                "data:image/webp;base64,UklGRg==" eq_refl)
      as (Hword & _); [discriminate|].
    apply (Hword "webp" "UklGRg=="); [reflexivity | discriminate | reflexivity].
  - destruct (reedit_reads_the_type_from_the_data_url
                (App.setGeneratedImage (Some "https://example.org/a.png")
                   App.initial)
                "https://example.org/a.png" eq_refl)
      as (_ & Hnone & _); [discriminate|].
    apply Hnone. reflexivity.
Defined.

(** ** The slider of the comparator *)

Section Slider.
Import App ImageComparator.




End Slider.


